(** * wtxmgr/db.go: the on-disk schema of the wallet transaction store

    A shallow embedding of the key/value encodings and bucket operations of
    [wtxmgr/db.go], together with the properties of the store that follow
    from them.  Byte slices are lists of [Byte.byte]; the fixed-width
    integers of the source are [Z] with their wrap-around written out; a
    bucket is a finite map from byte keys to byte values. *)

From Stdlib Require Import ZArith List Bool String Permutation.
From Stdlib.Strings Require Import Byte.
From stdpp Require Import base option list gmap sorting.

(** ** Bytes *)

Abbreviation bytes := (list byte).

Definition byte_to_Z (b : byte) : Z := Z.of_N (Byte.to_N b).

(** [uint8(z)]: conversion to a byte keeps the low eight bits. *)
Definition byte_of_Z (z : Z) : byte :=
  match Byte.of_N (Z.to_N (z mod 256)%Z) with
  | Some b => b
  | None => x00
  end.

#[global] Instance byte_eq_decision : EqDecision byte := Byte.byte_eq_dec.

#[global] Instance byte_countable : Countable byte.
Proof.
  refine (inj_countable' Byte.to_N (fun n => default x00 (Byte.of_N n)) _).
  intros b. rewrite Byte.of_to_N. reflexivity.
Defined.

(** Bit operations on a byte, as Go's [|], [&] and [&^] on [uint8]. *)
Definition byte_or (a b : byte) : byte := byte_of_Z (Z.lor (byte_to_Z a) (byte_to_Z b)).
Definition byte_and (a b : byte) : byte := byte_of_Z (Z.land (byte_to_Z a) (byte_to_Z b)).
Definition byte_andnot (a b : byte) : byte := byte_of_Z (Z.ldiff (byte_to_Z a) (byte_to_Z b)).
Definition byte_shl (a : byte) (n : Z) : byte := byte_of_Z (Z.shiftl (byte_to_Z a) n).
Definition byte_shr (a : byte) (n : Z) : byte := byte_of_Z (Z.shiftr (byte_to_Z a) n).
Definition byte_add (a b : byte) : byte := byte_of_Z (byte_to_Z a + byte_to_Z b)%Z.
Definition byte_sub (a b : byte) : byte := byte_of_Z (byte_to_Z a - byte_to_Z b)%Z.
Definition byte_testbit (a : byte) (n : Z) : bool := Z.testbit (byte_to_Z a) n.

(** [make([]byte, n)] *)
Definition make (n : nat) : bytes := replicate n x00.

(** [v[lo:hi]] for [lo <= hi <= len(v)]; the callers below check the bounds
    the source checks, and panic where it would. *)
Definition slice (v : bytes) (lo hi : nat) : bytes := take (hi - lo) (drop lo v).

(** [copy(dst, src)]: copies [min(len(dst), len(src))] bytes. *)
Definition copy (dst src : bytes) : bytes :=
  take (length dst) src ++ drop (length src) dst.

(** [copy(v[lo:hi], src)] seen from [v], for [lo <= hi <= len(v)]. *)
Definition copy_at (v : bytes) (lo hi : nat) (src : bytes) : bytes :=
  take lo v ++ copy (slice v lo hi) src ++ drop hi v.

(** [v[i] = b] for [i < len(v)]. *)
Definition set_byte (v : bytes) (i : nat) (b : byte) : bytes := <[i := b]> v.

(** [v[i]] with the zero byte standing for an index the callers never use. *)
Definition get_byte (v : bytes) (i : nat) : byte := default x00 (v !! i).

(** ** [byteOrder = binary.BigEndian] *)

Fixpoint be_decode_from (acc : Z) (bs : bytes) : Z :=
  match bs with
  | [] => acc
  | b :: bs' => be_decode_from (acc * 256 + byte_to_Z b)%Z bs'
  end.

Definition be_decode (bs : bytes) : Z := be_decode_from 0%Z bs.

Fixpoint be_encode (n : nat) (z : Z) : bytes :=
  match n with
  | O => []
  | S n' => be_encode n' (z / 256)%Z ++ [byte_of_Z z]
  end.

Module byteOrder.

Definition Uint16 (b : bytes) : Z := be_decode (take 2 b).
Definition Uint32 (b : bytes) : Z := be_decode (take 4 b).
Definition Uint64 (b : bytes) : Z := be_decode (take 8 b).

(** [PutUintN(v[lo:lo+N], x)] seen from [v]. *)
Definition PutUint16 (v : bytes) (lo : nat) (x : Z) : bytes :=
  copy_at v lo (lo + 2) (be_encode 2 x).
Definition PutUint32 (v : bytes) (lo : nat) (x : Z) : bytes :=
  copy_at v lo (lo + 4) (be_encode 4 x).
Definition PutUint64 (v : bytes) (lo : nat) (x : Z) : bytes :=
  copy_at v lo (lo + 8) (be_encode 8 x).

End byteOrder.

(** Conversions between the integer types of the source. *)
Definition uint32 (z : Z) : Z := (z mod 2 ^ 32)%Z.
Definition uint64 (z : Z) : Z := (z mod 2 ^ 64)%Z.
Definition int32 (z : Z) : Z := ((z + 2 ^ 31) mod 2 ^ 32 - 2 ^ 31)%Z.
Definition int64 (z : Z) : Z := ((z + 2 ^ 63) mod 2 ^ 64 - 2 ^ 63)%Z.

(** ** Errors *)

(** The error codes of [wtxmgr/error.go] that [db.go] uses. *)
Inductive ErrorCode :=
| ErrDatabase | ErrData | ErrInput | ErrAlreadyExists
| ErrNoExists | ErrUnknownVersion | ErrValueNoExists.

(** An [error] value: a store [Error] with its code (the description string
    and the wrapped cause are not modelled), or an error of another type
    ([fmt.Errorf], the hash library). *)
Inductive error :=
| storeError (c : ErrorCode)
| otherError.

(** The outcome of a call: a value, an error, or a run-time panic (index
    out of range, nil bucket). *)
Inductive result (A : Type) :=
| Ok (a : A)
| Fail (e : error)
| Panic.
Arguments Ok {A} a.
Arguments Fail {A} e.
Arguments Panic {A}.

#[global] Instance result_ret : MRet result := fun _ a => Ok a.

#[global] Instance result_bind : MBind result := fun _ _ f r =>
  match r with
  | Ok a => f a
  | Fail e => Fail e
  | Panic => Panic
  end.

(** Replace the error of a failed engine call, as
    [if err != nil { return storeError(code, str, err) }] does. *)
Definition orFail {A} (r : result A) (e : error) : result A :=
  match r with
  | Ok a => Ok a
  | Fail _ => Fail e
  | Panic => Panic
  end.

(** ** Hashes *)

(** [chainhash.Hash], a [[32]byte] array. *)
Record Hash := mkHash {
  hash_bytes :> bytes;
  hash_size : Nat.eqb (length hash_bytes) 32 = true
}.

(** [chainhash.Hash{}] *)
Definition zeroHash : Hash := mkHash (replicate 32 x00) eq_refl.

(** [chainhash.NewHash(b)]: fails unless [len(b) == 32]. *)
Definition NewHash (b : bytes) : result Hash :=
  match Nat.eqb (length b) 32 as c
        return Nat.eqb (length b) 32 = c -> result Hash with
  | true => fun H => Ok (mkHash b H)
  | false => fun _ => Fail otherError
  end eq_refl.

(** [h.IsEqual(other)] *)
Definition IsEqual (h other : Hash) : bool :=
  bool_decide (hash_bytes h = hash_bytes other).

(** [bytes.HasPrefix(s, prefix)] *)
Fixpoint HasPrefix (s prefix : bytes) : bool :=
  match prefix, s with
  | [], _ => true
  | _ :: _, [] => false
  | p :: prefix', c :: s' => bool_decide (c = p) && HasPrefix s' prefix'
  end.

(** [bytes.Compare(a, b) <= 0]: the order of the engine's keys. *)
Fixpoint bytes_le (a b : bytes) : bool :=
  match a, b with
  | [], _ => true
  | _ :: _, [] => false
  | x :: a', y :: b' =>
      if bool_decide (x = y) then bytes_le a' b'
      else (byte_to_Z x <? byte_to_Z y)%Z
  end.

Definition bytes_lt (a b : bytes) : bool := negb (bytes_le b a).

(** ** The key/value engine *)

(** Modelled from the spec: the engine of package [walletdb] is a
    collaborator whose source is not part of this file.  Following the
    engine contract, a transaction is begun read-only or writable and
    exposes the root bucket of the namespace; a bucket supports [get],
    [put], [delete], nested [createBucket] and cursors that walk its keys
    in byte order.  A write in a read-only transaction is refused, and
    [createBucket] is refused when the name is taken.  [Namespace] is the
    root bucket as one transaction sees it: the scalar keys of the root
    and the nested buckets, one level deep as the store uses them. *)
Record Namespace := mkNamespace {
  ns_writable : bool;
  ns_values : gmap bytes bytes;
  ns_buckets : gmap bytes (gmap bytes bytes)
}.

Module walletdb.

(** [ns.Get(k)]: [None] stands for the nil slice of an absent key. *)
Definition Get (ns : Namespace) (k : bytes) : option bytes :=
  ns_values ns !! k.

(** [ns.Put(k, v)] *)
Definition Put (ns : Namespace) (k v : bytes) : result Namespace :=
  if ns_writable ns
  then Ok (mkNamespace true (<[k := v]> (ns_values ns)) (ns_buckets ns))
  else Fail otherError.

(** [ns.CreateBucket(name)] *)
Definition CreateBucket (ns : Namespace) (name : bytes) : result Namespace :=
  if ns_writable ns then
    match ns_values ns !! name, ns_buckets ns !! name with
    | None, None =>
        Ok (mkNamespace true (ns_values ns) (<[name := ∅]> (ns_buckets ns)))
    | _, _ => Fail otherError
    end
  else Fail otherError.

(** [ns.Bucket(name).Get(k)]: [ns.Bucket] returns nil for a bucket that
    does not exist, and the call on it panics. *)
Definition BucketGet (ns : Namespace) (name k : bytes) : result (option bytes) :=
  match ns_buckets ns !! name with
  | Some b => Ok (b !! k)
  | None => Panic
  end.

(** [ns.Bucket(name).Put(k, v)] *)
Definition BucketPut (ns : Namespace) (name k v : bytes) : result Namespace :=
  match ns_buckets ns !! name with
  | Some b =>
      if ns_writable ns
      then Ok (mkNamespace true (ns_values ns)
                 (<[name := <[k := v]> b]> (ns_buckets ns)))
      else Fail otherError
  | None => Panic
  end.

(** [ns.Bucket(name).Delete(k)] *)
Definition BucketDelete (ns : Namespace) (name k : bytes) : result Namespace :=
  match ns_buckets ns !! name with
  | Some b =>
      if ns_writable ns
      then Ok (mkNamespace true (ns_values ns)
                 (<[name := delete k b]> (ns_buckets ns)))
      else Fail otherError
  | None => Panic
  end.

(** [namespace.Begin(writable)]: the root bucket as the new transaction
    sees it. *)
Definition Begin (ns : Namespace) (writable : bool) : Namespace :=
  mkNamespace writable (ns_values ns) (ns_buckets ns).

(** The order of the entries of a bucket: the byte order of their keys. *)
Definition entry_le (x y : bytes * bytes) : Prop := Is_true (bytes_le x.1 y.1).

#[global] Instance entry_le_dec : RelDecision entry_le :=
  fun x y => decide (Is_true (bytes_le x.1 y.1)).

(** The entries of a bucket in the order a cursor visits them. *)
Definition entries (b : gmap bytes bytes) : list (bytes * bytes) :=
  merge_sort entry_le (map_to_list b).

(** A cursor is the list of entries from its position on; the head is the
    current pair, and the empty list is a cursor that ran off the end
    (the nil key). *)
Definition Cursor := list (bytes * bytes).

Fixpoint seek_from (seek : bytes) (l : list (bytes * bytes)) : Cursor :=
  match l with
  | [] => []
  | e :: l' => if bytes_lt e.1 seek then seek_from seek l' else l
  end.

(** [b.Cursor()] followed by [c.Seek(seek)]: the cursor stands at the first
    pair whose key is not below [seek]. *)
Definition Seek (b : gmap bytes bytes) (seek : bytes) : Cursor :=
  seek_from seek (entries b).

(** [c.Next()] *)
Definition Next (c : Cursor) : Cursor := tail c.

(** [ns.Bucket(name)], for the calls that take a cursor on it. *)
Definition Bucket (ns : Namespace) (name : bytes) : result (gmap bytes bytes) :=
  match ns_buckets ns !! name with
  | Some b => Ok b
  | None => Panic
  end.

(** [ns.Cursor().First()] on the root bucket: the least key, whose value is
    nil when the key names a nested bucket; [None] is the pair of nils of
    an empty bucket. *)
Definition First (ns : Namespace) : option (bytes * option bytes) :=
  let keys := merge_sort (fun x y => Is_true (bytes_le x y))
                (elements (dom (ns_values ns) ∪ dom (ns_buckets ns))) in
  match keys with
  | [] => None
  | k :: _ => Some (k, ns_values ns !! k)
  end.

End walletdb.

(** ** Constants of [db.go] *)

Definition accountExistsMask : byte := x80.

Definition boolSize := 1.
Definition int8Size := 1.
Definition int16Size := 2.
Definition int32Size := 4.
Definition int64Size := 8.
Definition hashSize := 32.

(** [scriptType] and its values. *)
Definition scriptTypeNonexisting : byte := x00.
Definition scriptTypeUnspecified : byte := x01.
Definition scriptTypeP2PKH : byte := x02.

Definition scriptLocNotStored : Z := 0.

Definition LatestVersion : Z := 2.

(** Bucket names *)
Definition bucketBlocks : bytes := list_byte_of_string "b".
Definition bucketTxRecords : bytes := list_byte_of_string "t".
Definition bucketCredits : bytes := list_byte_of_string "c".
Definition bucketUnspent : bytes := list_byte_of_string "u".
Definition bucketDebits : bytes := list_byte_of_string "d".
Definition bucketUnmined : bytes := list_byte_of_string "m".
Definition bucketUnminedCredits : bytes := list_byte_of_string "mc".
Definition bucketUnminedInputs : bytes := list_byte_of_string "mi".
Definition bucketScripts : bytes := list_byte_of_string "sc".
Definition bucketMultisig : bytes := list_byte_of_string "ms".
Definition bucketMultisigUsp : bytes := list_byte_of_string "mu".

(** Root (namespace) bucket keys *)
Definition rootCreateDate : bytes := list_byte_of_string "date".
Definition rootVersion : bytes := list_byte_of_string "vers".
Definition rootMinedBalance : bytes := list_byte_of_string "bal".

(** ** Types declared elsewhere in the package *)

(** [Block]: hash and height ([int32]). *)
Record Block := mkBlock {
  Block_Hash : Hash;
  Block_Height : Z
}.

(** [BlockMeta]: a [Block] with its time (Unix seconds) and vote bits. *)
Record BlockMeta := mkBlockMeta {
  BlockMeta_Block : Block;
  BlockMeta_Time : Z;
  BlockMeta_VoteBits : Z
}.

(** [blockRecord], as [readRawBlockRecord] fills it; the hashes are kept as
    their bytes. *)
Record blockRecord := mkBlockRecord {
  br_Height : Z;
  br_Hash : bytes;
  br_Time : Z;
  br_VoteBits : Z;
  br_transactions : list bytes
}.

(** [indexedIncidence]: a transaction incidence and an input index. *)
Record indexedIncidence := mkIndexedIncidence {
  ii_txHash : Hash;
  ii_block : Block;
  ii_index : Z
}.

(** [wire.OutPoint] as [readCanonicalOutPoint] fills it. *)
Record OutPoint := mkOutPoint {
  op_Hash : bytes;
  op_Index : Z
}.

(** The fields of [credit] that [valueUnspentCredit] reads. *)
Record credit := mkCredit {
  cred_amount : Z;
  cred_change : bool;
  cred_opCode : byte;
  cred_isCoinbase : bool
}.

(** ** The mined balance *)

Definition fetchMinedBalance (ns : Namespace) : result Z :=
  let v := default [] (walletdb.Get ns rootMinedBalance) in
  if negb (Nat.eqb (length v) 8) then Fail (storeError ErrData)
  else Ok (int64 (byteOrder.Uint64 v)).

Definition putMinedBalance (ns : Namespace) (amt : Z) : result Namespace :=
  let v := make 8 in
  let v := byteOrder.PutUint64 v 0 (uint64 amt) in
  orFail (walletdb.Put ns rootMinedBalance v) (storeError ErrDatabase).

(** ** Canonical outpoints *)

Definition canonicalOutPoint (txHash : Hash) (index : Z) : bytes :=
  let k := make 36 in
  let k := copy k txHash in
  byteOrder.PutUint32 k 32 index.

Definition readCanonicalOutPoint (k : bytes) : result OutPoint :=
  if length k <? 36 then Fail (storeError ErrData)
  else Ok (mkOutPoint (copy (make 32) k) (byteOrder.Uint32 (slice k 32 36))).

(** ** Block records *)

Definition keyBlockRecord (height : Z) : bytes :=
  byteOrder.PutUint32 (make 4) 0 (uint32 height).

Definition valueBlockRecordEmpty (block : BlockMeta) : bytes :=
  let v := make 46 in
  let v := copy v (Block_Hash (BlockMeta_Block block)) in
  let v := byteOrder.PutUint64 v 32 (uint64 (BlockMeta_Time block)) in
  let v := byteOrder.PutUint16 v 40 (BlockMeta_VoteBits block) in
  byteOrder.PutUint32 v 42 0.

Definition valueBlockRecord (block : BlockMeta) (txHash : Hash) : bytes :=
  let v := make 78 in
  let v := copy v (Block_Hash (BlockMeta_Block block)) in
  let v := byteOrder.PutUint64 v 32 (uint64 (BlockMeta_Time block)) in
  let v := byteOrder.PutUint16 v 40 (BlockMeta_VoteBits block) in
  let v := byteOrder.PutUint32 v 42 1 in
  copy_at v 46 78 txHash.

Definition appendRawBlockRecord (v : bytes) (txHash : Hash) : result bytes :=
  if length v <? 46 then Fail (storeError ErrData)
  else
    let newv := v ++ txHash in
    let n := byteOrder.Uint32 (slice newv 42 46) in
    Ok (byteOrder.PutUint32 newv 42 (uint32 (n + 1))).

(** The loop of [removeRawBlockRecord], [n] iterations from [cursor] and
    [newCursor] on.  Slicing [newValue] beyond its capacity panics. *)
Fixpoint removeRawBlockRecord_loop (n : nat) (v : bytes) (txHash : Hash)
    (newValue : bytes) (cursor newCursor : nat) : result bytes :=
  match n with
  | O => Ok newValue
  | S n' =>
      h ← NewHash (slice v cursor (cursor + 32));
      if IsEqual h txHash
      then removeRawBlockRecord_loop n' v txHash newValue (cursor + 32) newCursor
      else if length newValue <? newCursor + 32 then Panic
      else
        removeRawBlockRecord_loop n' v txHash
          (copy_at newValue newCursor (newCursor + 32)
             (slice v cursor (cursor + 32)))
          (cursor + 32) (newCursor + 32)
  end.

Definition removeRawBlockRecord (v : bytes) (txHash : Hash) : result bytes :=
  let length_ := length v in
  if length_ <? 46 then Fail (storeError ErrData)
  else
    let newLength := length_ - 32 in
    let oldNumHashes := (length_ - 46) / 32 in
    let newValue := make newLength in
    if newLength <? 46 then Panic
    else
      let newValue := copy_at newValue 0 46 (slice v 0 46) in
      newValue ← removeRawBlockRecord_loop oldNumHashes v txHash newValue 46 46;
      let n := byteOrder.Uint32 (slice newValue 42 46) in
      Ok (byteOrder.PutUint32 newValue 42 (uint32 (n - 1))).

Definition putRawBlockRecord (ns : Namespace) (k v : bytes) : result Namespace :=
  orFail (walletdb.BucketPut ns bucketBlocks k v) (storeError ErrDatabase).

Definition putBlockRecord (ns : Namespace) (block : BlockMeta) (txHash : Hash)
    : result Namespace :=
  let k := keyBlockRecord (Block_Height (BlockMeta_Block block)) in
  let v := valueBlockRecord block txHash in
  putRawBlockRecord ns k v.

Definition fetchBlockTime (ns : Namespace) (height : Z) : result Z :=
  let k := keyBlockRecord height in
  v ← walletdb.BucketGet ns bucketBlocks k;
  let v := default [] v in
  if length v <? 46 then Fail (storeError ErrData)
  else Ok (int64 (byteOrder.Uint64 (slice v 32 40))).

Definition existsBlockRecord (ns : Namespace) (height : Z)
    : result (bytes * option bytes) :=
  let k := keyBlockRecord height in
  v ← walletdb.BucketGet ns bucketBlocks k;
  Ok (k, v).

(** The loop of [fetchChainHeight].  It has no bound of its own: [fuel]
    counts the iterations allowed, and [None] is a run that needs more. *)
Fixpoint fetchChainHeight_loop (fuel : nat) (ns : Namespace)
    (i lastValidHeight : Z) : option (result Z) :=
  match fuel with
  | O => None
  | S fuel' =>
      match existsBlockRecord ns i with
      | Ok (_, None) => Some (Ok lastValidHeight)
      | Ok (_, Some _) => fetchChainHeight_loop fuel' ns (int32 (i + 1)) i
      | Fail e => Some (Fail e)
      | Panic => Some Panic
      end
  end.

Definition fetchChainHeight (fuel : nat) (ns : Namespace) (startHeight : Z)
    : option (result Z) :=
  match fetchChainHeight_loop fuel ns startHeight 0 with
  | None => None
  | Some r =>
      Some (lastValidHeight ← r;
            if (lastValidHeight =? 0)%Z then Fail otherError
            else Ok lastValidHeight)
  end.

(** The hashes [readRawBlockRecord] copies out, [n] of them from [off]. *)
Fixpoint readRawBlockRecord_hashes (n : nat) (v : bytes) (off : nat)
    : list bytes :=
  match n with
  | O => []
  | S n' => copy (make 32) (drop off v)
            :: readRawBlockRecord_hashes n' v (off + hashSize)
  end.

Definition readRawBlockRecord (k v : bytes) : result blockRecord :=
  if length k <? 4 then Fail (storeError ErrData)
  else if length v <? 46 then Fail (storeError ErrData)
  else
    let numTransactions := Z.to_nat (byteOrder.Uint32 (slice v 42 46)) in
    let expectedLen := 46 + hashSize * numTransactions in
    if length v <? expectedLen then Fail (storeError ErrData)
    else
      Ok (mkBlockRecord (int32 (byteOrder.Uint32 k))
            (copy (make 32) v)
            (int64 (byteOrder.Uint64 (slice v 32 40)))
            (byteOrder.Uint16 (slice v 40 42))
            (readRawBlockRecord_hashes numTransactions v 46)).

Definition fetchBlockRecord (ns : Namespace) (height : Z) : result blockRecord :=
  let k := keyBlockRecord height in
  v ← walletdb.BucketGet ns bucketBlocks k;
  readRawBlockRecord k (default [] v).

(** The transaction hashes that follow the 46-byte header of a block-record
    value, as [readRawBlockRecord] copies them out. *)
Definition trailingHashes (v : bytes) : list bytes :=
  readRawBlockRecord_hashes ((length v - 46) / 32) v 46.

(** ** Transaction records *)

Definition keyTxRecord (txHash : Hash) (block : Block) : bytes :=
  let k := make 68 in
  let k := copy k txHash in
  let k := byteOrder.PutUint32 k 32 (uint32 (Block_Height block)) in
  copy_at k 36 68 (Block_Hash block).

Section TxRecords.

(** The transaction type and its wire decoding belong to other packages
    ([wire.MsgTx], [stake.DetermineTxType]); they are taken as given. *)
Variable MsgTx : Type.
Variable Deserialize : bytes -> option MsgTx.
Variable TxOut_PkScript : MsgTx -> list bytes.
Variable TxType : Type.
Variable DetermineTxType : MsgTx -> TxType.

Record TxRecord := mkTxRecord {
  rec_MsgTx : MsgTx;
  rec_Hash : bytes;
  rec_Received : Z;
  rec_TxType : TxType
}.

Definition readRawTxRecord (txHash : bytes) (v : bytes) : result TxRecord :=
  if length v <? 8 then Fail (storeError ErrData)
  else
    match Deserialize (drop 8 v) with
    | None => Fail (storeError ErrData)
    | Some tx =>
        Ok (mkTxRecord tx txHash (int64 (byteOrder.Uint64 v))
              (DetermineTxType tx))
    end.

Definition fetchRawTxRecordPkScript (k v : bytes) (index scrLoc scrLen : Z)
    : result bytes :=
  if (scrLoc =? scriptLocNotStored)%Z then
    rec ← readRawTxRecord (copy (make 32) k) v;
    let outs := TxOut_PkScript (rec_MsgTx rec) in
    if length outs <=? Z.to_nat index then Fail (storeError ErrData)
    else
      match outs !! Z.to_nat index with
      | Some pkScript => Ok pkScript
      | None => Panic
      end
  else
    let scrLocInt := Z.to_nat scrLoc + int64Size in
    let scrLenInt := Z.to_nat scrLen in
    if length v <? scrLocInt + scrLenInt then Panic
    else Ok (copy (make scrLenInt) (slice v scrLocInt (scrLocInt + scrLenInt))).

End TxRecords.

Definition readRawTxRecordBlock (k : bytes) : result (Z * bytes) :=
  if length k <? 68 then Fail (storeError ErrData)
  else Ok (int32 (byteOrder.Uint32 (slice k 32 36)), copy (make 32) (slice k 36 68)).

(** The loop of [latestTxRecord]; the tail of the cursor is [c.Next()].  A
    cursor that ran off the end gives the nil key, which does not have the
    32-byte prefix. *)
Fixpoint latestTxRecord_loop (prefix : bytes) (c : walletdb.Cursor)
    (last : option (bytes * bytes)) : option (bytes * bytes) :=
  match c with
  | [] => last
  | (ck, cv) :: next =>
      if HasPrefix ck prefix
      then latestTxRecord_loop prefix next (Some (ck, cv))
      else last
  end.

Definition latestTxRecord (ns : Namespace) (txHash : Hash)
    : result (option (bytes * bytes)) :=
  let prefix : bytes := txHash in
  b ← walletdb.Bucket ns bucketTxRecords;
  let c := walletdb.Seek b prefix in
  Ok (latestTxRecord_loop prefix c None).

(** ** Credits *)

Definition creditKeySize := 72.
Definition creditValueSize := 94.

Definition keyCredit (txHash : Hash) (index : Z) (block : Block) : bytes :=
  let k := make creditKeySize in
  let k := copy k txHash in
  let k := byteOrder.PutUint32 k 32 (uint32 (Block_Height block)) in
  let k := copy_at k 36 68 (Block_Hash block) in
  byteOrder.PutUint32 k 68 index.

Definition condenseOpCode (opCode : byte) : byte :=
  byte_shl (byte_sub opCode xb9) 2.

Definition valueUnspentCredit (cred : credit) (scrType : byte)
    (scrLoc scrLen account : Z) : bytes :=
  let v := make creditValueSize in
  let v := byteOrder.PutUint64 v 0 (uint64 (cred_amount cred)) in
  let v := set_byte v 8 (condenseOpCode (cred_opCode cred)) in
  let v := if cred_change cred
           then set_byte v 8 (byte_or (get_byte v 8) (byte_shl x01 1)) else v in
  let v := if cred_isCoinbase cred
           then set_byte v 8 (byte_or (get_byte v 8) (byte_shl x01 5)) else v in
  let v := set_byte v 81 scrType in
  let v := set_byte v 81 (byte_or (get_byte v 81) accountExistsMask) in
  let v := byteOrder.PutUint32 v 82 scrLoc in
  let v := byteOrder.PutUint32 v 86 scrLen in
  byteOrder.PutUint32 v 90 account.

Definition putRawCredit (ns : Namespace) (k v : bytes) : result Namespace :=
  orFail (walletdb.BucketPut ns bucketCredits k v) (storeError ErrDatabase).

Definition fetchRawCreditAmount (v : bytes) : result Z :=
  if length v <? 9 then Fail (storeError ErrData)
  else Ok (int64 (byteOrder.Uint64 v)).

Definition fetchRawCreditAmountSpent (v : bytes) : result (Z * bool) :=
  if length v <? 9 then Fail (storeError ErrData)
  else Ok (int64 (byteOrder.Uint64 v),
           negb (bool_decide (byte_and (get_byte v 8) (byte_shl x01 0) = x00))).

Definition fetchRawCreditAmountChange (v : bytes) : result (Z * bool) :=
  if length v <? 9 then Fail (storeError ErrData)
  else Ok (int64 (byteOrder.Uint64 v),
           negb (bool_decide (byte_and (get_byte v 8) (byte_shl x01 1) = x00))).

Definition fetchRawCreditUnspentValue (k : bytes) : result bytes :=
  if length k <? 72 then Fail (storeError ErrData)
  else Ok (slice k 32 68).

(** The accessors below index the value without a check and panic on a
    value that is too short. *)
Definition fetchRawCreditTagOpCode (v : bytes) : result byte :=
  if length v <? 9 then Panic
  else Ok (byte_add (byte_and (byte_shr (get_byte v 8) 2) x07) xb9).

Definition fetchRawCreditIsCoinbase (v : bytes) : result bool :=
  if length v <? 9 then Panic
  else Ok (negb (bool_decide (byte_and (get_byte v 8) (byte_shl x01 5) = x00))).

Definition fetchRawCreditScriptType (v : bytes) : byte :=
  if length v <? creditValueSize then scriptTypeNonexisting
  else byte_andnot (get_byte v 81) accountExistsMask.

Definition fetchRawCreditScriptOffset (v : bytes) : Z :=
  if length v <? creditValueSize then 0%Z
  else byteOrder.Uint32 (slice v 82 86).

Definition fetchRawCreditScriptLength (v : bytes) : Z :=
  if length v <? creditValueSize then 0%Z
  else byteOrder.Uint32 (slice v 86 90).

Definition fetchRawCreditAccount (v : bytes) : result Z :=
  if length v <? creditValueSize then Fail (storeError ErrData)
  else if negb (bool_decide
                  (byte_and (get_byte v 81) accountExistsMask = accountExistsMask))
  then Fail (storeError ErrValueNoExists)
  else Ok (byteOrder.Uint32 (slice v 90 94)).

(** The value [spendCredit] writes back, from the value [v] it read (nil
    for a key without a record). *)
Definition spendCredit_value (v : option bytes) (spender : indexedIncidence)
    : bytes :=
  let newv := make creditValueSize in
  let newv := copy newv (default [] v) in
  let v := newv in
  let v := set_byte v 8 (byte_or (get_byte v 8) (byte_shl x01 0)) in
  let v := copy_at v 9 41 (ii_txHash spender) in
  let v := byteOrder.PutUint32 v 41
             (uint32 (Block_Height (ii_block spender))) in
  let v := copy_at v 45 77 (Block_Hash (ii_block spender)) in
  byteOrder.PutUint32 v 77 (ii_index spender).

(** [spendCredit] returns the amount together with the error of the put;
    the pair of amount and new namespace is the result when the put
    succeeds. *)
Definition spendCredit (ns : Namespace) (k : bytes) (spender : indexedIncidence)
    : result (Z * Namespace) :=
  v ← walletdb.BucketGet ns bucketCredits k;
  let v := spendCredit_value v spender in
  ns' ← putRawCredit ns k v;
  Ok (int64 (byteOrder.Uint64 (slice v 0 8)), ns').

(** The value [unspendRawCredit] writes back for the value [v] it read. *)
Definition unspendRawCredit_value (v : bytes) : bytes :=
  let newv := make creditValueSize in
  let newv := copy newv v in
  set_byte newv 8 (byte_andnot (get_byte newv 8) (byte_shl x01 0)).

Definition unspendRawCredit (ns : Namespace) (k : bytes)
    : result (Z * Namespace) :=
  v ← walletdb.BucketGet ns bucketCredits k;
  match v with
  | None => Ok (0%Z, ns)
  | Some v =>
      let newv := unspendRawCredit_value v in
      ns' ← orFail (walletdb.BucketPut ns bucketCredits k newv)
              (storeError ErrDatabase);
      if length v <? 8 then Panic
      else Ok (int64 (byteOrder.Uint64 (slice v 0 8)), ns')
  end.

Definition existsRawCredit (ns : Namespace) (k : bytes) : result (option bytes) :=
  walletdb.BucketGet ns bucketCredits k.

Definition deleteRawCredit (ns : Namespace) (k : bytes) : result Namespace :=
  orFail (walletdb.BucketDelete ns bucketCredits k) (storeError ErrDatabase).

(** ** The unspent index *)

Definition readUnspentBlock (v : bytes) : result (Z * bytes) :=
  if length v <? 36 then Fail (storeError ErrData)
  else Ok (int32 (byteOrder.Uint32 v), copy (make 32) (slice v 4 36)).

Definition existsRawUnspent (ns : Namespace) (k : bytes)
    : result (option bytes) :=
  if length k <? 36 then Ok None
  else
    v ← walletdb.BucketGet ns bucketUnspent k;
    let v := default [] v in
    if length v <? 36 then Ok None
    else
      let credKey := make 72 in
      let credKey := copy credKey (slice k 0 32) in
      let credKey := copy_at credKey 32 68 v in
      Ok (Some (copy_at credKey 68 72 (slice k 32 36))).

(** ** Debits and unmined records *)

Definition keyDebit (txHash : Hash) (index : Z) (block : Block) : bytes :=
  let k := make 72 in
  let k := copy k txHash in
  let k := byteOrder.PutUint32 k 32 (uint32 (Block_Height block)) in
  let k := copy_at k 36 68 (Block_Hash block) in
  byteOrder.PutUint32 k 68 index.

Definition readRawUnminedHash (k : bytes) : result bytes :=
  if length k <? 32 then Fail (storeError ErrData)
  else Ok (copy (make 32) k).

Definition unconfCreditKeySize := 36.
Definition unconfValueSizeLegacy := 9.
Definition unconfValueSize := 22.

Definition fetchRawUnminedCreditIndex (k : bytes) : result Z :=
  if length k <? unconfCreditKeySize then Fail (storeError ErrData)
  else Ok (byteOrder.Uint32 (slice k 32 36)).

Definition fetchRawUnminedCreditAmount (v : bytes) : result Z :=
  if length v <? unconfValueSizeLegacy then Fail (storeError ErrData)
  else Ok (int64 (byteOrder.Uint64 v)).

Definition fetchRawUnminedCreditAmountChange (v : bytes) : result (Z * bool) :=
  if length v <? unconfValueSizeLegacy then Fail (storeError ErrData)
  else Ok (int64 (byteOrder.Uint64 v),
           negb (bool_decide (byte_and (get_byte v 8) (byte_shl x01 1) = x00))).

Definition fetchRawUnminedCreditScriptOffset (v : bytes) : Z :=
  if length v <? unconfValueSize then 0%Z
  else byteOrder.Uint32 (slice v 10 14).

Definition fetchRawUnminedCreditScriptLength (v : bytes) : Z :=
  if length v <? unconfValueSize then 0%Z
  else byteOrder.Uint32 (slice v 14 18).

Definition fetchRawUnminedCreditAccount (v : bytes) : result Z :=
  if length v <? unconfValueSize then Fail (storeError ErrData)
  else if negb (bool_decide
                  (byte_and (get_byte v 9) accountExistsMask = accountExistsMask))
  then Fail (storeError ErrValueNoExists)
  else Ok (byteOrder.Uint32 (slice v 18 22)).

(** ** Multisig outputs *)

(** [dcrutil.TxTreeRegular] and [dcrutil.TxTreeStake] ([int8]). *)
Definition TxTreeRegular : Z := 0.
Definition TxTreeStake : Z := 1.

Record MultisigOut := mkMultisigOut {
  mso_OutPoint : OutPoint;
  mso_OutPointTree : Z;
  mso_ScriptHash : bytes;
  mso_M : byte;
  mso_N : byte;
  mso_Spent : bool;
  mso_Tree : Z;
  mso_BlockHash : bytes;
  mso_BlockHeight : Z;
  mso_Amount : Z;
  mso_SpentBy : bytes;
  mso_SpentByIndex : Z;
  mso_TxHash : bytes
}.

Definition keyMultisigOut (hash : Hash) (index : Z) : bytes :=
  canonicalOutPoint hash index.

Definition valueMultisigOut (sh : bytes) (m n : byte) (spent : bool) (tree : Z)
    (blockHash : Hash) (blockHeight : Z) (amount : Z) (spentBy : Hash)
    (sbi : Z) (txHash : Hash) : bytes :=
  let v := make 135 in
  let v := copy_at v 0 20 (take 20 sh) in
  let v := set_byte v 20 m in
  let v := set_byte v 21 n in
  let v := set_byte v 22 x00 in
  let v := if spent
           then set_byte v 22 (byte_or (get_byte v 22) (byte_shl x01 0)) else v in
  let v := if (tree =? TxTreeStake)%Z
           then set_byte v 22 (byte_or (get_byte v 22) (byte_shl x01 1)) else v in
  let v := copy_at v 23 55 blockHash in
  let v := byteOrder.PutUint32 v 55 blockHeight in
  let v := byteOrder.PutUint64 v 59 (uint64 amount) in
  let v := copy_at v 67 99 spentBy in
  let v := byteOrder.PutUint32 v 99 sbi in
  copy_at v 103 135 txHash.

Definition fetchMultisigOut (k v : bytes) : result MultisigOut :=
  if negb (Nat.eqb (length k) 36) then Fail (storeError ErrDatabase)
  else if negb (Nat.eqb (length v) 135) then Fail (storeError ErrDatabase)
  else
    op ← readCanonicalOutPoint k;
    let isStakeTree :=
      negb (bool_decide (byte_and (get_byte v 22) (byte_shl x01 1) = x00)) in
    Ok (mkMultisigOut op TxTreeRegular
          (copy (make 20) (slice v 0 20))
          (get_byte v 20)
          (get_byte v 21)
          (negb (bool_decide (byte_and (get_byte v 22) (byte_shl x01 0) = x00)))
          (if isStakeTree then 1%Z else 0%Z)
          (copy (make 32) (slice v 23 55))
          (byteOrder.Uint32 (slice v 55 59))
          (int64 (byteOrder.Uint64 (slice v 59 67)))
          (copy (make 32) (slice v 67 99))
          (byteOrder.Uint32 (slice v 99 103))
          (copy (make 32) (slice v 103 135))).

(** The field accessors and setters index the value without a check; they
    panic on a value too short for the indices they use. *)
Definition fetchMultisigOutSpent (v : bytes) : result bool :=
  if length v <? 23 then Panic
  else Ok (negb (bool_decide (byte_and (get_byte v 22) (byte_shl x01 0) = x00))).

Definition fetchMultisigOutTree (v : bytes) : result Z :=
  if length v <? 23 then Panic
  else
    let isStakeTree :=
      negb (bool_decide (byte_and (get_byte v 22) (byte_shl x01 1) = x00)) in
    Ok (if isStakeTree then TxTreeStake else TxTreeRegular).

Definition fetchMultisigOutSpentVerbose (v : bytes) : result (bool * bytes * Z) :=
  if length v <? 103 then Panic
  else Ok (negb (bool_decide (byte_and (get_byte v 22) (byte_shl x01 0) = x00)),
           copy (make 32) (slice v 67 99),
           byteOrder.Uint32 (slice v 99 103)).

(** The setters write into the caller's slice; the new contents of the slice
    are the result. *)
Definition setMultisigOutSpent (v : bytes) (spendHash : Hash) (spendIndex : Z)
    : result bytes :=
  if length v <? 103 then Panic
  else
    let spentByte := x00 in
    let spentByte := byte_or spentByte (byte_shl x01 0) in
    let v := set_byte v 22 spentByte in
    let v := copy_at v 67 99 spendHash in
    Ok (byteOrder.PutUint32 v 99 spendIndex).

Definition setMultisigOutUnSpent (v : bytes) : result bytes :=
  if length v <? 103 then Panic
  else
    let empty := zeroHash in
    let spentByte := x00 in
    let v := set_byte v 22 spentByte in
    let v := copy_at v 67 98 empty in
    Ok (byteOrder.PutUint32 v 99 4294967295).

Definition setMultisigOutMined (v : bytes) (blockHash : Hash) (blockHeight : Z)
    : result bytes :=
  if length v <? 59 then Panic
  else
    let v := copy_at v 23 55 blockHash in
    Ok (byteOrder.PutUint32 v 55 blockHeight).

Definition setMultisigOutUnmined (v : bytes) : result bytes :=
  if length v <? 59 then Panic
  else
    let v := copy_at v 23 55 zeroHash in
    Ok (byteOrder.PutUint32 v 55 0).

(** ** Opening and creating a store *)

(** [scopedUpdate]: the body runs on the root bucket of a writable
    transaction; its error rolls the transaction back, and the namespace is
    then as it was.  [Ok] carries the committed namespace.  In the engine
    modelled here [Begin], [Commit] and [Rollback] do not fail. *)
Definition scopedUpdate (ns : Namespace) (f : Namespace -> result Namespace)
    : result Namespace :=
  let tx := walletdb.Begin ns true in
  match f tx with
  | Ok tx' => Ok (mkNamespace (ns_writable ns) (ns_values tx') (ns_buckets tx'))
  | Fail e => Fail e
  | Panic => Panic
  end.

(** [scopedView]: the body runs on a read-only transaction, which is rolled
    back at the end. *)
Definition scopedView {A} (ns : Namespace) (f : Namespace -> result A)
    : result A :=
  let tx := walletdb.Begin ns false in
  f tx.

Definition openStore (namespace : Namespace) : result unit :=
  let r := scopedView namespace (fun ns =>
    let v := default [] (walletdb.Get ns rootVersion) in
    if negb (Nat.eqb (length v) 4) then Ok 0%Z
    else Ok (byteOrder.Uint32 v)) in
  match r with
  | Fail (storeError c) => Fail (storeError c)
  | Fail otherError => Fail (storeError ErrDatabase)
  | Panic => Panic
  | Ok version =>
      if (version =? 0)%Z then Fail (storeError ErrNoExists)
      else if (LatestVersion <? version)%Z then Fail (storeError ErrUnknownVersion)
      else Ok tt
  end.

(** [createStore]; [now] is [time.Now().Unix()]. *)
Definition createStore (namespace : Namespace) (now : Z) : result Namespace :=
  let r := scopedUpdate namespace (fun ns =>
    match walletdb.First ns with
    | Some _ => Fail (storeError ErrAlreadyExists)
    | None =>
        let v := make 4 in
        let v := byteOrder.PutUint32 v 0 LatestVersion in
        ns ← orFail (walletdb.Put ns rootVersion v) (storeError ErrDatabase);
        let v := make 8 in
        let v := byteOrder.PutUint64 v 0 (uint64 now) in
        ns ← orFail (walletdb.Put ns rootCreateDate v) (storeError ErrDatabase);
        let v := make 8 in
        ns ← orFail (walletdb.Put ns rootMinedBalance v) (storeError ErrDatabase);
        ns ← orFail (walletdb.CreateBucket ns bucketBlocks) (storeError ErrDatabase);
        ns ← orFail (walletdb.CreateBucket ns bucketTxRecords) (storeError ErrDatabase);
        ns ← orFail (walletdb.CreateBucket ns bucketCredits) (storeError ErrDatabase);
        ns ← orFail (walletdb.CreateBucket ns bucketDebits) (storeError ErrDatabase);
        ns ← orFail (walletdb.CreateBucket ns bucketUnspent) (storeError ErrDatabase);
        ns ← orFail (walletdb.CreateBucket ns bucketUnmined) (storeError ErrDatabase);
        ns ← orFail (walletdb.CreateBucket ns bucketUnminedCredits)
               (storeError ErrDatabase);
        ns ← orFail (walletdb.CreateBucket ns bucketUnminedInputs)
               (storeError ErrDatabase);
        ns ← orFail (walletdb.CreateBucket ns bucketScripts) (storeError ErrDatabase);
        ns ← orFail (walletdb.CreateBucket ns bucketMultisig) (storeError ErrDatabase);
        ns ← orFail (walletdb.CreateBucket ns bucketMultisigUsp)
               (storeError ErrDatabase);
        Ok ns
    end) in
  match r with
  | Fail (storeError c) => Fail (storeError c)
  | Fail otherError => Fail (storeError ErrDatabase)
  | Panic => Panic
  | Ok ns => Ok ns
  end.

(** ** Iterator elements *)

Record CreditRecord := mkCreditRecord {
  cr_Index : Z;
  cr_Amount : Z;
  cr_Spent : bool;
  cr_Change : bool;
  cr_OpCode : byte;
  cr_IsCoinbase : bool
}.

(** [readElem] of the credit iterator, on the cursor's current pair. *)
Definition creditIterator_readElem (ck cv : bytes) : result CreditRecord :=
  if length ck <? 72 then Fail (storeError ErrData)
  else if length cv <? 9 then Fail (storeError ErrData)
  else
    opCode ← fetchRawCreditTagOpCode cv;
    isCoinbase ← fetchRawCreditIsCoinbase cv;
    Ok (mkCreditRecord
          (byteOrder.Uint32 (slice ck 68 72))
          (int64 (byteOrder.Uint64 cv))
          (negb (bool_decide (byte_and (get_byte cv 8) (byte_shl x01 0) = x00)))
          (negb (bool_decide (byte_and (get_byte cv 8) (byte_shl x01 1) = x00)))
          opCode isCoinbase).

(** [readElem] of the debit iterator: the index and the amount. *)
Definition debitIterator_readElem (ck cv : bytes) : result (Z * Z) :=
  if length ck <? 72 then Fail (storeError ErrData)
  else if length cv <? 80 then Fail (storeError ErrData)
  else Ok (byteOrder.Uint32 (slice ck 68 72), int64 (byteOrder.Uint64 cv)).

(** ** The credit lifecycle and the mined balance *)

(** The Spent flag of a credit value, as [fetchRawCreditAmountSpent] and the
    credit iterator test it. *)
Definition creditSpent (v : bytes) : bool :=
  negb (bool_decide (byte_and (get_byte v 8) (byte_shl x01 0) = x00)).

(** The amount field of a credit value, read as [byteOrder.Uint64] does. *)
Definition creditAmount (v : bytes) : Z := byteOrder.Uint64 v.




(** Modelled from the spec: the callers that keep [bal] in step with the
    credits bucket (the insertion, spending, unspending and removal of mined
    credits) are in a file of the package that is not part of the source at
    hand.  The spec gives their effect on the balance: inserting a new
    unspent credit adds its amount; marking a credit Spent by a mined debit
    subtracts the amount [spendCredit] returns; unspending adds the amount
    [unspendRawCredit] returns; deleting a credit subtracts its amount if
    it was unspent. *)
Inductive mutation :=
| InsertUnspent (k : bytes) (cred : credit) (scrType : byte)
    (scrLoc scrLen account : Z)
| SpendMined (k : bytes) (spender : indexedIncidence)
| Unspend (k : bytes)
| DeleteCredit (k : bytes).

(** Modelled from the spec: one mutation inside a write transaction. *)
Definition applyMutation (ns : Namespace) (m : mutation) : result Namespace :=
  match m with
  | InsertUnspent k cred scrType scrLoc scrLen account =>
      bal ← fetchMinedBalance ns;
      ns ← putRawCredit ns k
             (valueUnspentCredit cred scrType scrLoc scrLen account);
      putMinedBalance ns (int64 (bal + int64 (cred_amount cred)))
  | SpendMined k spender =>
      bal ← fetchMinedBalance ns;
      '(amt, ns) ← spendCredit ns k spender;
      putMinedBalance ns (int64 (bal - amt))
  | Unspend k =>
      bal ← fetchMinedBalance ns;
      '(amt, ns) ← unspendRawCredit ns k;
      putMinedBalance ns (int64 (bal + amt))
  | DeleteCredit k =>
      bal ← fetchMinedBalance ns;
      v ← existsRawCredit ns k;
      match v with
      | None => Ok ns
      | Some v =>
          '(amt, spent) ← fetchRawCreditAmountSpent v;
          ns ← deleteRawCredit ns k;
          if (spent : bool) then Ok ns
          else putMinedBalance ns (int64 (bal - amt))
      end
  end.




(** ** The decoders and their minimum lengths *)

(** The readers of [db.go] that look at the length of a key or a value:
    those that return an error, and the readers of the script locator,
    which return a value only. *)
Inductive decoder :=
| dec_fetchMinedBalance
| dec_readCanonicalOutPoint
| dec_appendRawBlockRecord
| dec_removeRawBlockRecord
| dec_fetchBlockTime
| dec_readRawBlockRecord
| dec_readRawTxRecord
| dec_readRawTxRecordBlock
| dec_fetchRawCreditAmount
| dec_fetchRawCreditAmountSpent
| dec_fetchRawCreditAmountChange
| dec_fetchRawCreditUnspentValue
| dec_fetchRawCreditAccount
| dec_creditIterator_readElem
| dec_readUnspentBlock
| dec_debitIterator_readElem
| dec_readRawUnminedHash
| dec_fetchRawUnminedCreditIndex
| dec_fetchRawUnminedCreditAmount
| dec_fetchRawUnminedCreditAmountChange
| dec_fetchRawUnminedCreditAccount
| dec_fetchMultisigOut
| dec_fetchRawCreditScriptType
| dec_fetchRawCreditScriptOffset
| dec_fetchRawCreditScriptLength
| dec_fetchRawUnminedCreditScriptOffset
| dec_fetchRawUnminedCreditScriptLength.

(** The least length of the key and of the value a decoder reads in full;
    zero for an argument it does not take. *)
Definition minKeyLength (d : decoder) : nat :=
  match d with
  | dec_readCanonicalOutPoint => 36
  | dec_readRawBlockRecord => 4
  | dec_readRawTxRecordBlock => 68
  | dec_fetchRawCreditUnspentValue => 72
  | dec_creditIterator_readElem => 72
  | dec_debitIterator_readElem => 72
  | dec_readRawUnminedHash => 32
  | dec_fetchRawUnminedCreditIndex => 36
  | dec_fetchMultisigOut => 36
  | _ => 0
  end.

Definition minValueLength (d : decoder) : nat :=
  match d with
  | dec_fetchMinedBalance => 8
  | dec_appendRawBlockRecord | dec_removeRawBlockRecord => 46
  | dec_fetchBlockTime | dec_readRawBlockRecord => 46
  | dec_readRawTxRecord => 8
  | dec_fetchRawCreditAmount | dec_fetchRawCreditAmountSpent
  | dec_fetchRawCreditAmountChange => 9
  | dec_fetchRawCreditAccount => 94
  | dec_creditIterator_readElem => 9
  | dec_readUnspentBlock => 36
  | dec_debitIterator_readElem => 80
  | dec_fetchRawUnminedCreditAmount | dec_fetchRawUnminedCreditAmountChange => 9
  | dec_fetchRawUnminedCreditAccount => 22
  | dec_fetchMultisigOut => 135
  | dec_fetchRawCreditScriptType | dec_fetchRawCreditScriptOffset
  | dec_fetchRawCreditScriptLength => 94
  | dec_fetchRawUnminedCreditScriptOffset
  | dec_fetchRawUnminedCreditScriptLength => 22
  | _ => 0
  end.

(** What a call did: returned without an error, returned an error, or
    panicked. *)
Inductive outcome :=
| Returned
| Failed (e : error)
| Panicked.

Definition outcome_of {A} (r : result A) : outcome :=
  match r with
  | Ok _ => Returned
  | Fail e => Failed e
  | Panic => Panicked
  end.

Section Decoders.

Variable MsgTx : Type.
Variable Deserialize : bytes -> option MsgTx.
Variable TxType : Type.
Variable DetermineTxType : MsgTx -> TxType.

(** The decoder [d] applied to the key [k] and the value [v].  A decoder
    that reads its value from the store is run on a namespace that holds
    [v] under the key it reads: [bal] for [fetchMinedBalance], the record
    of height 0 for [fetchBlockTime]. *)
Definition decode (d : decoder) (k v : bytes) : outcome :=
  match d with
  | dec_fetchMinedBalance =>
      outcome_of (fetchMinedBalance
                    (mkNamespace false {[ rootMinedBalance := v ]} ∅))
  | dec_readCanonicalOutPoint => outcome_of (readCanonicalOutPoint k)
  | dec_appendRawBlockRecord => outcome_of (appendRawBlockRecord v zeroHash)
  | dec_removeRawBlockRecord => outcome_of (removeRawBlockRecord v zeroHash)
  | dec_fetchBlockTime =>
      outcome_of (fetchBlockTime
                    (mkNamespace false ∅
                       {[ bucketBlocks := {[ keyBlockRecord 0 := v ]} ]}) 0)
  | dec_readRawBlockRecord => outcome_of (readRawBlockRecord k v)
  | dec_readRawTxRecord =>
      outcome_of (readRawTxRecord MsgTx Deserialize TxType DetermineTxType
                    (copy (make 32) k) v)
  | dec_readRawTxRecordBlock => outcome_of (readRawTxRecordBlock k)
  | dec_fetchRawCreditAmount => outcome_of (fetchRawCreditAmount v)
  | dec_fetchRawCreditAmountSpent => outcome_of (fetchRawCreditAmountSpent v)
  | dec_fetchRawCreditAmountChange => outcome_of (fetchRawCreditAmountChange v)
  | dec_fetchRawCreditUnspentValue => outcome_of (fetchRawCreditUnspentValue k)
  | dec_fetchRawCreditAccount => outcome_of (fetchRawCreditAccount v)
  | dec_creditIterator_readElem => outcome_of (creditIterator_readElem k v)
  | dec_readUnspentBlock => outcome_of (readUnspentBlock v)
  | dec_debitIterator_readElem => outcome_of (debitIterator_readElem k v)
  | dec_readRawUnminedHash => outcome_of (readRawUnminedHash k)
  | dec_fetchRawUnminedCreditIndex => outcome_of (fetchRawUnminedCreditIndex k)
  | dec_fetchRawUnminedCreditAmount => outcome_of (fetchRawUnminedCreditAmount v)
  | dec_fetchRawUnminedCreditAmountChange =>
      outcome_of (fetchRawUnminedCreditAmountChange v)
  | dec_fetchRawUnminedCreditAccount =>
      outcome_of (fetchRawUnminedCreditAccount v)
  | dec_fetchMultisigOut => outcome_of (fetchMultisigOut k v)
  | dec_fetchRawCreditScriptType => outcome_of (Ok (fetchRawCreditScriptType v))
  | dec_fetchRawCreditScriptOffset =>
      outcome_of (Ok (fetchRawCreditScriptOffset v))
  | dec_fetchRawCreditScriptLength =>
      outcome_of (Ok (fetchRawCreditScriptLength v))
  | dec_fetchRawUnminedCreditScriptOffset =>
      outcome_of (Ok (fetchRawUnminedCreditScriptOffset v))
  | dec_fetchRawUnminedCreditScriptLength =>
      outcome_of (Ok (fetchRawUnminedCreditScriptLength v))
  end.

End Decoders.

(** The readers of the script locator of a credit value. *)
Definition readsScriptLocator (d : decoder) : bool :=
  match d with
  | dec_fetchRawCreditScriptType | dec_fetchRawCreditScriptOffset
  | dec_fetchRawCreditScriptLength
  | dec_fetchRawUnminedCreditScriptOffset
  | dec_fetchRawUnminedCreditScriptLength => true
  | _ => false
  end.

(** What a reader of the script locator returns for the value [v]; zero for
    the other decoders. *)
Definition scriptLocatorValue (d : decoder) (v : bytes) : Z :=
  match d with
  | dec_fetchRawCreditScriptType => byte_to_Z (fetchRawCreditScriptType v)
  | dec_fetchRawCreditScriptOffset => fetchRawCreditScriptOffset v
  | dec_fetchRawCreditScriptLength => fetchRawCreditScriptLength v
  | dec_fetchRawUnminedCreditScriptOffset => fetchRawUnminedCreditScriptOffset v
  | dec_fetchRawUnminedCreditScriptLength => fetchRawUnminedCreditScriptLength v
  | _ => 0%Z
  end.

(** ** Further readers and writers of [db.go] *)

(** The unchecked extractors of a credit key; each panics on a key too
    short for the slice it takes, a slice being taken to have the capacity
    of its length.  Hashes are returned as their bytes. *)
Definition extractRawCreditTxHash (k : bytes) : result bytes :=
  if length k <? 32 then Panic else Ok (slice k 0 32).

Definition extractRawCreditTxRecordKey (k : bytes) : result bytes :=
  if length k <? 68 then Panic else Ok (slice k 0 68).

Definition extractRawCreditBlock (k : bytes) : result (bytes * Z) :=
  if length k <? 68 then Panic
  else Ok (slice k 36 68, int32 (byteOrder.Uint32 (slice k 32 36))).

Definition extractRawCreditHeight (k : bytes) : result Z :=
  if length k <? 36 then Panic
  else Ok (int32 (byteOrder.Uint32 (slice k 32 36))).

Definition extractRawCreditIndex (k : bytes) : result Z :=
  if length k <? 72 then Panic
  else Ok (byteOrder.Uint32 (slice k 68 72)).

Definition existsCredit (ns : Namespace) (txHash : Hash) (index : Z)
    (block : Block) : result (bytes * option bytes) :=
  let k := keyCredit txHash index block in
  v ← walletdb.BucketGet ns bucketCredits k;
  Ok (k, v).

Definition putUnspentCredit (ns : Namespace) (outPointHash : Hash)
    (outPointIndex : Z) (block : Block) (cred : credit) (scrType : byte)
    (scrLoc scrLen account : Z) : result Namespace :=
  let k := keyCredit outPointHash outPointIndex block in
  let v := valueUnspentCredit cred scrType scrLoc scrLen account in
  putRawCredit ns k v.

(** The unspent index *)
Definition valueUnspent (block : Block) : bytes :=
  let v := make 36 in
  let v := byteOrder.PutUint32 v 0 (uint32 (Block_Height block)) in
  copy_at v 4 36 (Block_Hash block).

Definition putUnspent (ns : Namespace) (outPointHash : Hash)
    (outPointIndex : Z) (block : Block) : result Namespace :=
  let k := canonicalOutPoint outPointHash outPointIndex in
  let v := valueUnspent block in
  orFail (walletdb.BucketPut ns bucketUnspent k v) (storeError ErrDatabase).

Definition existsUnspent (ns : Namespace) (outPointHash : Hash)
    (outPointIndex : Z) : result (bytes * option bytes) :=
  let k := canonicalOutPoint outPointHash outPointIndex in
  credKey ← existsRawUnspent ns k;
  Ok (k, credKey).

(** Debits *)
Definition putDebit (ns : Namespace) (txHash : Hash) (index : Z) (amount : Z)
    (block : Block) (credKey : bytes) : result Namespace :=
  let k := keyDebit txHash index block in
  let v := make 80 in
  let v := byteOrder.PutUint64 v 0 (uint64 amount) in
  let v := copy_at v 8 80 credKey in
  orFail (walletdb.BucketPut ns bucketDebits k v) (storeError ErrDatabase).

Definition extractRawDebitCreditKey (v : bytes) : result bytes :=
  if length v <? 80 then Panic else Ok (slice v 8 80).

(** [existsDebit]: [None] is the triple of nils of a debit that does not
    exist. *)
Definition existsDebit (ns : Namespace) (txHash : Hash) (index : Z)
    (block : Block) : result (option (bytes * bytes)) :=
  let k := keyDebit txHash index block in
  v ← walletdb.BucketGet ns bucketDebits k;
  match v with
  | None => Ok None
  | Some v =>
      if length v <? 80 then Fail (storeError ErrData)
      else Ok (Some (k, slice v 8 80))
  end.

(** Unmined credits *)
Definition valueUnminedCredit (amount : Z) (change : bool) (opCode : byte)
    (IsCoinbase : bool) (scrType : byte) (scrLoc scrLen account : Z) : bytes :=
  let v := make unconfValueSize in
  let v := byteOrder.PutUint64 v 0 (uint64 amount) in
  let v := set_byte v 8 (condenseOpCode opCode) in
  let v := if change
           then set_byte v 8 (byte_or (get_byte v 8) (byte_shl x01 1)) else v in
  let v := if IsCoinbase
           then set_byte v 8 (byte_or (get_byte v 8) (byte_shl x01 5)) else v in
  let v := set_byte v 9 scrType in
  let v := set_byte v 9 (byte_or (get_byte v 9) accountExistsMask) in
  let v := byteOrder.PutUint32 v 10 scrLoc in
  let v := byteOrder.PutUint32 v 14 scrLen in
  byteOrder.PutUint32 v 18 account.

Definition fetchRawUnminedCreditTagOpcode (v : bytes) : result byte :=
  if length v <? 9 then Panic
  else Ok (byte_add (byte_and (byte_shr (get_byte v 8) 2) x07) xb9).

Definition fetchRawUnminedCreditTagIsCoinbase (v : bytes) : result bool :=
  if length v <? 9 then Panic
  else Ok (negb (bool_decide (byte_and (get_byte v 8) (byte_shl x01 5) = x00))).

Definition fetchRawUnminedCreditScriptType (v : bytes) : byte :=
  if length v <? unconfValueSize then scriptTypeNonexisting
  else byte_andnot (get_byte v 9) accountExistsMask.

(** Multisig outputs: the remaining field readers *)
Definition fetchMultisigOutScrHash (v : bytes) : result bytes :=
  if length v <? 20 then Panic else Ok (copy (make 20) (slice v 0 20)).

Definition fetchMultisigOutMN (v : bytes) : result (byte * byte) :=
  if length v <? 22 then Panic else Ok (get_byte v 20, get_byte v 21).

Definition fetchMultisigOutMined (v : bytes) : result (bytes * Z) :=
  if length v <? 59 then Panic
  else Ok (copy (make 32) (slice v 23 55), byteOrder.Uint32 (slice v 55 59)).

Definition fetchMultisigOutAmount (v : bytes) : result Z :=
  if length v <? 67 then Panic
  else Ok (int64 (byteOrder.Uint64 (slice v 59 67))).

(** The flags byte [valueUnspentCredit] and [valueUnminedCredit] build from
    the stake opcode and the change and coinbase marks. *)
Definition creditFlags (opCode : byte) (change isCoinbase : bool) : byte :=
  let f := condenseOpCode opCode in
  let f := if change then byte_or f (byte_shl x01 1) else f in
  if isCoinbase then byte_or f (byte_shl x01 5) else f.

(** The flags byte of a multisig value: bit 0 is Spent, bit 1 is the stake
    tree. *)
Definition multisigFlags (spent : bool) (tree : Z) : byte :=
  let f := x00 in
  let f := if spent then byte_or f (byte_shl x01 0) else f in
  if (tree =? TxTreeStake)%Z then byte_or f (byte_shl x01 1) else f.

(** Multisig outputs in their bucket.  [putMultisigOut] takes the fields of
    the [MultisigOut] it stores. *)
Definition putMultisigOut (ns : Namespace) (outPointHash : Hash)
    (outPointIndex : Z) (sh : bytes) (m n : byte) (spent : bool) (tree : Z)
    (blockHash : Hash) (blockHeight : Z) (amount : Z) (spentBy : Hash)
    (sbi : Z) (txHash : Hash) : result Namespace :=
  let msok := keyMultisigOut outPointHash outPointIndex in
  let msov := valueMultisigOut sh m n spent tree blockHash blockHeight amount
                spentBy sbi txHash in
  orFail (walletdb.BucketPut ns bucketMultisig msok msov)
    (storeError ErrDatabase).

(** [existsMultisigOut] returns a copy of the stored value in a slice of 135
    bytes, or nil. *)
Definition existsMultisigOut (ns : Namespace) (k : bytes)
    : result (option bytes) :=
  vOrig ← walletdb.BucketGet ns bucketMultisig k;
  match vOrig with
  | None => Ok None
  | Some vOrig => Ok (Some (copy (make 135) vOrig))
  end.

(** ** The credit and debit iterators *)

(** [creditIterator] and [debitIterator] are the same struct up to the type
    of [elem], and their [next] methods are the same code up to the
    [readElem] they call.  A cursor is the bucket it walks and its position;
    [it_c] is [None] once [next] has set [c] to nil.  [it_ck] is [None] for
    the nil key; a nil value reads as the empty slice. *)
Record prefixIterator (Elem : Type) := mkPrefixIterator {
  it_bucket : gmap bytes bytes;
  it_c : option walletdb.Cursor;
  it_prefix : bytes;
  it_ck : option bytes;
  it_cv : bytes;
  it_elem : Elem;
  it_err : option error
}.
Arguments mkPrefixIterator {Elem}.
Arguments it_bucket {Elem}.
Arguments it_c {Elem}.
Arguments it_prefix {Elem}.
Arguments it_ck {Elem}.
Arguments it_cv {Elem}.
Arguments it_elem {Elem}.
Arguments it_err {Elem}.

(** [next]: the first call seeks to the prefix, a later one moves on.  A
    [readElem] error is kept in [err] and leaves [elem] as it was. *)
Definition prefixIterator_next {Elem} (readElem : bytes -> bytes -> result Elem)
    (it : prefixIterator Elem) : result (prefixIterator Elem * bool) :=
  match it_c it with
  | None => Ok (it, false)
  | Some pos =>
      let pos := match it_ck it with
                 | None => walletdb.Seek (it_bucket it) (it_prefix it)
                 | Some _ => walletdb.Next pos
                 end in
      let ck := fst <$> head pos in
      let cv := default [] (snd <$> head pos) in
      if negb (HasPrefix (default [] ck) (it_prefix it))
      then Ok (mkPrefixIterator (it_bucket it) None (it_prefix it) ck cv
                 (it_elem it) (it_err it), false)
      else
        match readElem (default [] ck) cv with
        | Ok elem =>
            Ok (mkPrefixIterator (it_bucket it) (Some pos) (it_prefix it) ck cv
                  elem (it_err it), true)
        | Fail e =>
            Ok (mkPrefixIterator (it_bucket it) (Some pos) (it_prefix it) ck cv
                  (it_elem it) (Some e), false)
        | Panic => Panic
        end
  end.

(** The loop the iterators are made for, [for it.next() { ... it.elem ... }]:
    the elements seen and the iterator the loop leaves.  [None] stands for a
    loop that is still running when the fuel is used up. *)
Fixpoint iterator_loop {It Elem : Type} (next : It -> result (It * bool))
    (elem : It -> Elem) (fuel : nat) (it : It)
    : option (result (list Elem * It)) :=
  match fuel with
  | O => None
  | S fuel =>
      match next it with
      | Ok (it, true) =>
          match iterator_loop next elem fuel it with
          | Some (Ok (elems, it')) => Some (Ok (elem it :: elems, it'))
          | r => r
          end
      | Ok (it, false) => Some (Ok ([], it))
      | Fail e => Some (Fail e)
      | Panic => Some Panic
      end
  end.

(** The position of a fresh cursor is never read: [next] seeks first. *)
Definition makeCreditIterator (ns : Namespace) (prefix : bytes)
    : result (prefixIterator CreditRecord) :=
  b ← walletdb.Bucket ns bucketCredits;
  Ok (mkPrefixIterator b (Some []) prefix None []
        (mkCreditRecord 0 0 false false x00 false) None).

Definition creditIterator_next :=
  prefixIterator_next creditIterator_readElem.

Definition creditIterator_loop :=
  iterator_loop creditIterator_next it_elem.

Definition makeDebitIterator (ns : Namespace) (prefix : bytes)
    : result (prefixIterator (Z * Z)) :=
  b ← walletdb.Bucket ns bucketDebits;
  Ok (mkPrefixIterator b (Some []) prefix None [] (0%Z, 0%Z) None).

Definition debitIterator_next :=
  prefixIterator_next debitIterator_readElem.

Definition debitIterator_loop :=
  iterator_loop debitIterator_next it_elem.

(** The pairs a prefix iterator is after: those whose key has the prefix. *)
Definition hasPrefix (p : bytes) (e : bytes * bytes) : Prop :=
  HasPrefix e.1 p = true.

#[global] Instance hasPrefix_dec p e : Decision (hasPrefix p e) :=
  decide (HasPrefix e.1 p = true).


(** ** The block iterator *)

(** [blockIterator], walked forward.  [bit_c] is [None] once [next] has set
    [c] to nil, [bit_ck] is [None] for the nil key. *)
Record blockIterator := mkBlockIterator {
  bit_bucket : gmap bytes bytes;
  bit_c : option walletdb.Cursor;
  bit_seek : bytes;
  bit_ck : option bytes;
  bit_cv : bytes;
  bit_elem : blockRecord;
  bit_err : option error
}.

(** The position of a fresh cursor is never read: [next] seeks first. *)
Definition makeBlockIterator (ns : Namespace) (height : Z)
    : result blockIterator :=
  let seek := make 4 in
  let seek := byteOrder.PutUint32 seek 0 (uint32 height) in
  b ← walletdb.Bucket ns bucketBlocks;
  Ok (mkBlockIterator b (Some []) seek None []
        (mkBlockRecord 0 (make 32) 0 0 []) None).

(** [next]: [readRawBlockRecord] checks its arguments before it writes to
    [elem], so a failed read leaves [elem] as it was. *)
Definition blockIterator_next (it : blockIterator)
    : result (blockIterator * bool) :=
  match bit_c it with
  | None => Ok (it, false)
  | Some pos =>
      let pos := match bit_ck it with
                 | None => walletdb.Seek (bit_bucket it) (bit_seek it)
                 | Some _ => walletdb.Next pos
                 end in
      let cv := default [] (snd <$> head pos) in
      match fst <$> head pos with
      | None =>
          Ok (mkBlockIterator (bit_bucket it) None (bit_seek it) None cv
                (bit_elem it) (bit_err it), false)
      | Some ck =>
          match readRawBlockRecord ck cv with
          | Ok elem =>
              Ok (mkBlockIterator (bit_bucket it) (Some pos) (bit_seek it)
                    (Some ck) cv elem (bit_err it), true)
          | Fail e =>
              Ok (mkBlockIterator (bit_bucket it) None (bit_seek it)
                    (Some ck) cv (bit_elem it) (Some e), false)
          | Panic => Panic
          end
      end
  end.

Definition blockIterator_loop :=
  iterator_loop blockIterator_next bit_elem.

(** The pairs a forward block iterator is after: those whose key is not
    below the key it seeks. *)
Definition notBelow (seek : bytes) (e : bytes * bytes) : Prop :=
  bytes_le seek e.1 = true.

#[global] Instance notBelow_dec seek e : Decision (notBelow seek e) :=
  decide (bytes_le seek e.1 = true).

(** ** Sample data *)

Definition sampleHash (b : byte) : Hash := mkHash (replicate 32 b) eq_refl.

Definition sampleBlock : Block := mkBlock (sampleHash x0b) 100.

Definition sampleSpender : indexedIncidence :=
  mkIndexedIncidence (sampleHash x0a) (mkBlock (sampleHash x0c) 101) 0.

Definition sampleCreditKey : bytes := keyCredit (sampleHash x01) 0 sampleBlock.

(** A coinbase-like credit of 5·10^8 atoms. *)
Definition sampleCredit : credit := mkCredit 500000000 false xb9 true.

Definition sampleCreditValue : bytes :=
  valueUnspentCredit sampleCredit scriptTypeP2PKH 0 0 0.

(** A writable transaction on a namespace whose credits bucket is empty, and
    one whose credits bucket holds the sample credit. *)
Definition sampleTxEmpty : Namespace :=
  mkNamespace true ∅ {[ bucketCredits := ∅ ]}.

Definition sampleTxCredit : Namespace :=
  mkNamespace true ∅ {[ bucketCredits := {[ sampleCreditKey := sampleCreditValue ]} ]}.

(** An unspent multisig output in the stake tree, mined at height 50. *)
Definition sampleMultisigValue : bytes :=
  valueMultisigOut (replicate 20 x05) x02 x03 false TxTreeStake
    (sampleHash x0b) 50 1000 zeroHash 0 (sampleHash x01).

(** The names of the buckets [createStore] creates, in its order. *)
Definition createdBuckets : list bytes :=
  [ bucketBlocks; bucketTxRecords; bucketCredits; bucketDebits; bucketUnspent;
    bucketUnmined; bucketUnminedCredits; bucketUnminedInputs; bucketScripts;
    bucketMultisig; bucketMultisigUsp ].

(** A tx-record value of sixteen bytes [0; 1; ...; 15]. *)
Definition sampleTxValue : bytes :=
  [x00; x01; x02; x03; x04; x05; x06; x07; x08; x09; x0a; x0b; x0c; x0d; x0e; x0f].

(** A writable transaction whose blocks bucket holds empty block records at
    the given heights. *)
Definition sampleBlocksAt (heights : list Z) : Namespace :=
  mkNamespace true ∅
    {[ bucketBlocks :=
         list_to_map ((fun h => (keyBlockRecord h,
                                 valueBlockRecordEmpty
                                   (mkBlockMeta (mkBlock (sampleHash x0b) h) 0 0)))
                        <$> heights) ]}.

(** A block record that lists three transaction hashes. *)
Definition sampleBlockValue : bytes :=
  byteOrder.PutUint32
    (valueBlockRecord (mkBlockMeta sampleBlock 1500000000 1) (sampleHash x01)
       ++ sampleHash x02 ++ sampleHash x03)
    42 3.

(** The mined-tx records of one transaction hash at heights 100 and 120, in
    two different blocks, and of another hash at height 110. *)
Definition sampleTxRecordBucket : gmap bytes bytes :=
  {[ keyTxRecord (sampleHash x01) (mkBlock (sampleHash x0b) 100) := sampleTxValue;
     keyTxRecord (sampleHash x01) (mkBlock (sampleHash x0c) 120) := sampleTxValue;
     keyTxRecord (sampleHash x02) (mkBlock (sampleHash x0d) 110) := sampleTxValue ]}.

Definition sampleTxRecords : Namespace :=
  mkNamespace false ∅ {[ bucketTxRecords := sampleTxRecordBucket ]}.

(** A store created at time 1000, and the store after one committed write
    transaction that inserts the sample credit and a second one that marks
    it spent. *)
Definition sampleCreated : Namespace :=
  match createStore (mkNamespace false ∅ ∅) 1000 with
  | Ok ns => ns
  | _ => mkNamespace false ∅ ∅
  end.

Definition sampleInsert (tx : Namespace) : result Namespace :=
  applyMutation tx (InsertUnspent sampleCreditKey sampleCredit scriptTypeP2PKH 0 0 0).

Definition sampleSpend (tx : Namespace) : result Namespace :=
  applyMutation tx (SpendMined sampleCreditKey sampleSpender).

Definition sampleInserted : Namespace :=
  match scopedUpdate sampleCreated sampleInsert with
  | Ok ns => ns
  | _ => sampleCreated
  end.

Definition sampleSpent : Namespace :=
  match scopedUpdate sampleInserted sampleSpend with
  | Ok ns => ns
  | _ => sampleInserted
  end.

(** The sample multisig output after it was spent by input 3 of a
    transaction. *)
Definition sampleMultisigSpentValue : bytes :=
  valueMultisigOut (replicate 20 x05) x02 x03 true TxTreeStake
    (sampleHash x0b) 50 1000 (sampleHash x0a) 3 (sampleHash x01).

(** A read-only transaction whose debits bucket holds one debit of the
    sample credit. *)
Definition sampleDebitBucket : gmap bytes bytes :=
  {[ keyDebit (sampleHash x0a) 0 sampleBlock :=
       be_encode 8 500000000 ++ sampleCreditKey ]}.

Definition sampleTxDebit : Namespace :=
  mkNamespace false ∅ {[ bucketDebits := sampleDebitBucket ]}.

(** * Properties *)

(** ** Bytes and the big-endian byte order *)

Lemma byte_to_Z_range b : (0 <= byte_to_Z b < 256)%Z.
Proof.
  unfold byte_to_Z. pose proof (Byte.to_N_bounded b). lia.
Qed.

Lemma byte_of_to_Z b : byte_of_Z (byte_to_Z b) = b.
Proof.
  unfold byte_of_Z. pose proof (byte_to_Z_range b) as Hr.
  rewrite Z.mod_small by exact Hr.
  unfold byte_to_Z. rewrite N2Z.id, Byte.of_to_N. reflexivity.
Qed.

Lemma byte_to_of_Z z : byte_to_Z (byte_of_Z z) = (z mod 256)%Z.
Proof.
  unfold byte_of_Z, byte_to_Z.
  assert (Hr : (0 <= z mod 256 < 256)%Z) by (apply Z.mod_pos_bound; lia).
  destruct (Byte.of_N (Z.to_N (z mod 256)%Z)) as [b|] eqn:E.
  - apply Byte.to_of_N in E. rewrite E. lia.
  - exfalso. pose proof (Byte.to_of_N_option_map (Z.to_N (z mod 256)%Z)) as H.
    rewrite E in H. simpl in H.
    destruct (N.leb_spec (Z.to_N (z mod 256)%Z) 255); [discriminate | lia].
Qed.

Lemma be_decode_from_app acc a b :
  be_decode_from acc (a ++ b) = be_decode_from (be_decode_from acc a) b.
Proof.
  revert acc. induction a as [|x a IH]; intros acc; simpl; [reflexivity|].
  apply IH.
Qed.

Lemma be_decode_from_acc acc bs :
  be_decode_from acc bs = (acc * 256 ^ Z.of_nat (length bs) + be_decode bs)%Z.
Proof.
  unfold be_decode. revert acc.
  induction bs as [|x bs IH]; intros acc.
  - simpl. lia.
  - cbn [be_decode_from length]. rewrite IH, (IH (0 * 256 + byte_to_Z x)%Z).
    rewrite Nat2Z.inj_succ, Z.pow_succ_r by lia. lia.
Qed.

Lemma be_decode_app a b :
  be_decode (a ++ b) = (be_decode a * 256 ^ Z.of_nat (length b) + be_decode b)%Z.
Proof.
  unfold be_decode at 1. rewrite be_decode_from_app, be_decode_from_acc.
  reflexivity.
Qed.

Lemma be_decode_snoc bs x :
  be_decode (bs ++ [x]) = (be_decode bs * 256 + byte_to_Z x)%Z.
Proof.
  unfold be_decode at 1. rewrite be_decode_from_app. reflexivity.
Qed.

Lemma be_decode_range bs : (0 <= be_decode bs < 256 ^ Z.of_nat (length bs))%Z.
Proof.
  induction bs as [|x bs IH] using rev_ind.
  - cbn. lia.
  - rewrite be_decode_snoc, length_app. cbn [length].
    replace (Z.of_nat (length bs + 1)) with (Z.succ (Z.of_nat (length bs))) by lia.
    rewrite Z.pow_succ_r by lia.
    pose proof (byte_to_Z_range x). lia.
Qed.

Lemma be_encode_length n z : length (be_encode n z) = n.
Proof.
  revert z. induction n as [|n IH]; intros z; simpl; [reflexivity|].
  rewrite length_app, IH. simpl. lia.
Qed.

Lemma be_decode_encode n z :
  be_decode (be_encode n z) = (z mod 256 ^ Z.of_nat n)%Z.
Proof.
  revert z. induction n as [|n IH]; intros z.
  - cbn. now rewrite Z.mod_1_r.
  - cbn [be_encode]. rewrite be_decode_snoc, IH, byte_to_of_Z.
    rewrite Nat2Z.inj_succ, Z.pow_succ_r by lia.
    rewrite (Z.rem_mul_r z 256) by lia. lia.
Qed.

Lemma be_encode_decode bs : be_encode (length bs) (be_decode bs) = bs.
Proof.
  induction bs as [|x bs IH] using rev_ind; [reflexivity|].
  rewrite length_app, Nat.add_comm. cbn [length Nat.add be_encode].
  rewrite be_decode_snoc.
  pose proof (byte_to_Z_range x) as Hx.
  replace ((be_decode bs * 256 + byte_to_Z x) / 256)%Z with (be_decode bs).
  2:{ rewrite Z.div_add_l, Z.div_small by lia. lia. }
  rewrite IH. f_equal. f_equal.
  rewrite <- (byte_of_to_Z x) at 2. unfold byte_of_Z.
  rewrite Z.add_comm, Z.mod_add by lia. reflexivity.
Qed.

Lemma be_encode_mod n z :
  be_encode n (z mod 256 ^ Z.of_nat n) = be_encode n z.
Proof.
  rewrite <- (be_decode_encode n z).
  rewrite <- (be_encode_length n z) at 1.
  apply be_encode_decode.
Qed.

(** ** Slices and copies *)

Lemma length_make n : length (make n) = n.
Proof. apply length_replicate. Qed.

Lemma length_slice v lo hi :
  hi <= length v -> length (slice v lo hi) = hi - lo.
Proof.
  intros H. unfold slice. rewrite length_take, length_drop. lia.
Qed.

Lemma length_copy dst src : length (copy dst src) = length dst.
Proof.
  unfold copy. rewrite length_app, length_take, length_drop. lia.
Qed.

Lemma copy_exact dst src : length src = length dst -> copy dst src = src.
Proof.
  intros H. unfold copy. rewrite <- H, firstn_all, drop_ge by lia.
  apply app_nil_r.
Qed.

Lemma copy_nil dst : copy dst [] = dst.
Proof. unfold copy. now rewrite take_nil. Qed.

Lemma length_copy_at v lo hi src :
  lo <= hi -> hi <= length v -> length (copy_at v lo hi src) = length v.
Proof.
  intros H1 H2. unfold copy_at.
  rewrite !length_app, length_copy, length_slice, length_take, length_drop by lia.
  lia.
Qed.

Lemma copy_at_exact v lo hi src :
  lo <= hi -> hi <= length v -> length src = hi - lo ->
  copy_at v lo hi src = take lo v ++ src ++ drop hi v.
Proof.
  intros H1 H2 H3. unfold copy_at. rewrite copy_exact; [reflexivity|].
  rewrite length_slice by lia. exact H3.
Qed.

Lemma copy_at_lookup_lt v lo hi src i :
  i < lo -> lo <= length v -> copy_at v lo hi src !! i = v !! i.
Proof.
  intros H1 H2. unfold copy_at.
  rewrite lookup_app_l by (rewrite length_take; lia).
  apply lookup_take_lt. exact H1.
Qed.

Lemma copy_at_lookup_ge v lo hi src i :
  lo <= hi -> hi <= length v -> hi <= i ->
  copy_at v lo hi src !! i = v !! i.
Proof.
  intros H1 H2 H3. unfold copy_at.
  rewrite lookup_app_r by (rewrite length_take; lia).
  rewrite lookup_app_r
    by (rewrite length_take, length_copy, length_slice by lia; lia).
  rewrite length_take, length_copy, length_slice, lookup_drop by lia.
  f_equal. lia.
Qed.

Lemma take_copy_at v lo hi src n :
  n <= lo -> lo <= length v -> take n (copy_at v lo hi src) = take n v.
Proof.
  intros H1 H2. unfold copy_at.
  rewrite take_app_le by (rewrite length_take; lia).
  rewrite take_take. f_equal. lia.
Qed.

Lemma slice_copy_at v lo hi src :
  lo <= hi -> hi <= length v -> length src = hi - lo ->
  slice (copy_at v lo hi src) lo hi = src.
Proof.
  intros H1 H2 H3. rewrite copy_at_exact by assumption. unfold slice.
  rewrite drop_app_length' by (rewrite length_take; lia).
  rewrite take_app_length' by lia. reflexivity.
Qed.

Lemma get_byte_copy_at_lt v lo hi src i :
  i < lo -> lo <= length v -> get_byte (copy_at v lo hi src) i = get_byte v i.
Proof.
  intros. unfold get_byte. now rewrite copy_at_lookup_lt.
Qed.

Lemma get_byte_copy_at_ge v lo hi src i :
  lo <= hi -> hi <= length v -> hi <= i ->
  get_byte (copy_at v lo hi src) i = get_byte v i.
Proof.
  intros. unfold get_byte. now rewrite copy_at_lookup_ge.
Qed.

Lemma length_set_byte v i b : length (set_byte v i b) = length v.
Proof. apply length_insert. Qed.

Lemma get_byte_set_byte_eq v i b :
  i < length v -> get_byte (set_byte v i b) i = b.
Proof.
  intros H. unfold get_byte, set_byte. now rewrite list_lookup_insert_eq.
Qed.


Lemma take_set_byte v i b n :
  n <= i -> take n (set_byte v i b) = take n v.
Proof.
  intros H. unfold set_byte. now rewrite take_insert_ge.
Qed.

Lemma hash_length (h : Hash) : length (hash_bytes h) = 32.
Proof. destruct h as [l Hl]. simpl. now apply Nat.eqb_eq. Qed.

Lemma NewHash_ok b :
  length b = 32 -> exists h, NewHash b = Ok h /\ hash_bytes h = b.
Proof.
  intros H. unfold NewHash.
  generalize (eq_refl (Nat.eqb (length b) 32)).
  generalize (Nat.eqb (length b) 32) at 2 3.
  intros c. destruct c; intros E.
  - eexists. split; reflexivity.
  - apply Nat.eqb_neq in E. contradiction.
Qed.

(** ** Credits: spending and unspending *)

(** Turn a hash into its thirty-two bytes. *)
Ltac explode_hash h :=
  let l := fresh "l" in
  let Hl := fresh "Hl" in
  destruct h as [l Hl]; revert Hl;
  do 32 (destruct l as [|? l]; [intros Hl; discriminate Hl|]);
  destruct l; [intros Hl|intros Hl; discriminate Hl].


Lemma byte_shl_1_0 : byte_shl x01 0 = x01.
Proof. reflexivity. Qed.

Lemma byte_andnot_or_1 b : byte_andnot (byte_or b x01) x01 = byte_andnot b x01.
Proof. destruct b; reflexivity. Qed.

Lemma byte_and_andnot_1 b : byte_and (byte_andnot b x01) x01 = x00.
Proof. destruct b; reflexivity. Qed.

Lemma byte_and_or_1 b : byte_and (byte_or b x01) x01 = x01.
Proof. destruct b; reflexivity. Qed.

Lemma take_copy_make n m v :
  n <= length v -> n <= m -> take n (copy (make m) v) = take n v.
Proof.
  intros H1 H2. unfold copy. rewrite length_make.
  rewrite take_app_le by (rewrite length_take; lia).
  rewrite take_take. f_equal. lia.
Qed.

Lemma get_byte_copy_make i m v :
  i < length v -> i < m -> get_byte (copy (make m) v) i = get_byte v i.
Proof.
  intros H1 H2. unfold get_byte, copy. rewrite length_make.
  rewrite lookup_app_l by (rewrite length_take; lia).
  now rewrite lookup_take_lt.
Qed.

Lemma Uint64_slice v : 8 <= length v -> byteOrder.Uint64 (slice v 0 8) = byteOrder.Uint64 v.
Proof. intros H. unfold byteOrder.Uint64, slice. rewrite drop_0. now rewrite take_take. Qed.

Lemma Uint64_eq_take v w :
  take 8 v = take 8 w -> byteOrder.Uint64 v = byteOrder.Uint64 w.
Proof. unfold byteOrder.Uint64. now intros ->. Qed.

Lemma length_PutUint32 v lo x :
  lo + 4 <= length v -> length (byteOrder.PutUint32 v lo x) = length v.
Proof. intros H. unfold byteOrder.PutUint32. apply length_copy_at; lia. Qed.

Lemma length_PutUint64 v lo x :
  lo + 8 <= length v -> length (byteOrder.PutUint64 v lo x) = length v.
Proof. intros H. unfold byteOrder.PutUint64. apply length_copy_at; lia. Qed.

Lemma length_PutUint16 v lo x :
  lo + 2 <= length v -> length (byteOrder.PutUint16 v lo x) = length v.
Proof. intros H. unfold byteOrder.PutUint16. apply length_copy_at; lia. Qed.

(** Compute the length of a value built by the writers of the source. *)
Ltac len :=
  repeat first
    [ rewrite length_make | rewrite length_copy | rewrite length_set_byte
    | rewrite length_app | rewrite be_encode_length | rewrite hash_length
    | rewrite length_copy_at by (len; lia)
    | rewrite length_PutUint16 by (len; lia)
    | rewrite length_PutUint32 by (len; lia)
    | rewrite length_PutUint64 by (len; lia) ];
  unfold creditValueSize, creditKeySize, unconfValueSize in *; cbn [length].

Lemma length_spendCredit_value v spender :
  length (spendCredit_value v spender) = 94.
Proof. unfold spendCredit_value. len. reflexivity. Qed.

Lemma take_PutUint32 v lo x n :
  n <= lo -> lo <= length v -> take n (byteOrder.PutUint32 v lo x) = take n v.
Proof. intros. unfold byteOrder.PutUint32. now apply take_copy_at. Qed.

Lemma get_byte_PutUint32_lt v lo x i :
  i < lo -> lo <= length v -> get_byte (byteOrder.PutUint32 v lo x) i = get_byte v i.
Proof. intros. unfold byteOrder.PutUint32. now apply get_byte_copy_at_lt. Qed.

Lemma take_spendCredit_value v spender :
  take 8 (spendCredit_value v spender)
  = take 8 (copy (make creditValueSize) (default [] v)).
Proof.
  unfold spendCredit_value.
  rewrite take_PutUint32 by (len; lia).
  rewrite take_copy_at by (len; lia).
  rewrite take_PutUint32 by (len; lia).
  rewrite take_copy_at by (len; lia).
  rewrite take_set_byte by lia. reflexivity.
Qed.

Lemma get_byte_spendCredit_value v spender :
  get_byte (spendCredit_value v spender) 8
  = byte_or (get_byte (copy (make creditValueSize) (default [] v)) 8) x01.
Proof.
  unfold spendCredit_value.
  rewrite get_byte_PutUint32_lt by (len; lia).
  rewrite get_byte_copy_at_lt by (len; lia).
  rewrite get_byte_PutUint32_lt by (len; lia).
  rewrite get_byte_copy_at_lt by (len; lia).
  rewrite get_byte_set_byte_eq by (len; lia). reflexivity.
Qed.

Lemma spendCredit_ok ns cs k spender :
  ns_writable ns = true ->
  ns_buckets ns !! bucketCredits = Some cs ->
  spendCredit ns k spender =
    Ok (int64 (byteOrder.Uint64 (spendCredit_value (cs !! k) spender)),
        mkNamespace true (ns_values ns)
          (<[bucketCredits := <[k := spendCredit_value (cs !! k) spender]> cs]>
             (ns_buckets ns))).
Proof.
  intros Hw Hb.
  unfold spendCredit, putRawCredit, walletdb.BucketGet, walletdb.BucketPut.
  rewrite Hb, Hw. cbn [mbind result_bind orFail].
  rewrite Uint64_slice by (rewrite length_spendCredit_value; lia).
  reflexivity.
Qed.

Lemma unspendRawCredit_ok ns cs k v :
  ns_writable ns = true ->
  ns_buckets ns !! bucketCredits = Some cs ->
  cs !! k = Some v ->
  8 <= length v ->
  unspendRawCredit ns k =
    Ok (int64 (byteOrder.Uint64 v),
        mkNamespace true (ns_values ns)
          (<[bucketCredits := <[k := unspendRawCredit_value v]> cs]>
             (ns_buckets ns))).
Proof.
  intros Hw Hb Hk Hlen.
  unfold unspendRawCredit, walletdb.BucketGet, walletdb.BucketPut.
  rewrite Hb, Hw. cbn [mbind result_bind orFail]. rewrite Hk.
  cbn [mbind result_bind orFail].
  destruct (Nat.ltb_spec (length v) 8); [lia|].
  rewrite Uint64_slice by lia. reflexivity.
Qed.

(** C10: for a key [k] without a record in the credits bucket, [spendCredit]
    reports no error: it writes a 94-byte value whose bytes are zero except
    the Spent flag (byte 8 is 1) and the spender's key in bytes 9..81, and it
    returns the amount 0. *)
Theorem spendCredit_missing_record ns cs k spender :
  ns_writable ns = true ->
  ns_buckets ns !! bucketCredits = Some cs ->
  cs !! k = None ->
  let v := make 8 ++ [x01]
           ++ keyDebit (ii_txHash spender) (ii_index spender) (ii_block spender)
           ++ make 13 in
  length v = 94 /\
  spendCredit ns k spender =
    Ok (0%Z, mkNamespace true (ns_values ns)
               (<[bucketCredits := <[k := v]> cs]> (ns_buckets ns))).
Proof.
  intros Hw Hb Hk v.
  assert (E : spendCredit_value None spender = v).
  { subst v. destruct spender as [th [bh height] idx].
    explode_hash th. explode_hash bh. reflexivity. }
  split.
  - rewrite <- E. apply length_spendCredit_value.
  - rewrite (spendCredit_ok ns cs k spender Hw Hb), Hk, E.
    subst v. reflexivity.
Qed.

Lemma spendCredit_missing_record_witness :
  spendCredit sampleTxEmpty sampleCreditKey sampleSpender =
    Ok (0%Z, mkNamespace true ∅
               {[ bucketCredits :=
                    {[ sampleCreditKey :=
                         make 8 ++ [x01]
                         ++ keyDebit (sampleHash x0a) 0 (mkBlock (sampleHash x0c) 101)
                         ++ make 13 ]} ]}).
Proof.
  destruct (spendCredit_missing_record sampleTxEmpty ∅ sampleCreditKey
              sampleSpender eq_refl eq_refl eq_refl) as [_ E].
  rewrite E. reflexivity.
Defined.

(** C4: for an existing credit record, [spendCredit] followed by
    [unspendRawCredit] on the same key leaves bytes 0..8 of the value as they
    were, leaves the flags byte as it was except that the Spent bit is clear,
    and both calls return the amount of the credit. *)
Theorem spend_unspend_credit ns cs k v spender :
  ns_writable ns = true ->
  ns_buckets ns !! bucketCredits = Some cs ->
  cs !! k = Some v ->
  9 <= length v ->
  exists ns1 ns2 v2,
    spendCredit ns k spender = Ok (int64 (creditAmount v), ns1) /\
    unspendRawCredit ns1 k = Ok (int64 (creditAmount v), ns2) /\
    walletdb.BucketGet ns2 bucketCredits k = Ok (Some v2) /\
    take 8 v2 = take 8 v /\
    get_byte v2 8 = byte_andnot (get_byte v 8) x01 /\
    creditSpent v2 = false.
Proof.
  intros Hw Hb Hk Hlen.
  set (v1 := spendCredit_value (Some v) spender).
  assert (L1 : length v1 = 94) by apply length_spendCredit_value.
  assert (T1 : take 8 v1 = take 8 v).
  { unfold v1. rewrite take_spendCredit_value.
    change (default [] (Some v)) with v.
    apply take_copy_make; cbv [creditValueSize]; lia. }
  assert (B1 : get_byte v1 8 = byte_or (get_byte v 8) x01).
  { unfold v1. rewrite get_byte_spendCredit_value.
    change (default [] (Some v)) with v.
    rewrite get_byte_copy_make by (cbv [creditValueSize]; lia). reflexivity. }
  eexists _, _, (unspendRawCredit_value v1).
  split; [|split; [|split; [|split; [|split]]]].
  - rewrite (spendCredit_ok ns cs k spender Hw Hb), Hk. fold v1.
    unfold creditAmount. rewrite (Uint64_eq_take v1 v T1). reflexivity.
  - erewrite unspendRawCredit_ok; [| reflexivity | cbn; apply lookup_insert_eq
                                   | apply lookup_insert_eq | lia ].
    unfold creditAmount. rewrite (Uint64_eq_take v1 v T1). reflexivity.
  - unfold walletdb.BucketGet. cbn. rewrite lookup_insert_eq.
    now rewrite lookup_insert_eq.
  - unfold unspendRawCredit_value. rewrite take_set_byte by lia.
    rewrite copy_exact by (len; lia). exact T1.
  - unfold unspendRawCredit_value. rewrite get_byte_set_byte_eq by (len; lia).
    rewrite copy_exact by (len; lia). rewrite B1, byte_shl_1_0.
    apply byte_andnot_or_1.
  - unfold creditSpent, unspendRawCredit_value.
    rewrite get_byte_set_byte_eq by (len; lia).
    rewrite byte_shl_1_0, byte_and_andnot_1. reflexivity.
Qed.

Lemma spend_unspend_credit_witness :
  exists ns1 ns2 v2,
    spendCredit sampleTxCredit sampleCreditKey sampleSpender
      = Ok (int64 (creditAmount sampleCreditValue), ns1) /\
    unspendRawCredit ns1 sampleCreditKey
      = Ok (int64 (creditAmount sampleCreditValue), ns2) /\
    walletdb.BucketGet ns2 bucketCredits sampleCreditKey = Ok (Some v2) /\
    take 8 v2 = take 8 sampleCreditValue /\
    get_byte v2 8 = byte_andnot (get_byte sampleCreditValue 8) x01 /\
    creditSpent v2 = false.
Proof.
  apply (spend_unspend_credit sampleTxCredit
           {[ sampleCreditKey := sampleCreditValue ]}
           sampleCreditKey sampleCreditValue sampleSpender).
  - reflexivity.
  - reflexivity.
  - apply lookup_singleton_eq.
  - vm_compute. lia.
Defined.

(** ** Multisig setters *)

Lemma setMultisigOutSpent_frame v h i :
  length v = 135 ->
  exists v', setMultisigOutSpent v h i = Ok v' /\
    length v' = 135 /\
    get_byte v' 22 = x01 /\
    forall j, j <> 22 -> j < 67 \/ 103 <= j -> v' !! j = v !! j.
Proof.
  intros L. unfold setMultisigOutSpent.
  destruct (Nat.ltb_spec (length v) 103); [lia|].
  eexists. split; [reflexivity|]. split; [|split].
  - len. lia.
  - unfold byteOrder.PutUint32.
    rewrite get_byte_copy_at_lt by (len; lia).
    rewrite get_byte_copy_at_lt by (len; lia).
    rewrite get_byte_set_byte_eq by lia. reflexivity.
  - intros j Hj [Hlt|Hge]; unfold byteOrder.PutUint32.
    + rewrite !copy_at_lookup_lt by (len; lia).
      apply list_lookup_insert_ne. lia.
    + rewrite !copy_at_lookup_ge by (len; lia).
      apply list_lookup_insert_ne. lia.
Qed.

Lemma setMultisigOutUnSpent_frame v :
  length v = 135 ->
  exists v', setMultisigOutUnSpent v = Ok v' /\
    length v' = 135 /\
    get_byte v' 22 = x00 /\
    forall j, j <> 22 -> j < 67 \/ 103 <= j -> v' !! j = v !! j.
Proof.
  intros L. unfold setMultisigOutUnSpent.
  destruct (Nat.ltb_spec (length v) 103); [lia|].
  eexists. split; [reflexivity|]. split; [|split].
  - len. lia.
  - unfold byteOrder.PutUint32.
    rewrite get_byte_copy_at_lt by (len; lia).
    rewrite get_byte_copy_at_lt by (len; lia).
    rewrite get_byte_set_byte_eq by lia. reflexivity.
  - intros j Hj [Hlt|Hge]; unfold byteOrder.PutUint32.
    + rewrite !copy_at_lookup_lt by (len; lia).
      apply list_lookup_insert_ne. lia.
    + rewrite !copy_at_lookup_ge by (len; lia).
      apply list_lookup_insert_ne. lia.
Qed.

(** C6: on a 135-byte multisig value whose Tree flag is set (an output in the
    stake tree), [setMultisigOutSpent] and [setMultisigOutUnSpent] store a
    whole new flags byte: the value read back is in the regular tree. *)
Theorem setMultisigOut_overwrites_tree_flag :
  length sampleMultisigValue = 135 /\
  fetchMultisigOutTree sampleMultisigValue = Ok TxTreeStake /\
  (v ← setMultisigOutSpent sampleMultisigValue (sampleHash x0a) 3;
   fetchMultisigOutTree v) = Ok TxTreeRegular /\
  (v ← setMultisigOutUnSpent sampleMultisigValue;
   fetchMultisigOutTree v) = Ok TxTreeRegular.
Proof. vm_compute. repeat split; reflexivity. Qed.

(** ** The script of a credit *)

Section PkScript.

Variable MsgTx : Type.
Variable Deserialize : bytes -> option MsgTx.
Variable TxOut_PkScript : MsgTx -> list bytes.
Variable TxType : Type.
Variable DetermineTxType : MsgTx -> TxType.

(** C2, as the code has it: for a stored script offset other than zero, the
    reader adds the eight bytes of the received time to the stored offset
    and returns the bytes [v[off+8 : off+8+len]] of the tx-record value. *)
Theorem fetchRawTxRecordPkScript_stored k v index scrLoc scrLen :
  scrLoc <> 0%Z ->
  Z.to_nat scrLoc + 8 + Z.to_nat scrLen <= length v ->
  fetchRawTxRecordPkScript MsgTx Deserialize TxOut_PkScript TxType
    DetermineTxType k v index scrLoc scrLen
  = Ok (slice v (Z.to_nat scrLoc + 8) (Z.to_nat scrLoc + 8 + Z.to_nat scrLen)).
Proof.
  intros Hloc Hlen. unfold fetchRawTxRecordPkScript, scriptLocNotStored, int64Size.
  destruct (Z.eqb_spec scrLoc 0); [contradiction|].
  destruct (Nat.ltb_spec (length v) (Z.to_nat scrLoc + 8 + Z.to_nat scrLen));
    [lia|].
  f_equal. apply copy_exact. rewrite length_make, length_slice by lia. lia.
Qed.

End PkScript.

Lemma fetchRawTxRecordPkScript_stored_witness :
  fetchRawTxRecordPkScript unit (fun _ => None) (fun _ => []) unit (fun u => u)
    sampleCreditKey sampleTxValue 0 1 2
  = Ok [x09; x0a].
Proof.
  rewrite (fetchRawTxRecordPkScript_stored unit (fun _ => None) (fun _ => [])
             unit (fun u => u) sampleCreditKey sampleTxValue 0 1 2).
  - reflexivity.
  - discriminate.
  - vm_compute. lia.
Defined.

(** The reader does not return [v[off : off+len]]: with the stored offset 1
    and length 2 it returns bytes 9 and 10 of the value, not bytes 1 and 2. *)
Lemma fetchRawTxRecordPkScript_unadjusted_counterexample :
  fetchRawTxRecordPkScript unit (fun _ => None) (fun _ => []) unit (fun u => u)
    sampleCreditKey sampleTxValue 0 1 2
  <> Ok (slice sampleTxValue 1 3).
Proof. vm_compute. discriminate. Qed.

(** ** Creating a store *)

Lemma merge_sort_nil_inv {A} (R : relation A) `{!forall x y, Decision (R x y)} (l : list A) :
  merge_sort R l = [] -> l = [].
Proof.
  intros Hnil. apply Permutation_nil. rewrite <- Hnil.
  exact (merge_sort_Permutation R l).
Qed.

Lemma First_None_inv ns :
  walletdb.First ns = None -> ns_values ns = ∅ /\ ns_buckets ns = ∅.
Proof.
  unfold walletdb.First. intros H.
  destruct (merge_sort _ _) as [|k l] eqn:E; [|discriminate].
  apply merge_sort_nil_inv in E. apply elements_empty_inv in E.
  apply leibniz_equiv in E.
  apply empty_union_L in E as [E1 E2].
  split; apply dom_empty_inv_L; assumption.
Qed.

Lemma createStore_empty w now :
  createStore (mkNamespace w ∅ ∅) now =
    Ok (mkNamespace w
          (<[rootMinedBalance := make 8]>
             (<[rootCreateDate := be_encode 8 (uint64 now)]>
                (<[rootVersion := [x00; x00; x00; x02]]> ∅)))
          (list_to_map ((fun name => (name, ∅)) <$> createdBuckets))).
Proof.
  unfold createStore, scopedUpdate.
  replace (be_encode 8 (uint64 now))
    with (byteOrder.PutUint64 (make 8) 0 (uint64 now)).
  2:{ unfold byteOrder.PutUint64. rewrite copy_at_exact; len; try lia.
      reflexivity. }
  generalize (byteOrder.PutUint64 (make 8) 0 (uint64 now)). intros d.
  vm_compute. reflexivity.
Qed.

(** C3, as the code has it: in an empty namespace [createStore] succeeds;
    afterwards [vers] holds the bytes [0; 0; 0; 2], [bal] holds eight zero
    bytes and [fetchMinedBalance] returns 0, [date] holds the creation time,
    the store opens, and the nested buckets are the eleven buckets [b], [t],
    [c], [d], [u], [m], [mc], [mi], [sc], [ms] and [mu], each empty. *)
Theorem createStore_fresh ns0 now :
  walletdb.First ns0 = None ->
  exists ns,
    createStore ns0 now = Ok ns /\
    walletdb.Get ns rootVersion = Some [x00; x00; x00; x02] /\
    walletdb.Get ns rootMinedBalance = Some (make 8) /\
    fetchMinedBalance ns = Ok 0%Z /\
    walletdb.Get ns rootCreateDate = Some (be_encode 8 (uint64 now)) /\
    openStore ns = Ok tt /\
    ns_buckets ns = list_to_map ((fun name => (name, ∅)) <$> createdBuckets) /\
    NoDup createdBuckets /\
    length createdBuckets = 11.
Proof.
  intros Hempty. apply First_None_inv in Hempty as [Hv Hb].
  destruct ns0 as [w vals bs]. cbn in Hv, Hb. subst vals bs.
  eexists. split; [apply createStore_empty|].
  generalize (be_encode 8 (uint64 now)). intros d.
  split; [reflexivity|]. split; [reflexivity|]. split; [reflexivity|].
  split; [reflexivity|]. split; [reflexivity|]. split; [reflexivity|].
  split; [|reflexivity].
  refine (bool_decide_unpack (NoDup createdBuckets) _). vm_compute. exact I.
Qed.

Lemma createStore_fresh_witness :
  exists ns,
    createStore (mkNamespace false ∅ ∅) 1000 = Ok ns /\
    walletdb.Get ns rootVersion = Some [x00; x00; x00; x02] /\
    walletdb.Get ns rootMinedBalance = Some (make 8) /\
    fetchMinedBalance ns = Ok 0%Z /\
    walletdb.Get ns rootCreateDate = Some (be_encode 8 (uint64 1000)) /\
    openStore ns = Ok tt /\
    ns_buckets ns = list_to_map ((fun name => (name, ∅)) <$> createdBuckets) /\
    NoDup createdBuckets /\
    length createdBuckets = 11.
Proof.
  apply (createStore_fresh (mkNamespace false ∅ ∅) 1000). reflexivity.
Defined.

(** The store created in an empty namespace does not have twelve buckets. *)
Lemma createStore_twelve_buckets_counterexample :
  exists ns,
    createStore (mkNamespace false ∅ ∅) 1000 = Ok ns /\
    size (ns_buckets ns) = 11 /\
    size (ns_buckets ns) <> 12.
Proof.
  eexists. split; [apply createStore_empty|].
  split; [|intros H; revert H]; vm_compute; [reflexivity|discriminate].
Qed.

(** ** Short inputs *)

Lemma ltb_lt_true a b : a < b -> (a <? b) = true.
Proof. intros H. now apply Nat.ltb_lt. Qed.

Section ShortInputs.

Variable MsgTx : Type.
Variable Deserialize : bytes -> option MsgTx.
Variable TxType : Type.
Variable DetermineTxType : MsgTx -> TxType.

Local Abbreviation decode := (decode MsgTx Deserialize TxType DetermineTxType).

(** C9, as the code has it: applied to a key or a value shorter than its
    minimum length, every decoder other than [fetchMultisigOut] either is a
    reader of the script locator, which returns the zero value without an
    error, or fails with a Data error. *)
Theorem decode_short_input d k v :
  d <> dec_fetchMultisigOut ->
  length k < minKeyLength d \/ length v < minValueLength d ->
  decode d k v =
    (if readsScriptLocator d then Returned else Failed (storeError ErrData)) /\
  (readsScriptLocator d = true -> scriptLocatorValue d v = 0%Z).
Proof.
  intros Hd Hshort.
  destruct d; try contradiction; cbn [minKeyLength minValueLength] in Hshort;
    cbn [decode readsScriptLocator scriptLocatorValue];
    (split; [|first [discriminate | intros _]]);
    try reflexivity.
  all: try (unfold readCanonicalOutPoint, appendRawBlockRecord, removeRawBlockRecord,
      readRawTxRecord, readRawTxRecordBlock, fetchRawCreditAmount,
      fetchRawCreditAmountSpent, fetchRawCreditAmountChange,
      fetchRawCreditUnspentValue, fetchRawCreditAccount, readUnspentBlock,
      readRawUnminedHash, fetchRawUnminedCreditIndex, fetchRawUnminedCreditAmount,
      fetchRawUnminedCreditAmountChange, fetchRawUnminedCreditAccount,
      fetchRawCreditScriptType, fetchRawCreditScriptOffset,
      fetchRawCreditScriptLength, fetchRawUnminedCreditScriptOffset,
      fetchRawUnminedCreditScriptLength,
      creditValueSize, unconfCreditKeySize, unconfValueSizeLegacy, unconfValueSize;
    rewrite ltb_lt_true by lia;
    reflexivity).
  - unfold fetchMinedBalance, walletdb.Get. cbn [ns_values].
    rewrite lookup_singleton_eq. cbn [default from_option id].
    destruct (Nat.eqb_spec (length v) 8); [lia|reflexivity].
  - unfold fetchBlockTime, walletdb.BucketGet. cbn [ns_buckets].
    rewrite lookup_singleton_eq. cbn [mbind result_bind].
    rewrite lookup_singleton_eq. cbn [default from_option id].
    rewrite ltb_lt_true by lia. reflexivity.
  - unfold readRawBlockRecord.
    destruct (Nat.ltb_spec (length k) 4); [reflexivity|].
    destruct Hshort as [Hshort|Hshort]; [lia|].
    rewrite ltb_lt_true by lia. reflexivity.
  - unfold creditIterator_readElem.
    destruct (Nat.ltb_spec (length k) 72); [reflexivity|].
    destruct Hshort as [Hshort|Hshort]; [lia|].
    rewrite ltb_lt_true by lia. reflexivity.
  - unfold debitIterator_readElem.
    destruct (Nat.ltb_spec (length k) 72); [reflexivity|].
    destruct Hshort as [Hshort|Hshort]; [lia|].
    rewrite ltb_lt_true by lia. reflexivity.
Qed.

End ShortInputs.

Lemma decode_short_input_witness :
  decode unit (fun _ => None) unit (fun u => u)
    dec_fetchRawCreditAmountSpent [] [x00; x00; x00]
  = Failed (storeError ErrData).
Proof.
  destruct (decode_short_input unit (fun _ => None) unit (fun u => u)
              dec_fetchRawCreditAmountSpent [] [x00; x00; x00]) as [E _].
  - discriminate.
  - right. cbn. lia.
  - exact E.
Defined.

(** A decoder that does not fail on a short input: on the empty value,
    which is shorter than the 94 bytes of a credit value,
    [fetchRawCreditScriptOffset] returns 0 and no error. *)
Lemma decode_short_input_counterexample :
  length (@nil byte) < minValueLength dec_fetchRawCreditScriptOffset /\
  decode unit (fun _ => None) unit (fun u => u)
    dec_fetchRawCreditScriptOffset [] []
  <> Failed (storeError ErrData).
Proof. split; [cbn; lia | discriminate]. Qed.

(** On a key that is not 36 bytes long [fetchMultisigOut] fails with a
    Database error, where the other decoders fail with a Data error. *)
Lemma fetchMultisigOut_short_key :
  fetchMultisigOut (make 35) (make 135) = Fail (storeError ErrDatabase).
Proof. reflexivity. Qed.

(** ** The chain height *)

Lemma int32_idemp z : int32 (int32 z) = int32 z.
Proof.
  unfold int32.
  replace (((z + 2 ^ 31) mod 2 ^ 32 - 2 ^ 31 + 2 ^ 31))%Z
    with ((z + 2 ^ 31) mod 2 ^ 32)%Z by lia.
  now rewrite Z.mod_mod by lia.
Qed.

Lemma int32_add_l a b : int32 (int32 a + b) = int32 (a + b).
Proof.
  unfold int32. f_equal.
  replace ((a + 2 ^ 31) mod 2 ^ 32 - 2 ^ 31 + b + 2 ^ 31)%Z
    with ((a + 2 ^ 31) mod 2 ^ 32 + b)%Z by lia.
  rewrite Zplus_mod_idemp_l. f_equal. lia.
Qed.

Lemma int32_small z : (- 2 ^ 31 <= z < 2 ^ 31)%Z -> int32 z = z.
Proof. intros H. unfold int32. rewrite Z.mod_small; lia. Qed.

Lemma fetchChainHeight_loop_spec ns n : forall fuel i last,
  int32 i = i ->
  (forall j, j < n ->
     exists v, existsBlockRecord ns (int32 (i + Z.of_nat j))
               = Ok (keyBlockRecord (int32 (i + Z.of_nat j)), Some v)) ->
  existsBlockRecord ns (int32 (i + Z.of_nat n))
    = Ok (keyBlockRecord (int32 (i + Z.of_nat n)), None) ->
  n < fuel ->
  fetchChainHeight_loop fuel ns i last =
    Some (Ok (match n with
              | O => last
              | S n' => int32 (i + Z.of_nat n')
              end)).
Proof.
  induction n as [|n IH]; intros fuel i last Hi Hhit Hmiss Hfuel.
  - destruct fuel as [|fuel]; [lia|]. cbn [fetchChainHeight_loop].
    rewrite Z.add_0_r, Hi in Hmiss. now rewrite Hmiss.
  - destruct fuel as [|fuel]; [lia|]. cbn [fetchChainHeight_loop].
    destruct (Hhit 0) as [v Hv]; [lia|].
    rewrite Z.add_0_r, Hi in Hv. rewrite Hv.
    rewrite (IH fuel (int32 (i + 1)) i).
    + destruct n as [|n'].
      * cbn [Z.of_nat]. now rewrite Z.add_0_r, Hi.
      * rewrite int32_add_l. do 3 f_equal. lia.
    + apply int32_idemp.
    + intros j Hj. destruct (Hhit (S j)) as [w Hw]; [lia|].
      exists w. rewrite int32_add_l.
      replace (i + 1 + Z.of_nat j)%Z with (i + Z.of_nat (S j))%Z by lia.
      exact Hw.
    + rewrite int32_add_l.
      replace (i + 1 + Z.of_nat n)%Z with (i + Z.of_nat (S n))%Z by lia.
      exact Hmiss.
    + lia.
Qed.

(** C7, as the code has it: [fetchChainHeight] probes the heights
    [from], [from+1], ... (in [int32] arithmetic) until the first height
    without a block record, [n] probes after [from].  It returns an error
    when no record was found ([n = 0]) and also when the last height found
    is 0; otherwise it returns the last height found. *)
Theorem fetchChainHeight_spec fuel ns startHeight n :
  (- 2 ^ 31 <= startHeight < 2 ^ 31)%Z ->
  (forall j, j < n ->
     exists v, existsBlockRecord ns (int32 (startHeight + Z.of_nat j))
               = Ok (keyBlockRecord (int32 (startHeight + Z.of_nat j)), Some v)) ->
  existsBlockRecord ns (int32 (startHeight + Z.of_nat n))
    = Ok (keyBlockRecord (int32 (startHeight + Z.of_nat n)), None) ->
  n < fuel ->
  fetchChainHeight fuel ns startHeight =
    Some (match n with
          | O => Fail otherError
          | S n' =>
              let last := int32 (startHeight + Z.of_nat n') in
              if (last =? 0)%Z then Fail otherError else Ok last
          end).
Proof.
  intros Hrange Hhit Hmiss Hfuel. unfold fetchChainHeight.
  rewrite (fetchChainHeight_loop_spec ns n fuel startHeight 0%Z
             (int32_small _ Hrange) Hhit Hmiss Hfuel).
  destruct n; reflexivity.
Qed.

Lemma fetchChainHeight_spec_witness :
  fetchChainHeight 10 (sampleBlocksAt [100; 101; 102]%Z) 100 = Some (Ok 102%Z).
Proof.
  rewrite (fetchChainHeight_spec 10 (sampleBlocksAt [100; 101; 102]%Z) 100 3).
  - reflexivity.
  - lia.
  - intros j Hj.
    destruct j as [|[|[|j]]]; [eexists; vm_compute; reflexivity ..|lia].
  - vm_compute. reflexivity.
  - lia.
Defined.

(** A record is found at height 0, the only probe that hits, and
    [fetchChainHeight] returns an error. *)
Lemma fetchChainHeight_genesis_counterexample :
  (exists v, existsBlockRecord (sampleBlocksAt [0%Z]) 0
             = Ok (keyBlockRecord 0, Some v)) /\
  existsBlockRecord (sampleBlocksAt [0%Z]) 1 = Ok (keyBlockRecord 1, None) /\
  fetchChainHeight 10 (sampleBlocksAt [0%Z]) 0 = Some (Fail otherError).
Proof.
  split; [eexists|split]; vm_compute; reflexivity.
Qed.

(** ** Block records: removing and appending a transaction hash *)

Lemma hashes_chunks n : forall v off,
  length v = off + 32 * n ->
  Forall (fun x => length x = 32) (readRawBlockRecord_hashes n v off) /\
  concat (readRawBlockRecord_hashes n v off) = drop off v /\
  length (readRawBlockRecord_hashes n v off) = n.
Proof.
  induction n as [|n IH]; intros v off Hlen.
  - cbn. split; [constructor|]. split; [|reflexivity].
    rewrite drop_ge by lia. reflexivity.
  - cbn [readRawBlockRecord_hashes]. unfold hashSize.
    destruct (IH v (off + 32)) as (F & C & L); [lia|].
    assert (E : copy (make 32) (drop off v) = take 32 (drop off v)).
    { unfold copy. rewrite length_make, (drop_ge (make 32)), app_nil_r;
        [reflexivity|].
      rewrite length_make, length_drop. lia. }
    rewrite E. split; [|split].
    + constructor; [|exact F]. rewrite length_take, length_drop. lia.
    + cbn [concat]. rewrite C.
      rewrite <- (take_drop 32 (drop off v)) at 2.
      rewrite drop_drop. reflexivity.
    + cbn [length]. now rewrite L.
Qed.

Lemma block_record_shape v n :
  length v = 46 + 32 * n ->
  trailingHashes v = readRawBlockRecord_hashes n v 46 /\
  v = take 46 v ++ concat (trailingHashes v) /\
  Forall (fun x => length x = 32) (trailingHashes v) /\
  length (trailingHashes v) = n.
Proof.
  intros Hlen. unfold trailingHashes.
  replace ((length v - 46) / 32) with n.
  2:{ rewrite Hlen. replace (46 + 32 * n - 46) with (n * 32) by lia.
      now rewrite Nat.div_mul by lia. }
  destruct (hashes_chunks n v 46 Hlen) as (F & C & L).
  split; [reflexivity|]. split; [|split; assumption].
  rewrite C. now rewrite take_drop.
Qed.

Lemma removeRawBlockRecord_loop_spec (h : Hash) :
  forall todo pre A Z0 v,
    v = pre ++ concat todo ->
    Forall (fun x => length x = 32) todo ->
    32 * length (filter (fun x => x <> hash_bytes h) todo) <= length Z0 ->
    removeRawBlockRecord_loop (length todo) v h (A ++ Z0) (length pre) (length A)
    = Ok (A ++ concat (filter (fun x => x <> hash_bytes h) todo)
            ++ drop (32 * length (filter (fun x => x <> hash_bytes h) todo)) Z0).
Proof.
  induction todo as [|x todo IH]; intros pre A Z0 v Hv HF Hroom.
  - cbn. now rewrite drop_0.
  - inversion HF as [|? ? Hx HF']; subst.
    cbn [length removeRawBlockRecord_loop].
    assert (Hs : slice (pre ++ concat (x :: todo)) (length pre) (length pre + 32) = x).
    { unfold slice. rewrite drop_app_length. cbn [concat].
      replace (length pre + 32 - length pre) with (length x) by lia.
      now rewrite take_app_length. }
    rewrite Hs.
    destruct (NewHash_ok x Hx) as (hx & -> & Ehx).
    cbn [mbind result_bind]. unfold IsEqual. rewrite Ehx.
    rewrite filter_cons in *.
    destruct (decide (x = hash_bytes h)) as [Heq|Hne].
    + rewrite bool_decide_eq_true_2 by exact Heq.
      rewrite decide_False in * by (intros Hc; apply Hc; exact Heq).
      replace (length pre + 32) with (length (pre ++ x))
        by (rewrite length_app; lia).
      apply (IH (pre ++ x) A Z0); [|exact HF'|exact Hroom].
      cbn [concat]. now rewrite <- app_assoc.
    + rewrite bool_decide_eq_false_2 by exact Hne.
      rewrite decide_True in * by exact Hne.
      cbn [length] in Hroom.
      destruct (Nat.ltb_spec (length (A ++ Z0)) (length A + 32)) as [Hlt|_].
      { rewrite length_app in Hlt. lia. }
      assert (Hc : copy_at (A ++ Z0) (length A) (length A + 32) x
                   = (A ++ x) ++ drop 32 Z0).
      { rewrite copy_at_exact by (rewrite ?length_app; lia).
        rewrite take_app_length.
        rewrite drop_app_ge by lia.
        replace (length A + 32 - length A) with 32 by lia.
        now rewrite <- app_assoc. }
      rewrite Hc.
      replace (length pre + 32) with (length (pre ++ x))
        by (rewrite length_app; lia).
      replace (length A + 32) with (length (A ++ x))
        by (rewrite length_app; lia).
      rewrite (IH (pre ++ x) (A ++ x) (drop 32 Z0));
        [| cbn [concat]; now rewrite <- app_assoc | exact HF'
         | rewrite length_drop; lia ].
      cbn [concat length]. rewrite drop_drop, <- !app_assoc.
      replace (32 * S (length (filter (fun x0 : bytes => x0 <> hash_bytes h) todo)))
        with (32 + 32 * length (filter (fun x0 : bytes => x0 <> hash_bytes h) todo))
        by lia.
      reflexivity.
Qed.

Lemma hashes_of_concat : forall (L : list bytes) (pre : bytes),
  Forall (fun x => length x = 32) L ->
  readRawBlockRecord_hashes (length L) (pre ++ concat L) (length pre) = L.
Proof.
  induction L as [|x L IH]; intros pre HF; [reflexivity|].
  inversion HF as [|? ? Hx HF']; subst.
  cbn [length readRawBlockRecord_hashes concat]. unfold hashSize.
  rewrite drop_app_length. f_equal.
  - unfold copy. rewrite length_make.
    replace 32 with (length x) at 1 by exact Hx.
    rewrite take_app_length.
    rewrite drop_ge, app_nil_r by (rewrite length_make, length_app; lia).
    reflexivity.
  - replace (length pre + 32) with (length (pre ++ x))
      by (rewrite length_app; lia).
    rewrite (app_assoc pre x). apply IH. exact HF'.
Qed.

Lemma length_concat_32 (L : list bytes) :
  Forall (fun x => length x = 32) L -> length (concat L) = 32 * length L.
Proof.
  induction 1 as [|x L Hx _ IH]; [reflexivity|].
  cbn [concat length]. rewrite length_app, IH. lia.
Qed.

Lemma trailingHashes_concat hdr (L : list bytes) :
  length hdr = 46 ->
  Forall (fun x => length x = 32) L ->
  trailingHashes (hdr ++ concat L) = L.
Proof.
  intros Hh HF. unfold trailingHashes.
  rewrite length_app, length_concat_32, Hh by exact HF.
  replace (46 + 32 * length L - 46) with (length L * 32) by lia.
  rewrite Nat.div_mul by lia. rewrite <- Hh. now apply hashes_of_concat.
Qed.

Lemma filter_once_length (h : bytes) (hs : list bytes) :
  length (filter (fun x => x = h) hs) = 1 ->
  S (length (filter (fun x => x <> h) hs)) = length hs /\
  filter (fun x => x <> h) hs ++ [h] ≡ₚ hs.
Proof.
  intros H1.
  assert (E : filter (fun x => x = h) hs = [h]).
  { destruct (filter (fun x => x = h) hs) as [|y [|z l]] eqn:E;
      try discriminate.
    assert (Hy : y ∈ filter (fun x => x = h) hs) by (rewrite E; left).
    apply list_elem_of_filter in Hy as [-> _]. reflexivity. }
  pose proof (filter_app_complement (fun x => x = h) hs) as P.
  rewrite E in P. split.
  - apply Permutation_length in P. exact P.
  - etransitivity; [apply Permutation_app_comm|exact P].
Qed.

Lemma Uint32_4 s : length s = 4 -> byteOrder.Uint32 s = be_decode s.
Proof. intros H. unfold byteOrder.Uint32. now rewrite firstn_all2 by lia. Qed.

Lemma PutUint32_exact v lo x :
  lo + 4 <= length v ->
  byteOrder.PutUint32 v lo x = take lo v ++ be_encode 4 x ++ drop (lo + 4) v.
Proof.
  intros H. unfold byteOrder.PutUint32.
  apply copy_at_exact; [lia|lia|]. rewrite be_encode_length. lia.
Qed.

Lemma removeRawBlockRecord_loop_at (h : Hash) todo pre A Z0 v cursor newCursor :
  cursor = length pre ->
  newCursor = length A ->
  v = pre ++ concat todo ->
  Forall (fun x => length x = 32) todo ->
  32 * length (filter (fun x => x <> hash_bytes h) todo) <= length Z0 ->
  removeRawBlockRecord_loop (length todo) v h (A ++ Z0) cursor newCursor
  = Ok (A ++ concat (filter (fun x => x <> hash_bytes h) todo)
          ++ drop (32 * length (filter (fun x => x <> hash_bytes h) todo)) Z0).
Proof. intros -> ->. apply removeRawBlockRecord_loop_spec. Qed.

Lemma removeRawBlockRecord_shape hdr (hs : list bytes) (h : Hash) :
  length hdr = 46 ->
  Forall (fun x => length x = 32) hs ->
  S (length (filter (fun x => x <> hash_bytes h) hs)) = length hs ->
  removeRawBlockRecord (hdr ++ concat hs) h =
    Ok (take 42 hdr
        ++ be_encode 4 (uint32 (byteOrder.Uint32 (drop 42 hdr) - 1))
        ++ concat (filter (fun x => x <> hash_bytes h) hs)).
Proof.
  intros Hh HF Hcount.
  set (F := filter (fun x => x <> hash_bytes h) hs) in *.
  assert (Lv : length (hdr ++ concat hs) = 46 + 32 * length hs).
  { rewrite length_app, length_concat_32, Hh by exact HF. reflexivity. }
  unfold removeRawBlockRecord. rewrite Lv.
  destruct (Nat.ltb_spec (46 + 32 * length hs) 46) as [|_]; [lia|].
  destruct (Nat.ltb_spec (46 + 32 * length hs - 32) 46) as [|_]; [lia|].
  replace ((46 + 32 * length hs - 46) / 32) with (length hs).
  2:{ replace (46 + 32 * length hs - 46) with (length hs * 32) by lia.
      now rewrite Nat.div_mul by lia. }
  assert (E0 : copy_at (make (46 + 32 * length hs - 32)) 0 46
                 (slice (hdr ++ concat hs) 0 46)
               = hdr ++ make (32 * length F)).
  { assert (Es : slice (hdr ++ concat hs) 0 46 = hdr).
    { unfold slice. rewrite drop_0. replace (46 - 0) with (length hdr) by lia.
      now rewrite take_app_length. }
    rewrite Es, copy_at_exact by (rewrite ?length_make; lia).
    rewrite take_0. cbn [app]. f_equal.
    unfold make. rewrite drop_replicate. f_equal. lia. }
  rewrite E0.
  assert (El : removeRawBlockRecord_loop (length hs) (hdr ++ concat hs) h
                 (hdr ++ make (32 * length F)) 46 46
               = Ok (hdr ++ concat F ++ drop (32 * length F) (make (32 * length F)))).
  { apply (removeRawBlockRecord_loop_at h hs hdr hdr (make (32 * length F))
             (hdr ++ concat hs) 46 46 (eq_sym Hh) (eq_sym Hh) eq_refl HF).
    fold F. rewrite length_make. lia. }
  rewrite El. cbn [mbind result_bind].
  rewrite drop_ge, app_nil_r by (rewrite length_make; lia).
  f_equal.
  assert (Es : slice (hdr ++ concat F) 42 46 = drop 42 hdr).
  { unfold slice. rewrite drop_app_le by lia.
    replace (46 - 42) with (length (drop 42 hdr)) by (rewrite length_drop; lia).
    now rewrite take_app_length. }
  rewrite Es, PutUint32_exact by (rewrite length_app; lia).
  rewrite take_app_le by lia. do 2 f_equal.
  replace (42 + 4) with (length hdr) by lia. now rewrite drop_app_length.
Qed.

Lemma appendRawBlockRecord_shape pre s rest (h : Hash) :
  length pre = 42 -> length s = 4 ->
  appendRawBlockRecord (pre ++ s ++ rest) h =
    Ok (pre ++ be_encode 4 (uint32 (be_decode s + 1)) ++ rest ++ h).
Proof.
  intros Hp Hs. unfold appendRawBlockRecord.
  destruct (Nat.ltb_spec (length (pre ++ s ++ rest)) 46) as [Hlt|_].
  { rewrite !length_app in Hlt. lia. }
  f_equal.
  assert (Es : slice ((pre ++ s ++ rest) ++ h) 42 46 = s).
  { unfold slice. rewrite <- !app_assoc.
    rewrite drop_app_length' by lia.
    now rewrite take_app_length' by lia. }
  rewrite Es, (Uint32_4 s Hs).
  rewrite PutUint32_exact by (rewrite !length_app; lia).
  rewrite <- !app_assoc. rewrite take_app_length' by lia.
  do 2 f_equal. rewrite (app_assoc pre s).
  now rewrite drop_app_length' by (rewrite length_app; lia).
Qed.

(** C5: for a well-formed block-record value [v] (46 + 32·n bytes, with
    [n_tx = n]) in which the hash [h] occurs exactly once among the
    trailing hashes, appending [h] to the value with [h] removed gives a
    value whose first 46 bytes (the header, [n_tx] included) are those of
    [v] and whose trailing hashes are a permutation of those of [v]: the
    other hashes in their order, followed by [h]. *)
Theorem append_remove_block_record v (h : Hash) n :
  length v = 46 + 32 * n ->
  byteOrder.Uint32 (slice v 42 46) = Z.of_nat n ->
  length (filter (fun x => x = hash_bytes h) (trailingHashes v)) = 1 ->
  exists v',
    (w ← removeRawBlockRecord v h; appendRawBlockRecord w h) = Ok v' /\
    length v' = length v /\
    take 46 v' = take 46 v /\
    byteOrder.Uint32 (slice v' 42 46) = Z.of_nat n /\
    trailingHashes v' =
      filter (fun x => x <> hash_bytes h) (trailingHashes v) ++ [hash_bytes h] /\
    trailingHashes v' ≡ₚ trailingHashes v.
Proof.
  intros Hlen Hn Hone.
  destruct (block_record_shape v n Hlen) as (_ & Hv & HF & Hcount).
  destruct (filter_once_length _ _ Hone) as [HS HP].
  set (hs := trailingHashes v) in *.
  set (F := filter (fun x => x <> hash_bytes h) hs) in *.
  set (hdr := take 46 v) in *.
  assert (Hh : length hdr = 46) by (unfold hdr; rewrite length_take; lia).
  assert (HFF : Forall (fun x => length x = 32) (F ++ [hash_bytes h])).
  { apply Forall_app. split.
    - unfold F. rewrite Forall_forall in HF |- *. intros x Hx.
      apply HF. apply list_elem_of_filter in Hx. apply Hx.
    - constructor; [apply hash_length|constructor]. }
  assert (Hsplit : hdr = take 42 v ++ slice v 42 46).
  { unfold hdr, slice. rewrite <- (take_drop 42 (take 46 v)).
    rewrite take_take, skipn_firstn_comm. reflexivity. }
  assert (Ls : length (slice v 42 46) = 4) by (rewrite length_slice; lia).
  assert (Lp : length (take 42 v) = 42) by (rewrite length_take; lia).
  assert (Ed : drop 42 hdr = slice v 42 46).
  { rewrite Hsplit. now rewrite drop_app_length' by lia. }
  assert (Et : take 42 hdr = take 42 v).
  { rewrite Hsplit. now rewrite take_app_length' by lia. }
  assert (Hn32 : (Z.of_nat n < 2 ^ 32)%Z).
  { rewrite <- Hn, (Uint32_4 _ Ls).
    pose proof (be_decode_range (slice v 42 46)) as R. rewrite Ls in R.
    exact (proj2 R). }
  assert (Hnpos : 1 <= n) by lia.
  exists (hdr ++ concat (F ++ [hash_bytes h])).
  assert (Lv' : length (hdr ++ concat (F ++ [hash_bytes h])) = 46 + 32 * n).
  { rewrite length_app, length_concat_32, Hh, length_app by exact HFF.
    cbn [length]. lia. }
  split; [|split; [|split; [|split; [|split]]]].
  - rewrite Hv at 1. rewrite (removeRawBlockRecord_shape hdr hs h Hh HF HS).
    cbn [mbind result_bind]. fold F.
    rewrite Et, Ed, Hn.
    rewrite appendRawBlockRecord_shape by (rewrite ?be_encode_length; lia).
    f_equal. rewrite be_decode_encode.
    change (256 ^ Z.of_nat 4)%Z with (2 ^ 32)%Z. unfold uint32.
    rewrite Z.mod_mod by lia.
    rewrite (Z.mod_small (Z.of_nat n - 1)) by lia.
    replace (Z.of_nat n - 1 + 1)%Z with (Z.of_nat n) by lia.
    rewrite Z.mod_small by lia.
    assert (Ee : be_encode 4 (Z.of_nat n) = slice v 42 46).
    { rewrite <- Hn, (Uint32_4 _ Ls).
      pose proof (be_encode_decode (slice v 42 46)) as E.
      rewrite Ls in E. exact E. }
    rewrite Ee.
    rewrite Hsplit, <- !app_assoc. do 2 f_equal.
    rewrite concat_app. cbn [concat]. now rewrite app_nil_r.
  - rewrite Lv'. lia.
  - rewrite take_app_length' by lia. reflexivity.
  - unfold slice. rewrite drop_app_le by lia.
    rewrite Ed. fold (slice v 42 46).
    rewrite take_app_length' by lia.
    exact Hn.
  - apply trailingHashes_concat; assumption.
  - rewrite trailingHashes_concat by assumption. exact HP.
Qed.

Lemma append_remove_block_record_witness :
  exists v',
    (w ← removeRawBlockRecord sampleBlockValue (sampleHash x02);
     appendRawBlockRecord w (sampleHash x02)) = Ok v' /\
    length v' = length sampleBlockValue /\
    take 46 v' = take 46 sampleBlockValue /\
    byteOrder.Uint32 (slice v' 42 46) = Z.of_nat 3 /\
    trailingHashes v' =
      filter (fun x => x <> hash_bytes (sampleHash x02))
        (trailingHashes sampleBlockValue) ++ [hash_bytes (sampleHash x02)] /\
    trailingHashes v' ≡ₚ trailingHashes sampleBlockValue.
Proof.
  apply (append_remove_block_record sampleBlockValue (sampleHash x02) 3);
    vm_compute; reflexivity.
Defined.

(** ** The order of keys and the latest transaction record *)

Lemma byte_to_Z_inj x y : byte_to_Z x = byte_to_Z y -> x = y.
Proof.
  intros H. rewrite <- (byte_of_to_Z x), <- (byte_of_to_Z y). now rewrite H.
Qed.

Lemma bytes_le_refl a : bytes_le a a = true.
Proof.
  induction a as [|x a IH]; [reflexivity|].
  cbn [bytes_le]. now rewrite bool_decide_eq_true_2.
Qed.

Lemma bytes_le_trans a : forall b c,
  bytes_le a b = true -> bytes_le b c = true -> bytes_le a c = true.
Proof.
  induction a as [|x a IH]; intros [|y b] [|z c]; cbn [bytes_le];
    try reflexivity; try discriminate.
  repeat case_bool_decide; subst; try congruence; intros Hab Hbc.
  - eauto.
  - apply Z.ltb_lt in Hab, Hbc.
    exfalso. lia.
  - apply Z.ltb_lt in Hab, Hbc. apply Z.ltb_lt. lia.
Qed.

Lemma bytes_le_total a : forall b, bytes_le a b = true \/ bytes_le b a = true.
Proof.
  induction a as [|x a IH]; intros [|y b]; cbn [bytes_le]; auto.
  repeat case_bool_decide; subst; try congruence; auto.
  destruct (Z.ltb_spec (byte_to_Z x) (byte_to_Z y)); [auto|].
  right. apply Z.ltb_lt.
  assert (byte_to_Z x <> byte_to_Z y) by (intros E; apply byte_to_Z_inj in E; auto).
  lia.
Qed.

Lemma HasPrefix_le p : forall k, HasPrefix k p = true -> bytes_le p k = true.
Proof.
  induction p as [|x p IH]; intros [|y k]; cbn [HasPrefix bytes_le];
    try reflexivity; try discriminate.
  intros H. apply andb_true_iff in H as [H1 H2].
  apply bool_decide_eq_true in H1. subst.
  rewrite bool_decide_eq_true_2 by reflexivity. auto.
Qed.

Lemma HasPrefix_between p : forall k1 k2,
  bytes_le p k1 = true -> bytes_le k1 k2 = true ->
  HasPrefix k2 p = true -> HasPrefix k1 p = true.
Proof.
  induction p as [|x p IH]; intros [|y k1] [|z k2]; cbn [HasPrefix bytes_le];
    try reflexivity; try discriminate.
  intros Hp1 H12 Hp2. apply andb_true_iff in Hp2 as [Hz Hp2].
  apply bool_decide_eq_true in Hz. subst z.
  revert Hp1 H12. repeat case_bool_decide; subst; try congruence;
    intros Hp1 H12.
  - rewrite andb_true_l. eauto.
  - apply Z.ltb_lt in H12. apply Z.ltb_lt in Hp1. exfalso. lia.
Qed.

Lemma HasPrefix_split p : forall k,
  HasPrefix k p = true -> k = p ++ drop (length p) k.
Proof.
  induction p as [|x p IH]; intros [|y k]; cbn [HasPrefix];
    try reflexivity; try discriminate.
  intros H. apply andb_true_iff in H as [H1 H2].
  apply bool_decide_eq_true in H1. subst.
  cbn [length drop app]. f_equal. auto.
Qed.

Lemma bytes_le_app p a b : bytes_le (p ++ a) (p ++ b) = bytes_le a b.
Proof.
  induction p as [|x p IH]; [reflexivity|].
  cbn [app bytes_le]. now rewrite bool_decide_eq_true_2.
Qed.

Lemma bytes_le_take n : forall a b,
  bytes_le a b = true -> bytes_le (take n a) (take n b) = true.
Proof.
  induction n as [|n IH]; intros [|x a] [|y b]; cbn [take bytes_le firstn];
    try reflexivity; try discriminate.
  case_bool_decide; auto.
Qed.

Lemma be_decode_cons x a :
  be_decode (x :: a) = (byte_to_Z x * 256 ^ Z.of_nat (length a) + be_decode a)%Z.
Proof.
  change (x :: a) with ([x] ++ a). rewrite be_decode_app.
  unfold be_decode at 1. cbn [be_decode_from]. lia.
Qed.

Lemma bytes_le_be_decode a : forall b,
  length a = length b -> bytes_le a b = true ->
  (be_decode a <= be_decode b)%Z.
Proof.
  induction a as [|x a IH]; intros [|y b] Hlen; try discriminate Hlen.
  - intros _. reflexivity.
  - cbn [bytes_le]. injection Hlen as Hlen.
    rewrite !be_decode_cons, Hlen.
    pose proof (be_decode_range a) as Ra. pose proof (be_decode_range b) as Rb.
    rewrite Hlen in Ra.
    case_bool_decide as E.
    + subst. intros H. apply IH in H; [lia|exact Hlen].
    + intros H. apply Z.ltb_lt in H.
      assert (byte_to_Z x + 1 <= byte_to_Z y)%Z by lia.
      nia.
Qed.

#[local] Instance entry_le_trans : Transitive walletdb.entry_le.
Proof.
  intros x y z Hxy Hyz. unfold walletdb.entry_le in *.
  apply Is_true_true. apply Is_true_true in Hxy, Hyz.
  eapply bytes_le_trans; eassumption.
Qed.

#[local] Instance entry_le_total : Total walletdb.entry_le.
Proof.
  intros x y. unfold walletdb.entry_le.
  destruct (bytes_le_total x.1 y.1) as [H|H]; [left|right];
    now apply Is_true_true.
Qed.

Lemma entries_sorted (b : gmap bytes bytes) :
  StronglySorted walletdb.entry_le (walletdb.entries b).
Proof. unfold walletdb.entries. apply (StronglySorted_merge_sort walletdb.entry_le). Qed.

Lemma elem_of_entries (b : gmap bytes bytes) k v :
  (k, v) ∈ walletdb.entries b <-> b !! k = Some v.
Proof.
  unfold walletdb.entries.
  rewrite (merge_sort_Permutation walletdb.entry_le).
  apply elem_of_map_to_list.
Qed.

Lemma seek_from_spec p : forall l,
  StronglySorted walletdb.entry_le l ->
  StronglySorted walletdb.entry_le (walletdb.seek_from p l) /\
  (forall e, e ∈ walletdb.seek_from p l -> e ∈ l /\ bytes_le p e.1 = true) /\
  (forall e, e ∈ l -> e ∈ walletdb.seek_from p l \/ bytes_le p e.1 = false).
Proof.
  induction l as [|e l IH]; intros HS; cbn [walletdb.seek_from].
  - split; [constructor|]. split; intros e He; inversion He.
  - apply StronglySorted_inv in HS as [HS Hall].
    unfold bytes_lt. destruct (bytes_le p e.1) eqn:Ep; cbn [negb].
    + split; [constructor; assumption|]. split.
      * intros e' He'. split; [exact He'|].
        apply elem_of_cons in He' as [->|He']; [exact Ep|].
        rewrite Forall_forall in Hall. specialize (Hall e' He').
        apply Is_true_true in Hall. eapply bytes_le_trans; eassumption.
      * intros e' He'. left. exact He'.
    + destruct (IH HS) as (S1 & S2 & S3). split; [exact S1|]. split.
      * intros e' He'. destruct (S2 e' He') as [Hin Hle].
        split; [now apply elem_of_cons; right|exact Hle].
      * intros e' He'. apply elem_of_cons in He' as [->|He'].
        -- right. exact Ep.
        -- apply S3. exact He'.
Qed.

Lemma latestTxRecord_loop_spec p : forall c last,
  StronglySorted walletdb.entry_le c ->
  (forall e, e ∈ c -> bytes_le p e.1 = true) ->
  (latestTxRecord_loop p c last = last /\
   forall e, e ∈ c -> HasPrefix e.1 p = false) \/
  (exists e, latestTxRecord_loop p c last = Some e /\ e ∈ c /\
     HasPrefix e.1 p = true /\
     forall e', e' ∈ c -> HasPrefix e'.1 p = true -> bytes_le e'.1 e.1 = true).
Proof.
  induction c as [|[ck cv] c IH]; intros last HS Hge; cbn [latestTxRecord_loop].
  - left. split; [reflexivity|]. intros e He. inversion He.
  - apply StronglySorted_inv in HS as [HS Hall].
    rewrite Forall_forall in Hall.
    destruct (HasPrefix ck p) eqn:Hp.
    + right.
      destruct (IH (Some (ck, cv)) HS) as [[E Hnone]|(e & E & Hin & Hpe & Hmax)].
      { intros e He. apply Hge. now apply elem_of_cons; right. }
      * exists (ck, cv). split; [exact E|]. split; [apply elem_of_cons; now left|].
        split; [exact Hp|].
        intros e' He' Hpe'. apply elem_of_cons in He' as [->|He'].
        -- apply bytes_le_refl.
        -- rewrite (Hnone e' He') in Hpe'. discriminate.
      * exists e. split; [exact E|]. split; [apply elem_of_cons; now right|].
        split; [exact Hpe|].
        intros e' He' Hpe'. apply elem_of_cons in He' as [->|He'].
        -- apply Is_true_true. exact (Hall e Hin).
        -- apply Hmax; assumption.
    + left. split; [reflexivity|].
      intros e He. apply elem_of_cons in He as [->|He]; [exact Hp|].
      destruct (HasPrefix e.1 p) eqn:Hpe; [|reflexivity].
      exfalso.
      assert (Hck : HasPrefix ck p = true).
      { apply (HasPrefix_between p ck e.1).
        - apply (Hge (ck, cv)). apply elem_of_cons. now left.
        - apply Is_true_true. exact (Hall e He).
        - exact Hpe. }
      congruence.
Qed.

(** The encoded block height of a transaction-record key. *)
Lemma height_le_of_key_le (p : Hash) k k' :
  HasPrefix k p = true -> HasPrefix k' p = true ->
  bytes_le k' k = true ->
  36 <= length k -> 36 <= length k' ->
  (byteOrder.Uint32 (slice k' 32 36) <= byteOrder.Uint32 (slice k 32 36))%Z.
Proof.
  intros Hk Hk' Hle Lk Lk'.
  apply HasPrefix_split in Hk, Hk'. rewrite hash_length in Hk, Hk'.
  rewrite Hk, Hk' in Hle. rewrite bytes_le_app in Hle.
  unfold slice. change (36 - 32) with 4.
  assert (L4 : forall x : bytes,
             36 <= length x -> length (take 4 (drop 32 x)) = 4).
  { intros x Hx. rewrite length_take, length_drop. lia. }
  rewrite !Uint32_4 by (apply L4; assumption).
  apply bytes_le_be_decode.
  - rewrite !L4 by assumption. reflexivity.
  - apply bytes_le_take. exact Hle.
Qed.

(** C8: [latestTxRecord] returns the record of the mined-tx bucket whose
    key has the 32-byte hash as prefix and is greatest in byte order; with
    the height big-endian in bytes 32..36, no record of that hash has a
    greater encoded height.  It returns the pair of nils exactly when no key
    has the prefix. *)
Theorem latestTxRecord_spec (ns : Namespace) (b : gmap bytes bytes)
    (txHash : Hash) :
  ns_buckets ns !! bucketTxRecords = Some b ->
  exists r,
    latestTxRecord ns txHash = Ok r /\
    (r = None <->
       forall k v, b !! k = Some v -> HasPrefix k txHash = false) /\
    (forall k v, r = Some (k, v) ->
       b !! k = Some v /\
       HasPrefix k txHash = true /\
       forall k' v', b !! k' = Some v' -> HasPrefix k' txHash = true ->
         bytes_le k' k = true /\
         (36 <= length k -> 36 <= length k' ->
          (byteOrder.Uint32 (slice k' 32 36)
           <= byteOrder.Uint32 (slice k 32 36))%Z)).
Proof.
  intros Hb. unfold latestTxRecord, walletdb.Bucket, walletdb.Seek.
  rewrite Hb. cbn [mbind result_bind].
  eexists. split; [reflexivity|].
  destruct (seek_from_spec txHash (walletdb.entries b) (entries_sorted b))
    as (S1 & S2 & S3).
  assert (Hmatch : forall k v, b !! k = Some v -> HasPrefix k txHash = true ->
            (k, v) ∈ walletdb.seek_from txHash (walletdb.entries b)).
  { intros k v Hkv Hp. apply elem_of_entries in Hkv.
    destruct (S3 _ Hkv) as [Hin|Hlt]; [exact Hin|].
    apply HasPrefix_le in Hp. cbn in Hlt. congruence. }
  destruct (latestTxRecord_loop_spec txHash _ None S1)
    as [[E Hnone]|(e & E & Hin & Hpe & Hmax)].
  { intros e He. apply (S2 e He). }
  - rewrite E. split.
    + split; [|reflexivity]. intros _ k v Hkv.
      destruct (HasPrefix k txHash) eqn:Hp; [|reflexivity].
      rewrite <- Hp. apply (Hnone (k, v)). now apply Hmatch.
    + intros k v Hr. discriminate Hr.
  - rewrite E. destruct e as [k v]. cbn [fst] in Hpe, Hmax. split.
    + split; [discriminate|]. intros Hall. exfalso.
      apply S2 in Hin as [Hin _]. apply elem_of_entries in Hin.
      rewrite (Hall k v Hin) in Hpe. discriminate.
    + intros k0 v0 Hr. injection Hr as <- <-.
      pose proof (proj1 (S2 _ Hin)) as Hin'. apply elem_of_entries in Hin'.
      split; [exact Hin'|]. split; [exact Hpe|].
      intros k' v' Hkv' Hp'.
      assert (Hle : bytes_le k' k = true).
      { apply (Hmax (k', v')); [now apply Hmatch|exact Hp']. }
      split; [exact Hle|].
      intros Lk Lk'. now apply (height_le_of_key_le txHash).
Qed.

Lemma latestTxRecord_spec_witness :
  exists r,
    latestTxRecord sampleTxRecords (sampleHash x01) = Ok r /\
    (r = None <->
       forall k v, sampleTxRecordBucket !! k = Some v ->
                   HasPrefix k (sampleHash x01) = false) /\
    (forall k v, r = Some (k, v) ->
       sampleTxRecordBucket !! k = Some v /\
       HasPrefix k (sampleHash x01) = true /\
       forall k' v', sampleTxRecordBucket !! k' = Some v' ->
         HasPrefix k' (sampleHash x01) = true ->
         bytes_le k' k = true /\
         (36 <= length k -> 36 <= length k' ->
          (byteOrder.Uint32 (slice k' 32 36)
           <= byteOrder.Uint32 (slice k 32 36))%Z)).
Proof.
  apply (latestTxRecord_spec sampleTxRecords sampleTxRecordBucket
           (sampleHash x01)).
  reflexivity.
Defined.

(** The same hash recorded at heights 100 and 120: the record of height 120
    is the latest. *)
Example latestTxRecord_two_incarnations :
  latestTxRecord sampleTxRecords (sampleHash x01)
  = Ok (Some (keyTxRecord (sampleHash x01) (mkBlock (sampleHash x0c) 120),
              sampleTxValue)).
Proof. vm_compute. reflexivity. Qed.

(** ** The mined balance *)


Lemma uint64_idemp z : uint64 (uint64 z) = uint64 z.
Proof. unfold uint64. apply Z.mod_mod. lia. Qed.





Lemma Uint64_be_encode z : byteOrder.Uint64 (be_encode 8 z) = uint64 z.
Proof.
  unfold byteOrder.Uint64.
  rewrite firstn_all2 by (rewrite be_encode_length; lia).
  apply be_decode_encode.
Qed.

Lemma PutUint64_make z : byteOrder.PutUint64 (make 8) 0 z = be_encode 8 z.
Proof. reflexivity. Qed.

Lemma fetchMinedBalance_ok ns bal :
  walletdb.Get ns rootMinedBalance = Some bal -> length bal = 8 ->
  fetchMinedBalance ns = Ok (int64 (byteOrder.Uint64 bal)).
Proof.
  intros Hg Hl. unfold fetchMinedBalance. rewrite Hg.
  change (default [] (Some bal)) with bal. rewrite Hl. reflexivity.
Qed.

Lemma putMinedBalance_ok ns amt :
  ns_writable ns = true ->
  putMinedBalance ns amt =
    Ok (mkNamespace true
          (<[rootMinedBalance := be_encode 8 (uint64 amt)]> (ns_values ns))
          (ns_buckets ns)).
Proof.
  intros Hw. unfold putMinedBalance, walletdb.Put. rewrite Hw.
  rewrite PutUint64_make. reflexivity.
Qed.










Lemma take_PutUint64_make_then v x n :
  n <= 8 -> 8 <= length v ->
  take n (byteOrder.PutUint64 v 0 x) = take n (be_encode 8 x).
Proof.
  intros Hn Hl. unfold byteOrder.PutUint64.
  rewrite copy_at_exact by (rewrite ?be_encode_length; lia).
  rewrite take_0. cbn [app].
  rewrite take_app_le by (rewrite be_encode_length; lia). reflexivity.
Qed.

Lemma get_byte_PutUint32_ge v lo x i :
  lo + 4 <= length v -> lo + 4 <= i ->
  get_byte (byteOrder.PutUint32 v lo x) i = get_byte v i.
Proof.
  intros. unfold byteOrder.PutUint32. apply get_byte_copy_at_ge; lia.
Qed.

Lemma length_valueUnspentCredit cred scrType scrLoc scrLen account :
  length (valueUnspentCredit cred scrType scrLoc scrLen account) = 94.
Proof.
  unfold valueUnspentCredit.
  destruct (cred_change cred), (cred_isCoinbase cred); len; reflexivity.
Qed.

Lemma creditAmount_valueUnspentCredit cred scrType scrLoc scrLen account :
  creditAmount (valueUnspentCredit cred scrType scrLoc scrLen account)
  = uint64 (cred_amount cred).
Proof.
  unfold creditAmount.
  rewrite <- (uint64_idemp (cred_amount cred)), <- Uint64_be_encode.
  apply Uint64_eq_take. unfold valueUnspentCredit.
  destruct (cred_change cred), (cred_isCoinbase cred);
    rewrite !take_PutUint32 by (len; lia);
    rewrite !take_set_byte by lia;
    (rewrite take_PutUint64_make_then by (len; lia));
    reflexivity.
Qed.

















(** Inserting a mined credit of 5·10^8 atoms brings the balance to 5·10^8;
    the debit that spends it brings the balance back to 0 and sets the Spent
    bit of the credit. *)
Example insert_and_spend_balance :
  fetchMinedBalance sampleCreated = Ok 0%Z /\
  fetchMinedBalance sampleInserted = Ok 500000000%Z /\
  fetchMinedBalance sampleSpent = Ok 0%Z /\
  (v ← existsRawCredit sampleSpent sampleCreditKey;
   Ok (creditSpent (default [] v))) = Ok true.
Proof. vm_compute. repeat split; reflexivity. Qed.

(** * Further properties of [db.go] *)

Lemma Uint32_be_encode z : byteOrder.Uint32 (be_encode 4 z) = uint32 z.
Proof.
  rewrite Uint32_4 by apply be_encode_length. apply be_decode_encode.
Qed.

Lemma int32_uint32 z : int32 (uint32 z) = int32 z.
Proof.
  unfold int32, uint32. rewrite Zplus_mod_idemp_l. reflexivity.
Qed.

Lemma uint32_idemp z : uint32 (uint32 z) = uint32 z.
Proof. unfold uint32. apply Z.mod_mod. lia. Qed.

Lemma be_encode_uint32 z : be_encode 4 (uint32 z) = be_encode 4 z.
Proof. apply (be_encode_mod 4 z). Qed.

Lemma be_encode_uint64 z : be_encode 8 (uint64 z) = be_encode 8 z.
Proof. apply (be_encode_mod 8 z). Qed.

(** The layout of the keys. *)
Lemma canonicalOutPoint_layout (h : Hash) index :
  canonicalOutPoint h index = hash_bytes h ++ be_encode 4 index.
Proof. explode_hash h. reflexivity. Qed.

Lemma keyTxRecord_layout (h : Hash) (block : Block) :
  keyTxRecord h block
  = hash_bytes h ++ be_encode 4 (Block_Height block)
    ++ hash_bytes (Block_Hash block).
Proof.
  rewrite <- be_encode_uint32.
  destruct block as [bh height]. explode_hash h. explode_hash bh. reflexivity.
Qed.

Lemma keyCredit_layout (h : Hash) index (block : Block) :
  keyCredit h index block = keyTxRecord h block ++ be_encode 4 index.
Proof.
  destruct block as [bh height]. explode_hash h. explode_hash bh. reflexivity.
Qed.

Lemma keyDebit_keyCredit (h : Hash) index (block : Block) :
  keyDebit h index block = keyCredit h index block.
Proof. reflexivity. Qed.

Lemma length_keyTxRecord h block : length (keyTxRecord h block) = 68.
Proof.
  rewrite keyTxRecord_layout, !length_app, !hash_length, be_encode_length.
  reflexivity.
Qed.

Lemma length_keyCredit h index block : length (keyCredit h index block) = 72.
Proof.
  rewrite keyCredit_layout, length_app, length_keyTxRecord, be_encode_length.
  reflexivity.
Qed.

Lemma length_canonicalOutPoint h index : length (canonicalOutPoint h index) = 36.
Proof.
  rewrite canonicalOutPoint_layout, length_app, hash_length, be_encode_length.
  reflexivity.
Qed.

Lemma slice_app_mid (a b c : bytes) lo hi :
  lo = length a -> hi = lo + length b -> slice (a ++ b ++ c) lo hi = b.
Proof.
  intros -> ->. unfold slice. rewrite drop_app_length.
  replace (length a + length b - length a) with (length b) by lia.
  apply take_app_length.
Qed.

Lemma slice_app_last (a b : bytes) lo hi :
  lo = length a -> hi = lo + length b -> slice (a ++ b) lo hi = b.
Proof.
  intros Ha Hb. rewrite <- (app_nil_r b) at 1. rewrite (slice_app_mid a b []); auto.
Qed.

Lemma slice_app_first (a b : bytes) hi :
  hi = length a -> slice (a ++ b) 0 hi = a.
Proof.
  intros ->. unfold slice. rewrite drop_0, Nat.sub_0_r. apply take_app_length.
Qed.

Lemma readCanonicalOutPoint_key (h : Hash) index :
  readCanonicalOutPoint (canonicalOutPoint h index)
  = Ok (mkOutPoint (hash_bytes h) (uint32 index)).
Proof.
  unfold readCanonicalOutPoint. rewrite length_canonicalOutPoint.
  cbn [Nat.ltb Nat.leb]. f_equal. rewrite canonicalOutPoint_layout. f_equal.
  - unfold copy. rewrite length_make, take_app_length' by (rewrite hash_length; lia).
    rewrite drop_ge, app_nil_r; [reflexivity|].
    rewrite length_make, length_app, hash_length. lia.
  - rewrite slice_app_last
      by (rewrite ?hash_length, ?be_encode_length; reflexivity).
    apply Uint32_be_encode.
Qed.

(** X1: [readCanonicalOutPoint] reads back the hash and the index, as a
    [uint32], that [canonicalOutPoint] serialized; so two outpoints with the
    same key have the same hash and the same index. *)
Theorem readCanonicalOutPoint_canonicalOutPoint (h h' : Hash) index index' :
  readCanonicalOutPoint (canonicalOutPoint h index)
  = Ok (mkOutPoint (hash_bytes h) (uint32 index)) /\
  (canonicalOutPoint h index = canonicalOutPoint h' index' <->
   hash_bytes h = hash_bytes h' /\ uint32 index = uint32 index').
Proof.
  split; [apply readCanonicalOutPoint_key|]. split.
  - intros E. pose proof (readCanonicalOutPoint_key h index) as R.
    rewrite E, readCanonicalOutPoint_key in R. now inversion R.
  - intros [Eh Ei]. rewrite !canonicalOutPoint_layout, Eh.
    now rewrite <- (be_encode_uint32 index), Ei, be_encode_uint32.
Qed.

Lemma Uint64_be_encode' z : byteOrder.Uint64 (be_encode 8 z) = uint64 z.
Proof. apply Uint64_be_encode. Qed.

Lemma int64_uint64 z : int64 (uint64 z) = int64 z.
Proof.
  unfold int64, uint64. rewrite Zplus_mod_idemp_l. reflexivity.
Qed.

Lemma Uint16_be_encode z : byteOrder.Uint16 (be_encode 2 z) = (z mod 2 ^ 16)%Z.
Proof.
  unfold byteOrder.Uint16.
  rewrite firstn_all2 by (rewrite be_encode_length; lia).
  apply be_decode_encode.
Qed.

Lemma valueBlockRecordEmpty_layout (block : BlockMeta) :
  valueBlockRecordEmpty block
  = hash_bytes (Block_Hash (BlockMeta_Block block))
    ++ be_encode 8 (BlockMeta_Time block)
    ++ be_encode 2 (BlockMeta_VoteBits block)
    ++ be_encode 4 0.
Proof.
  rewrite <- be_encode_uint64.
  destruct block as [[bh height] time votes]. explode_hash bh. reflexivity.
Qed.

Lemma valueBlockRecord_layout (block : BlockMeta) (txHash : Hash) :
  valueBlockRecord block txHash
  = hash_bytes (Block_Hash (BlockMeta_Block block))
    ++ be_encode 8 (BlockMeta_Time block)
    ++ be_encode 2 (BlockMeta_VoteBits block)
    ++ be_encode 4 1
    ++ hash_bytes txHash.
Proof.
  rewrite <- be_encode_uint64.
  destruct block as [[bh height] time votes].
  explode_hash bh. explode_hash txHash. reflexivity.
Qed.

(** X2: [appendRawBlockRecord] of a transaction hash to the empty record of a
    block gives the record [valueBlockRecord] makes for the block and the
    hash. *)
Theorem appendRawBlockRecord_empty (block : BlockMeta) (txHash : Hash) :
  appendRawBlockRecord (valueBlockRecordEmpty block) txHash
  = Ok (valueBlockRecord block txHash).
Proof.
  rewrite valueBlockRecordEmpty_layout, valueBlockRecord_layout.
  set (hdr := hash_bytes (Block_Hash (BlockMeta_Block block))
              ++ be_encode 8 (BlockMeta_Time block)
              ++ be_encode 2 (BlockMeta_VoteBits block)).
  assert (Lh : length hdr = 42).
  { unfold hdr. rewrite !length_app, hash_length, !be_encode_length. reflexivity. }
  replace (hash_bytes (Block_Hash (BlockMeta_Block block))
           ++ be_encode 8 (BlockMeta_Time block)
           ++ be_encode 2 (BlockMeta_VoteBits block) ++ be_encode 4 0)
    with (hdr ++ be_encode 4 0 ++ [])
    by (unfold hdr; rewrite app_nil_r, <- !app_assoc; reflexivity).
  rewrite appendRawBlockRecord_shape by (rewrite ?be_encode_length; lia).
  f_equal. unfold hdr. rewrite <- !app_assoc. reflexivity.
Qed.

Lemma copy_make_prefix (a b : bytes) n :
  length a = n -> copy (make n) (a ++ b) = a.
Proof.
  intros H. unfold copy. rewrite length_make, take_app_length' by lia.
  rewrite drop_ge, app_nil_r; [reflexivity|].
  rewrite length_make, length_app. lia.
Qed.

Lemma copy_make_exact (a : bytes) n : length a = n -> copy (make n) a = a.
Proof.
  intros H. rewrite <- (app_nil_r a) at 1. now apply copy_make_prefix.
Qed.

(** Reading a value laid out as a block record. *)
Lemma readRawBlockRecord_layout k bh t vb (hs : list bytes) :
  4 <= length k ->
  length bh = 32 -> length t = 8 -> length vb = 2 ->
  Forall (fun x => length x = 32) hs ->
  (Z.of_nat (length hs) < 2 ^ 32)%Z ->
  readRawBlockRecord k
    (bh ++ t ++ vb ++ be_encode 4 (Z.of_nat (length hs)) ++ concat hs)
  = Ok (mkBlockRecord (int32 (byteOrder.Uint32 k)) bh
          (int64 (be_decode t)) (be_decode vb) hs).
Proof.
  intros Lk Lbh Lt Lvb HF Hn.
  set (v := bh ++ t ++ vb ++ be_encode 4 (Z.of_nat (length hs)) ++ concat hs).
  assert (Lv : length v = 46 + 32 * length hs).
  { unfold v. rewrite !length_app, be_encode_length, length_concat_32 by exact HF.
    lia. }
  assert (E4 : slice v 42 46 = be_encode 4 (Z.of_nat (length hs))).
  { unfold v. rewrite !app_assoc. rewrite <- (app_assoc _ (be_encode 4 _)).
    apply slice_app_mid; rewrite ?length_app, ?be_encode_length; lia. }
  unfold readRawBlockRecord.
  destruct (Nat.ltb_spec (length k) 4) as [|_]; [lia|].
  destruct (Nat.ltb_spec (length v) 46) as [|_]; [lia|].
  rewrite E4, Uint32_be_encode. unfold uint32.
  rewrite Z.mod_small by lia. rewrite Nat2Z.id. unfold hashSize.
  destruct (Nat.ltb_spec (length v) (46 + 32 * length hs)) as [|_]; [lia|].
  f_equal. f_equal.
  - unfold v. now apply copy_make_prefix.
  - f_equal. unfold byteOrder.Uint64. f_equal.
    unfold v. rewrite (slice_app_mid bh t) by lia.
    rewrite firstn_all2 by lia. reflexivity.
  - unfold byteOrder.Uint16. f_equal.
    unfold v. rewrite (app_assoc bh t). rewrite (slice_app_mid (bh ++ t) vb)
      by (rewrite ?length_app; lia).
    rewrite firstn_all2 by lia. reflexivity.
  - unfold v. rewrite !app_assoc.
    set (hdr := ((bh ++ t) ++ vb) ++ be_encode 4 (Z.of_nat (length hs))).
    assert (Lh : length hdr = 46)
      by (unfold hdr; rewrite !length_app, be_encode_length; lia).
    rewrite <- Lh. now apply hashes_of_concat.
Qed.

(** X3: in a writable transaction with a blocks bucket, what [putBlockRecord]
    writes, [fetchBlockRecord] and [fetchBlockTime] read back under the
    height of the block: the height as an [int32], the hash, the time as an
    [int64], the vote bits as a [uint16] and the one transaction hash. *)
Theorem fetchBlockRecord_putBlockRecord (ns : Namespace) (bs : gmap bytes bytes)
    (block : BlockMeta) (txHash : Hash) :
  ns_writable ns = true ->
  ns_buckets ns !! bucketBlocks = Some bs ->
  exists ns',
    putBlockRecord ns block txHash = Ok ns' /\
    fetchBlockRecord ns' (Block_Height (BlockMeta_Block block))
    = Ok (mkBlockRecord (int32 (Block_Height (BlockMeta_Block block)))
            (hash_bytes (Block_Hash (BlockMeta_Block block)))
            (int64 (BlockMeta_Time block))
            (BlockMeta_VoteBits block mod 2 ^ 16)%Z
            [hash_bytes txHash]) /\
    fetchBlockTime ns' (Block_Height (BlockMeta_Block block))
    = Ok (int64 (BlockMeta_Time block)).
Proof.
  intros Hw Hb. unfold putBlockRecord, putRawBlockRecord, walletdb.BucketPut.
  rewrite Hb, Hw. cbn [orFail]. eexists. split; [reflexivity|].
  set (height := Block_Height (BlockMeta_Block block)).
  assert (Lk : length (keyBlockRecord height) = 4) by reflexivity.
  assert (Ek : byteOrder.Uint32 (keyBlockRecord height) = uint32 height).
  { unfold keyBlockRecord.
    replace (byteOrder.PutUint32 (make 4) 0 (uint32 height))
      with (be_encode 4 (uint32 height)) by reflexivity.
    now rewrite Uint32_be_encode, uint32_idemp. }
  split.
  - unfold fetchBlockRecord, walletdb.BucketGet. cbn [ns_buckets].
    rewrite lookup_insert_eq. cbn [mbind result_bind].
    rewrite lookup_insert_eq. change (default [] (Some ?x)) with x.
    rewrite valueBlockRecord_layout.
    pose proof (readRawBlockRecord_layout (keyBlockRecord height)
                  (hash_bytes (Block_Hash (BlockMeta_Block block)))
                  (be_encode 8 (BlockMeta_Time block))
                  (be_encode 2 (BlockMeta_VoteBits block))
                  [hash_bytes txHash]) as R.
    change (Z.of_nat (length [hash_bytes txHash])) with 1%Z in R.
    cbn [concat] in R. rewrite app_nil_r in R.
    rewrite R; rewrite ?be_encode_length, ?hash_length; try lia;
      try reflexivity.
    + rewrite Ek, int32_uint32, !be_decode_encode.
      change (256 ^ Z.of_nat 8)%Z with (2 ^ 64)%Z.
      change (256 ^ Z.of_nat 2)%Z with (2 ^ 16)%Z.
      fold (uint64 (BlockMeta_Time block)). now rewrite int64_uint64.
    + constructor; [apply hash_length|constructor].
  - unfold fetchBlockTime, walletdb.BucketGet. cbn [ns_buckets].
    rewrite lookup_insert_eq. cbn [mbind result_bind].
    rewrite lookup_insert_eq. change (default [] (Some ?x)) with x.
    rewrite valueBlockRecord_layout.
    destruct (Nat.ltb_spec
      (length (hash_bytes (Block_Hash (BlockMeta_Block block))
               ++ be_encode 8 (BlockMeta_Time block)
               ++ be_encode 2 (BlockMeta_VoteBits block)
               ++ be_encode 4 1 ++ hash_bytes txHash)) 46) as [Hlt|_].
    { rewrite !length_app, !be_encode_length, !hash_length in Hlt. lia. }
    rewrite slice_app_mid by (rewrite ?hash_length, ?be_encode_length; lia).
    now rewrite Uint64_be_encode, int64_uint64.
Qed.

Lemma fetchBlockRecord_putBlockRecord_witness :
  exists ns',
    putBlockRecord (sampleBlocksAt []) (mkBlockMeta sampleBlock 1500000000 1)
      (sampleHash x01) = Ok ns' /\
    fetchBlockRecord ns' 100
    = Ok (mkBlockRecord (int32 100) (hash_bytes (sampleHash x0b))
            (int64 1500000000) (1 mod 2 ^ 16)%Z [hash_bytes (sampleHash x01)]) /\
    fetchBlockTime ns' 100 = Ok (int64 1500000000).
Proof.
  apply (fetchBlockRecord_putBlockRecord (sampleBlocksAt []) ∅
           (mkBlockMeta sampleBlock 1500000000 1) (sampleHash x01)).
  - reflexivity.
  - apply lookup_singleton_eq.
Defined.

Lemma block_record_decompose v n :
  length v = 46 + 32 * n ->
  byteOrder.Uint32 (slice v 42 46) = Z.of_nat n ->
  exists bh t vb,
    v = bh ++ t ++ vb ++ be_encode 4 (Z.of_nat (length (trailingHashes v)))
        ++ concat (trailingHashes v) /\
    length bh = 32 /\ length t = 8 /\ length vb = 2 /\
    Forall (fun x => length x = 32) (trailingHashes v) /\
    length (trailingHashes v) = n /\
    (Z.of_nat n < 2 ^ 32)%Z.
Proof.
  intros Hlen Hn.
  destruct (block_record_shape v n Hlen) as (_ & Hv & HF & Hcount).
  assert (Ls : length (slice v 42 46) = 4) by (rewrite length_slice; lia).
  assert (Hn32 : (Z.of_nat n < 2 ^ 32)%Z).
  { rewrite <- Hn, (Uint32_4 _ Ls).
    pose proof (be_decode_range (slice v 42 46)) as R. rewrite Ls in R.
    exact (proj2 R). }
  assert (Ee : be_encode 4 (Z.of_nat n) = slice v 42 46).
  { rewrite <- Hn, (Uint32_4 _ Ls).
    pose proof (be_encode_decode (slice v 42 46)) as E.
    rewrite Ls in E. exact E. }
  exists (take 32 v), (slice v 32 40), (slice v 40 42).
  rewrite Hcount, Ee.
  split; [|repeat split; try assumption;
           rewrite ?length_take, ?length_slice; lia].
  rewrite Hv at 1. rewrite !app_assoc. f_equal.
  unfold slice. cbn [Nat.sub].
  rewrite <- (take_drop 32 (take 46 v)) at 1.
  rewrite take_take, <- !app_assoc. f_equal.
  rewrite skipn_firstn_comm. cbn [Nat.sub].
  rewrite <- (take_drop 8 (take 14 (drop 32 v))) at 1.
  rewrite take_take. f_equal.
  rewrite skipn_firstn_comm, drop_drop. cbn [Nat.sub Nat.add].
  rewrite <- (take_drop 2 (take 6 (drop 40 v))) at 1.
  rewrite take_take. f_equal.
  rewrite skipn_firstn_comm, drop_drop. reflexivity.
Qed.

(** X4: appending a transaction hash to a well-formed record adds it at the
    end of the list [readRawBlockRecord] returns and changes nothing else. *)
Theorem readRawBlockRecord_append k v (h : Hash) n :
  4 <= length k ->
  length v = 46 + 32 * n ->
  byteOrder.Uint32 (slice v 42 46) = Z.of_nat n ->
  (Z.of_nat n + 1 < 2 ^ 32)%Z ->
  exists r v',
    readRawBlockRecord k v = Ok r /\
    br_transactions r = trailingHashes v /\
    appendRawBlockRecord v h = Ok v' /\
    readRawBlockRecord k v'
    = Ok (mkBlockRecord (br_Height r) (br_Hash r) (br_Time r) (br_VoteBits r)
            (br_transactions r ++ [hash_bytes h])).
Proof.
  intros Lk Hlen Hn Hmax.
  destruct (block_record_decompose v n Hlen Hn)
    as (bh & t & vb & Hv & Lbh & Lt & Lvb & HF & Hcount & Hn32).
  set (hs := trailingHashes v) in *.
  eexists _, _. split; [|split; [|split]].
  - rewrite Hv. apply readRawBlockRecord_layout; try assumption.
    rewrite Hcount. exact Hn32.
  - reflexivity.
  - rewrite Hv. rewrite !app_assoc.
    rewrite <- (app_assoc _ (be_encode 4 _)).
    apply appendRawBlockRecord_shape;
      rewrite ?length_app, ?be_encode_length; lia.
  - cbn [br_Height br_Hash br_Time br_VoteBits br_transactions].
    rewrite be_decode_encode.
    change (256 ^ Z.of_nat 4)%Z with (2 ^ 32)%Z.
    rewrite Hcount, (Z.mod_small (Z.of_nat n)) by lia.
    unfold uint32. rewrite Z.mod_small by lia.
    replace (Z.of_nat n + 1)%Z with (Z.of_nat (length (hs ++ [hash_bytes h])))
      by (rewrite length_app, Hcount; cbn [length]; lia).
    replace (concat hs ++ hash_bytes h) with (concat (hs ++ [hash_bytes h]))
      by (rewrite concat_app; cbn [concat]; now rewrite app_nil_r).
    rewrite <- !app_assoc.
    apply readRawBlockRecord_layout; try assumption.
    + apply Forall_app. split; [exact HF|].
      constructor; [apply hash_length|constructor].
    + rewrite length_app, Hcount. cbn [length]. lia.
Qed.

Lemma readRawBlockRecord_append_witness :
  exists r v',
    readRawBlockRecord (keyBlockRecord 100) sampleBlockValue = Ok r /\
    br_transactions r = trailingHashes sampleBlockValue /\
    appendRawBlockRecord sampleBlockValue (sampleHash x04) = Ok v' /\
    readRawBlockRecord (keyBlockRecord 100) v'
    = Ok (mkBlockRecord (br_Height r) (br_Hash r) (br_Time r) (br_VoteBits r)
            (br_transactions r ++ [hash_bytes (sampleHash x04)])).
Proof.
  apply (readRawBlockRecord_append (keyBlockRecord 100) sampleBlockValue
           (sampleHash x04) 3).
  - vm_compute. lia.
  - reflexivity.
  - reflexivity.
  - reflexivity.
Defined.

Lemma removeRawBlockRecord_loop_panic (h : Hash) :
  forall todo pre A Z0 v,
    v = pre ++ concat todo ->
    Forall (fun x => length x = 32) todo ->
    length Z0 < 32 * length (filter (fun x => x <> hash_bytes h) todo) ->
    removeRawBlockRecord_loop (length todo) v h (A ++ Z0) (length pre) (length A)
    = Panic.
Proof.
  induction todo as [|x todo IH]; intros pre A Z0 v Hv HF Hroom.
  - cbn in Hroom. lia.
  - inversion HF as [|? ? Hx HF']; subst.
    cbn [length removeRawBlockRecord_loop].
    assert (Hs : slice (pre ++ concat (x :: todo)) (length pre) (length pre + 32) = x).
    { cbn [concat]. apply slice_app_mid; lia. }
    rewrite Hs.
    destruct (NewHash_ok x Hx) as (hx & -> & Ehx).
    cbn [mbind result_bind]. unfold IsEqual. rewrite Ehx.
    rewrite filter_cons in Hroom.
    destruct (decide (x = hash_bytes h)) as [Heq|Hne].
    + rewrite bool_decide_eq_true_2 by exact Heq.
      rewrite decide_False in Hroom by (intros Hc; apply Hc; exact Heq).
      replace (length pre + 32) with (length (pre ++ x))
        by (rewrite length_app; lia).
      apply (IH (pre ++ x) A Z0); [|exact HF'|exact Hroom].
      cbn [concat]. now rewrite <- app_assoc.
    + rewrite bool_decide_eq_false_2 by exact Hne.
      rewrite decide_True in Hroom by exact Hne.
      cbn [length] in Hroom.
      destruct (Nat.ltb_spec (length (A ++ Z0)) (length A + 32)) as [Hlt|Hge];
        [reflexivity|].
      rewrite length_app in Hge.
      assert (Hc : copy_at (A ++ Z0) (length A) (length A + 32) x
                   = (A ++ x) ++ drop 32 Z0).
      { rewrite copy_at_exact by (rewrite ?length_app; lia).
        rewrite take_app_length.
        rewrite drop_app_ge by lia.
        replace (length A + 32 - length A) with 32 by lia.
        now rewrite <- app_assoc. }
      rewrite Hc.
      replace (length pre + 32) with (length (pre ++ x))
        by (rewrite length_app; lia).
      replace (length A + 32) with (length (A ++ x))
        by (rewrite length_app; lia).
      apply (IH (pre ++ x) (A ++ x) (drop 32 Z0));
        [cbn [concat]; now rewrite <- app_assoc | exact HF'
        | rewrite length_drop; lia ].
Qed.

Lemma removeRawBlockRecord_loop_panic_at (h : Hash) todo pre A Z0 v c nc :
  c = length pre -> nc = length A ->
  v = pre ++ concat todo ->
  Forall (fun x => length x = 32) todo ->
  length Z0 < 32 * length (filter (fun x => x <> hash_bytes h) todo) ->
  removeRawBlockRecord_loop (length todo) v h (A ++ Z0) c nc = Panic.
Proof. intros -> ->. apply removeRawBlockRecord_loop_panic. Qed.

Lemma filter_absent (h : bytes) (hs : list bytes) :
  h ∉ hs -> filter (fun x => x <> h) hs = hs.
Proof.
  induction hs as [|x hs IH]; intros Hn; [reflexivity|].
  rewrite filter_cons. apply not_elem_of_cons in Hn as [Hx Hn].
  rewrite decide_True by (intros E; apply Hx; now symmetry).
  f_equal. now apply IH.
Qed.

(** X5: removing a hash from a well-formed record that does not list it
    panics: the new value has room for one hash less than the record has. *)
Theorem removeRawBlockRecord_absent v (h : Hash) n :
  length v = 46 + 32 * n ->
  hash_bytes h ∉ trailingHashes v ->
  removeRawBlockRecord v h = Panic.
Proof.
  intros Hlen Habs.
  destruct (block_record_shape v n Hlen) as (_ & Hv & HF & Hcount).
  set (hs := trailingHashes v) in *. set (hdr := take 46 v) in *.
  assert (Hh : length hdr = 46) by (unfold hdr; rewrite length_take; lia).
  unfold removeRawBlockRecord. rewrite Hlen.
  destruct (Nat.ltb_spec (46 + 32 * n) 46) as [|_]; [lia|].
  destruct (Nat.ltb_spec (46 + 32 * n - 32) 46) as [|Hge]; [reflexivity|].
  replace ((46 + 32 * n - 46) / 32) with (length hs).
  2:{ replace (46 + 32 * n - 46) with (n * 32) by lia.
      rewrite Nat.div_mul by lia. exact Hcount. }
  assert (E0 : copy_at (make (46 + 32 * n - 32)) 0 46 (slice v 0 46)
               = hdr ++ make (32 * (n - 1))).
  { assert (Es : slice v 0 46 = hdr) by (unfold slice; now rewrite drop_0).
    rewrite Es, copy_at_exact by (rewrite ?length_make; lia).
    rewrite take_0. cbn [app]. f_equal.
    unfold make. rewrite drop_replicate. f_equal. lia. }
  rewrite E0.
  rewrite (removeRawBlockRecord_loop_panic_at h hs hdr hdr (make (32 * (n - 1)))
             v 46 46); try reflexivity; try lia; try assumption.
  rewrite (filter_absent _ _ Habs), length_make, Hcount. lia.
Qed.

Lemma removeRawBlockRecord_absent_witness :
  removeRawBlockRecord sampleBlockValue (sampleHash x04) = Panic.
Proof.
  apply (removeRawBlockRecord_absent sampleBlockValue (sampleHash x04) 3).
  - reflexivity.
  - refine (bool_decide_unpack _ _). vm_compute. exact I.
Defined.

Lemma be_decode_inj a b :
  length a = length b -> be_decode a = be_decode b -> a = b.
Proof.
  intros Hl Hd. rewrite <- (be_encode_decode a), <- (be_encode_decode b).
  now rewrite Hl, Hd.
Qed.

Lemma bytes_le_iff_be_decode a b :
  length a = length b ->
  bytes_le a b = true <-> (be_decode a <= be_decode b)%Z.
Proof.
  intros Hl. split; [now apply bytes_le_be_decode|].
  intros Hd. destruct (bytes_le_total a b) as [H|H]; [exact H|].
  apply bytes_le_be_decode in H; [|now symmetry].
  assert (a = b) by (apply be_decode_inj; [exact Hl|lia]).
  subst. apply bytes_le_refl.
Qed.

Lemma bytes_le_be_encode n x y :
  bytes_le (be_encode n x) (be_encode n y) = true
  <-> (x mod 256 ^ Z.of_nat n <= y mod 256 ^ Z.of_nat n)%Z.
Proof.
  rewrite bytes_le_iff_be_decode by now rewrite !be_encode_length.
  now rewrite !be_decode_encode.
Qed.

Lemma keyBlockRecord_layout height :
  keyBlockRecord height = be_encode 4 height.
Proof. rewrite <- be_encode_uint32. reflexivity. Qed.

(** X6: block keys are ordered as the heights read as [uint32], and two
    heights have the same key only if they are the same [uint32]. *)
Theorem keyBlockRecord_order h1 h2 :
  (bytes_le (keyBlockRecord h1) (keyBlockRecord h2) = true
   <-> (uint32 h1 <= uint32 h2)%Z) /\
  (keyBlockRecord h1 = keyBlockRecord h2 <-> uint32 h1 = uint32 h2).
Proof.
  rewrite !keyBlockRecord_layout. split.
  - apply (bytes_le_be_encode 4).
  - split; intros H.
    + apply (f_equal be_decode) in H. now rewrite !be_decode_encode in H.
    + rewrite <- (be_encode_uint32 h1), <- (be_encode_uint32 h2). now rewrite H.
Qed.

(** X7: [readRawTxRecordBlock] reads back from the key of a transaction record
    the block [keyTxRecord] was given: its height as an [int32] and its hash. *)
Theorem readRawTxRecordBlock_keyTxRecord (h : Hash) (block : Block) :
  readRawTxRecordBlock (keyTxRecord h block)
  = Ok (int32 (Block_Height block), hash_bytes (Block_Hash block)).
Proof.
  unfold readRawTxRecordBlock. rewrite length_keyTxRecord.
  cbn [Nat.ltb Nat.leb]. rewrite keyTxRecord_layout. f_equal. f_equal.
  - rewrite slice_app_mid by (rewrite ?hash_length, ?be_encode_length; lia).
    now rewrite Uint32_be_encode, int32_uint32.
  - rewrite (app_assoc (hash_bytes h)).
    rewrite slice_app_last
      by (rewrite ?length_app, ?hash_length, ?be_encode_length; lia).
    apply copy_make_exact, hash_length.
Qed.

Lemma valueUnspent_layout (block : Block) :
  valueUnspent block
  = be_encode 4 (Block_Height block) ++ hash_bytes (Block_Hash block).
Proof.
  rewrite <- be_encode_uint32.
  destruct block as [bh height]. explode_hash bh. reflexivity.
Qed.

(** X8: the extractors of a credit key give back what [keyCredit] was given: the
    transaction hash, the key of the transaction record, the block, the
    height and the output index; [fetchRawCreditUnspentValue] gives the
    value of the unspent index for the block, and the key of the transaction
    record is a prefix of the key of the credit. *)
Theorem extractRawCredit_keyCredit (h : Hash) index (block : Block) :
  extractRawCreditTxHash (keyCredit h index block) = Ok (hash_bytes h) /\
  extractRawCreditTxRecordKey (keyCredit h index block)
    = Ok (keyTxRecord h block) /\
  extractRawCreditBlock (keyCredit h index block)
    = Ok (hash_bytes (Block_Hash block), int32 (Block_Height block)) /\
  extractRawCreditHeight (keyCredit h index block)
    = Ok (int32 (Block_Height block)) /\
  extractRawCreditIndex (keyCredit h index block) = Ok (uint32 index) /\
  fetchRawCreditUnspentValue (keyCredit h index block)
    = Ok (valueUnspent block) /\
  HasPrefix (keyCredit h index block) (keyTxRecord h block) = true.
Proof.
  assert (E32 : slice (keyCredit h index block) 32 36
                = be_encode 4 (Block_Height block)).
  { rewrite keyCredit_layout, keyTxRecord_layout, <- !app_assoc.
    apply slice_app_mid; rewrite ?hash_length, ?be_encode_length; lia. }
  assert (Ebh : slice (keyCredit h index block) 36 68
                = hash_bytes (Block_Hash block)).
  { rewrite keyCredit_layout, keyTxRecord_layout, <- !app_assoc.
    rewrite (app_assoc (hash_bytes h)).
    apply slice_app_mid;
      rewrite ?length_app, ?hash_length, ?be_encode_length; lia. }
  unfold extractRawCreditTxHash, extractRawCreditTxRecordKey,
    extractRawCreditBlock, extractRawCreditHeight, extractRawCreditIndex,
    fetchRawCreditUnspentValue.
  rewrite !length_keyCredit. cbn [Nat.ltb Nat.leb].
  rewrite E32, Ebh, Uint32_be_encode, int32_uint32.
  repeat split.
  - f_equal. rewrite keyCredit_layout, keyTxRecord_layout, <- !app_assoc.
    apply slice_app_first. now rewrite hash_length.
  - f_equal. rewrite keyCredit_layout. apply slice_app_first.
    now rewrite length_keyTxRecord.
  - f_equal. rewrite keyCredit_layout.
    rewrite slice_app_last
      by (rewrite ?length_keyTxRecord, ?be_encode_length; lia).
    apply Uint32_be_encode.
  - f_equal. rewrite keyCredit_layout, keyTxRecord_layout, <- !app_assoc.
    rewrite (app_assoc (be_encode 4 _)).
    rewrite slice_app_mid
      by (rewrite ?length_app, ?hash_length, ?be_encode_length; lia).
    now rewrite valueUnspent_layout.
  - rewrite keyCredit_layout.
    generalize (keyTxRecord h block). intros p.
    induction p as [|x p IH]; [reflexivity|].
    cbn [app HasPrefix]. now rewrite bool_decide_eq_true_2, IH.
Qed.

(** X9: the credits of one transaction in one block are ordered by output
    index. *)
Theorem keyCredit_order (h : Hash) (block : Block) i j :
  bytes_le (keyCredit h i block) (keyCredit h j block) = true
  <-> (uint32 i <= uint32 j)%Z.
Proof.
  rewrite !keyCredit_layout, bytes_le_app. apply (bytes_le_be_encode 4).
Qed.

Lemma valueUnspentCredit_layout cred scrType scrLoc scrLen account :
  valueUnspentCredit cred scrType scrLoc scrLen account
  = be_encode 8 (cred_amount cred)
    ++ [creditFlags (cred_opCode cred) (cred_change cred) (cred_isCoinbase cred)]
    ++ make 72
    ++ [byte_or scrType accountExistsMask]
    ++ be_encode 4 scrLoc ++ be_encode 4 scrLen ++ be_encode 4 account.
Proof.
  rewrite <- be_encode_uint64.
  destruct cred as [amount change op coinbase].
  destruct change, coinbase; reflexivity.
Qed.

Lemma creditFlags_read op change coinbase :
  (185 <= byte_to_Z op <= 192)%Z ->
  byte_add (byte_and (byte_shr (creditFlags op change coinbase) 2) x07) xb9 = op /\
  negb (bool_decide
          (byte_and (creditFlags op change coinbase) (byte_shl x01 5) = x00))
  = coinbase.
Proof.
  intros H.
  assert (Hb : ((185 <=? byte_to_Z op) && (byte_to_Z op <=? 192))%Z = true).
  { apply andb_true_iff. split; apply Z.leb_le; lia. }
  clear H. destruct op; try discriminate Hb;
    destruct change, coinbase; split; reflexivity.
Qed.

Lemma creditFlags_change op change coinbase :
  negb (bool_decide
          (byte_and (creditFlags op change coinbase) (byte_shl x01 1) = x00))
  = change /\
  negb (bool_decide
          (byte_and (creditFlags op change coinbase) (byte_shl x01 0) = x00))
  = false.
Proof. destruct op, change, coinbase; split; reflexivity. Qed.

Lemma byte_andnot_or_mask b :
  byte_and (byte_or b accountExistsMask) accountExistsMask = accountExistsMask.
Proof. destruct b; reflexivity. Qed.

Lemma byte_andnot_or_mask' b :
  byte_andnot (byte_or b accountExistsMask) accountExistsMask
  = byte_andnot b accountExistsMask.
Proof. destruct b; reflexivity. Qed.

Lemma get_byte_app_mid (a : bytes) x (c : bytes) i :
  i = length a -> get_byte (a ++ x :: c) i = x.
Proof.
  intros ->. unfold get_byte. now rewrite list_lookup_middle.
Qed.

(** X10: for a stake opcode in the range 185..192 that [condenseOpCode] can
    hold, what [valueUnspentCredit] writes, the readers of a credit value
    read back: amount, unspent, change flag, opcode, coinbase flag, script
    type, script offset and length, and account. *)
Theorem fetchRawCredit_valueUnspentCredit cred scrType scrLoc scrLen account :
  (185 <= byte_to_Z (cred_opCode cred) <= 192)%Z ->
  let v := valueUnspentCredit cred scrType scrLoc scrLen account in
  fetchRawCreditAmount v = Ok (int64 (cred_amount cred)) /\
  fetchRawCreditAmountSpent v = Ok (int64 (cred_amount cred), false) /\
  fetchRawCreditAmountChange v = Ok (int64 (cred_amount cred), cred_change cred) /\
  fetchRawCreditTagOpCode v = Ok (cred_opCode cred) /\
  fetchRawCreditIsCoinbase v = Ok (cred_isCoinbase cred) /\
  fetchRawCreditScriptType v = byte_andnot scrType accountExistsMask /\
  fetchRawCreditScriptOffset v = uint32 scrLoc /\
  fetchRawCreditScriptLength v = uint32 scrLen /\
  fetchRawCreditAccount v = Ok (uint32 account).
Proof.
  intros Hop v.
  assert (Lv : length v = 94) by apply length_valueUnspentCredit.
  assert (Ea : byteOrder.Uint64 v = uint64 (cred_amount cred)).
  { apply creditAmount_valueUnspentCredit. }
  assert (E8 : get_byte v 8
               = creditFlags (cred_opCode cred) (cred_change cred)
                   (cred_isCoinbase cred)).
  { unfold v. rewrite valueUnspentCredit_layout.
    apply get_byte_app_mid. now rewrite be_encode_length. }
  set (pre := be_encode 8 (cred_amount cred)
              ++ [creditFlags (cred_opCode cred) (cred_change cred)
                    (cred_isCoinbase cred)] ++ make 72).
  assert (Lpre : length pre = 81).
  { unfold pre. rewrite !length_app, be_encode_length, length_make.
    reflexivity. }
  assert (Es : v = pre ++ byte_or scrType accountExistsMask
                   :: (be_encode 4 scrLoc ++ be_encode 4 scrLen
                       ++ be_encode 4 account)).
  { unfold v, pre. rewrite valueUnspentCredit_layout, <- !app_assoc.
    reflexivity. }
  assert (E81 : get_byte v 81 = byte_or scrType accountExistsMask).
  { rewrite Es. apply get_byte_app_mid. now rewrite Lpre. }
  assert (Es' : v = (pre ++ [byte_or scrType accountExistsMask])
                    ++ be_encode 4 scrLoc ++ be_encode 4 scrLen
                    ++ be_encode 4 account).
  { rewrite Es, <- app_assoc. reflexivity. }
  assert (Lpre' : length (pre ++ [byte_or scrType accountExistsMask]) = 82).
  { rewrite length_app, Lpre. reflexivity. }
  assert (Eloc : slice v 82 86 = be_encode 4 scrLoc
                 /\ slice v 86 90 = be_encode 4 scrLen
                 /\ slice v 90 94 = be_encode 4 account).
  { rewrite Es'. generalize dependent (pre ++ [byte_or scrType accountExistsMask]).
    intros p _ Lp. repeat split.
    - apply slice_app_mid; rewrite ?be_encode_length; lia.
    - rewrite (app_assoc p). apply slice_app_mid;
        rewrite ?length_app, ?be_encode_length; lia.
    - rewrite (app_assoc p), (app_assoc (p ++ _)).
      apply slice_app_last; rewrite ?length_app, ?be_encode_length; lia. }
  destruct Eloc as (Eloc & Elen & Eacc).
  destruct (creditFlags_read (cred_opCode cred) (cred_change cred)
              (cred_isCoinbase cred) Hop) as [Hopc Hcb].
  destruct (creditFlags_change (cred_opCode cred) (cred_change cred)
              (cred_isCoinbase cred)) as [Hch Hsp].
  unfold fetchRawCreditAmount, fetchRawCreditAmountSpent,
    fetchRawCreditAmountChange, fetchRawCreditTagOpCode,
    fetchRawCreditIsCoinbase, fetchRawCreditScriptType,
    fetchRawCreditScriptOffset, fetchRawCreditScriptLength,
    fetchRawCreditAccount, creditValueSize.
  rewrite Lv. cbn [Nat.ltb Nat.leb].
  rewrite Ea, E8, E81, Eloc, Elen, Eacc, !Uint32_be_encode, int64_uint64,
    Hopc, Hcb, Hch, Hsp, byte_andnot_or_mask, byte_andnot_or_mask'.
  rewrite bool_decide_eq_true_2 by reflexivity.
  repeat split; reflexivity.
Qed.

Lemma fetchRawCredit_valueUnspentCredit_witness :
  let v := valueUnspentCredit sampleCredit scriptTypeP2PKH 10 25 7 in
  fetchRawCreditAmount v = Ok (int64 (cred_amount sampleCredit)) /\
  fetchRawCreditAmountSpent v = Ok (int64 (cred_amount sampleCredit), false) /\
  fetchRawCreditAmountChange v
    = Ok (int64 (cred_amount sampleCredit), cred_change sampleCredit) /\
  fetchRawCreditTagOpCode v = Ok (cred_opCode sampleCredit) /\
  fetchRawCreditIsCoinbase v = Ok (cred_isCoinbase sampleCredit) /\
  fetchRawCreditScriptType v = byte_andnot scriptTypeP2PKH accountExistsMask /\
  fetchRawCreditScriptOffset v = uint32 10 /\
  fetchRawCreditScriptLength v = uint32 25 /\
  fetchRawCreditAccount v = Ok (uint32 7).
Proof.
  apply (fetchRawCredit_valueUnspentCredit sampleCredit scriptTypeP2PKH 10 25 7).
  vm_compute. split; discriminate.
Defined.

Lemma valueUnminedCredit_layout amount change op coinbase scrType scrLoc scrLen
    account :
  valueUnminedCredit amount change op coinbase scrType scrLoc scrLen account
  = be_encode 8 amount
    ++ [creditFlags op change coinbase]
    ++ [byte_or scrType accountExistsMask]
    ++ be_encode 4 scrLoc ++ be_encode 4 scrLen ++ be_encode 4 account.
Proof.
  rewrite <- be_encode_uint64. destruct change, coinbase; reflexivity.
Qed.

Lemma Uint64_app_8 (a b : bytes) :
  length a = 8 -> byteOrder.Uint64 (a ++ b) = be_decode a.
Proof.
  intros H. unfold byteOrder.Uint64. now rewrite take_app_length' by lia.
Qed.

(** X11: for a stake opcode in the range 185..192, what [valueUnminedCredit]
    writes, in 22 bytes, the readers of an unmined credit value read back. *)
Theorem fetchRawUnminedCredit_valueUnminedCredit amount change op coinbase
    scrType scrLoc scrLen account :
  (185 <= byte_to_Z op <= 192)%Z ->
  let v := valueUnminedCredit amount change op coinbase scrType scrLoc scrLen
             account in
  length v = 22 /\
  fetchRawUnminedCreditAmount v = Ok (int64 amount) /\
  fetchRawUnminedCreditAmountChange v = Ok (int64 amount, change) /\
  fetchRawUnminedCreditTagOpcode v = Ok op /\
  fetchRawUnminedCreditTagIsCoinbase v = Ok coinbase /\
  fetchRawUnminedCreditScriptType v = byte_andnot scrType accountExistsMask /\
  fetchRawUnminedCreditScriptOffset v = uint32 scrLoc /\
  fetchRawUnminedCreditScriptLength v = uint32 scrLen /\
  fetchRawUnminedCreditAccount v = Ok (uint32 account).
Proof.
  intros Hop v.
  assert (Lv : length v = 22).
  { unfold v. rewrite valueUnminedCredit_layout, !length_app, !be_encode_length.
    reflexivity. }
  assert (Ea : byteOrder.Uint64 v = uint64 amount).
  { unfold v. rewrite valueUnminedCredit_layout, Uint64_app_8
      by apply be_encode_length.
    apply be_decode_encode. }
  assert (E8 : get_byte v 8 = creditFlags op change coinbase).
  { unfold v. rewrite valueUnminedCredit_layout.
    apply get_byte_app_mid. now rewrite be_encode_length. }
  assert (Es : v = (be_encode 8 amount ++ [creditFlags op change coinbase])
                   ++ byte_or scrType accountExistsMask
                   :: (be_encode 4 scrLoc ++ be_encode 4 scrLen
                       ++ be_encode 4 account)).
  { unfold v. rewrite valueUnminedCredit_layout, <- !app_assoc. reflexivity. }
  assert (E9 : get_byte v 9 = byte_or scrType accountExistsMask).
  { rewrite Es. apply get_byte_app_mid.
    rewrite length_app, be_encode_length. reflexivity. }
  assert (Es' : v = ((be_encode 8 amount ++ [creditFlags op change coinbase])
                     ++ [byte_or scrType accountExistsMask])
                    ++ be_encode 4 scrLoc ++ be_encode 4 scrLen
                    ++ be_encode 4 account).
  { rewrite Es, <- !app_assoc. reflexivity. }
  assert (Eloc : slice v 10 14 = be_encode 4 scrLoc
                 /\ slice v 14 18 = be_encode 4 scrLen
                 /\ slice v 18 22 = be_encode 4 account).
  { rewrite Es'.
    assert (Lp : length ((be_encode 8 amount ++ [creditFlags op change coinbase])
                         ++ [byte_or scrType accountExistsMask]) = 10).
    { rewrite !length_app, be_encode_length. reflexivity. }
    revert Lp. generalize ((be_encode 8 amount ++ [creditFlags op change coinbase])
                           ++ [byte_or scrType accountExistsMask]).
    intros p Lp. repeat split.
    - apply slice_app_mid; rewrite ?be_encode_length; lia.
    - rewrite (app_assoc p). apply slice_app_mid;
        rewrite ?length_app, ?be_encode_length; lia.
    - rewrite (app_assoc p), (app_assoc (p ++ _)).
      apply slice_app_last; rewrite ?length_app, ?be_encode_length; lia. }
  destruct Eloc as (Eloc & Elen & Eacc).
  destruct (creditFlags_read op change coinbase Hop) as [Hopc Hcb].
  destruct (creditFlags_change op change coinbase) as [Hch _].
  split; [exact Lv|].
  unfold fetchRawUnminedCreditAmount, fetchRawUnminedCreditAmountChange,
    fetchRawUnminedCreditTagOpcode, fetchRawUnminedCreditTagIsCoinbase,
    fetchRawUnminedCreditScriptType, fetchRawUnminedCreditScriptOffset,
    fetchRawUnminedCreditScriptLength, fetchRawUnminedCreditAccount,
    unconfValueSize, unconfValueSizeLegacy.
  rewrite Lv. cbn [Nat.ltb Nat.leb].
  rewrite Ea, E8, E9, Eloc, Elen, Eacc, !Uint32_be_encode, int64_uint64,
    Hopc, Hcb, Hch, byte_andnot_or_mask, byte_andnot_or_mask'.
  rewrite bool_decide_eq_true_2 by reflexivity.
  repeat split; reflexivity.
Qed.

Lemma fetchRawUnminedCredit_valueUnminedCredit_witness :
  let v := valueUnminedCredit 500000000 true xba false scriptTypeP2PKH 10 25 7 in
  length v = 22 /\
  fetchRawUnminedCreditAmount v = Ok (int64 500000000) /\
  fetchRawUnminedCreditAmountChange v = Ok (int64 500000000, true) /\
  fetchRawUnminedCreditTagOpcode v = Ok xba /\
  fetchRawUnminedCreditTagIsCoinbase v = Ok false /\
  fetchRawUnminedCreditScriptType v
    = byte_andnot scriptTypeP2PKH accountExistsMask /\
  fetchRawUnminedCreditScriptOffset v = uint32 10 /\
  fetchRawUnminedCreditScriptLength v = uint32 25 /\
  fetchRawUnminedCreditAccount v = Ok (uint32 7).
Proof.
  apply (fetchRawUnminedCredit_valueUnminedCredit 500000000 true xba false
           scriptTypeP2PKH 10 25 7).
  vm_compute. split; discriminate.
Defined.

(** X12: a legacy unmined credit value, of at least 9 and fewer than 22 bytes,
    gives its amount and change flag; its script type, offset and length
    read as zero, and its account is a Data error. *)
Theorem fetchRawUnminedCredit_legacy v :
  9 <= length v < 22 ->
  fetchRawUnminedCreditAmount v = Ok (int64 (byteOrder.Uint64 v)) /\
  fetchRawUnminedCreditAmountChange v
    = Ok (int64 (byteOrder.Uint64 v),
          negb (bool_decide (byte_and (get_byte v 8) (byte_shl x01 1) = x00))) /\
  fetchRawUnminedCreditScriptType v = scriptTypeNonexisting /\
  fetchRawUnminedCreditScriptOffset v = 0%Z /\
  fetchRawUnminedCreditScriptLength v = 0%Z /\
  fetchRawUnminedCreditAccount v = Fail (storeError ErrData).
Proof.
  intros [H9 H22].
  unfold fetchRawUnminedCreditAmount, fetchRawUnminedCreditAmountChange,
    fetchRawUnminedCreditScriptType, fetchRawUnminedCreditScriptOffset,
    fetchRawUnminedCreditScriptLength, fetchRawUnminedCreditAccount,
    unconfValueSize, unconfValueSizeLegacy.
  destruct (Nat.ltb_spec (length v) 9); [lia|].
  destruct (Nat.ltb_spec (length v) 22); [|lia].
  repeat split; reflexivity.
Qed.

Lemma fetchRawUnminedCredit_legacy_witness :
  let v := be_encode 8 500000000 ++ [x02] in
  fetchRawUnminedCreditAmount v = Ok (int64 (byteOrder.Uint64 v)) /\
  fetchRawUnminedCreditAmountChange v
    = Ok (int64 (byteOrder.Uint64 v),
          negb (bool_decide (byte_and (get_byte v 8) (byte_shl x01 1) = x00))) /\
  fetchRawUnminedCreditScriptType v = scriptTypeNonexisting /\
  fetchRawUnminedCreditScriptOffset v = 0%Z /\
  fetchRawUnminedCreditScriptLength v = 0%Z /\
  fetchRawUnminedCreditAccount v = Fail (storeError ErrData).
Proof.
  apply (fetchRawUnminedCredit_legacy (be_encode 8 500000000 ++ [x02])).
  vm_compute. lia.
Defined.

Lemma spendCredit_value_layout v spender :
  length v = 94 ->
  spendCredit_value (Some v) spender
  = take 8 v ++ [byte_or (get_byte v 8) x01]
    ++ keyDebit (ii_txHash spender) (ii_index spender) (ii_block spender)
    ++ drop 81 v.
Proof.
  intros Hl. unfold spendCredit_value.
  change (default [] (Some v)) with v.
  rewrite copy_exact by (rewrite length_make; exact Hl).
  destruct spender as [th [bh height] idx].
  cbn [ii_txHash ii_index ii_block Block_Hash Block_Height].
  explode_hash th. explode_hash bh.
  do 81 (destruct v as [|? v]; [discriminate Hl|]).
  reflexivity.
Qed.

Lemma byte_or_1_keeps b :
  byte_and (byte_or b x01) (byte_shl x01 1) = byte_and b (byte_shl x01 1) /\
  byte_and (byte_or b x01) (byte_shl x01 5) = byte_and b (byte_shl x01 5) /\
  byte_and (byte_shr (byte_or b x01) 2) x07 = byte_and (byte_shr b 2) x07.
Proof. destruct b; repeat split; reflexivity. Qed.

Lemma byte_andnot_1_keeps b :
  byte_and (byte_andnot b x01) (byte_shl x01 1) = byte_and b (byte_shl x01 1) /\
  byte_and (byte_andnot b x01) (byte_shl x01 5) = byte_and b (byte_shl x01 5) /\
  byte_and (byte_shr (byte_andnot b x01) 2) x07 = byte_and (byte_shr b 2) x07.
Proof. destruct b; repeat split; reflexivity. Qed.

Lemma length_keyDebit h index block : length (keyDebit h index block) = 72.
Proof. apply length_keyCredit. Qed.

(** X13: [spendCredit] on a credit of 94 bytes stores the key of the spending
    debit in bytes 9..81 and sets the Spent bit; the amount, the change
    flag, the stake opcode, the coinbase flag and the script locator read
    as before. *)
Theorem spendCredit_fields (ns : Namespace) (cs : gmap bytes bytes) k v spender :
  ns_writable ns = true ->
  ns_buckets ns !! bucketCredits = Some cs ->
  cs !! k = Some v ->
  length v = 94 ->
  exists ns' v',
    spendCredit ns k spender = Ok (int64 (byteOrder.Uint64 v), ns') /\
    existsRawCredit ns' k = Ok (Some v') /\
    length v' = 94 /\
    slice v' 9 81
      = keyDebit (ii_txHash spender) (ii_index spender) (ii_block spender) /\
    fetchRawCreditAmountSpent v' = Ok (int64 (byteOrder.Uint64 v), true) /\
    fetchRawCreditAmountChange v' = fetchRawCreditAmountChange v /\
    fetchRawCreditTagOpCode v' = fetchRawCreditTagOpCode v /\
    fetchRawCreditIsCoinbase v' = fetchRawCreditIsCoinbase v /\
    drop 81 v' = drop 81 v.
Proof.
  intros Hw Hb Hk Hl.
  set (v' := spendCredit_value (Some v) spender).
  assert (Lv' : length v' = 94) by apply length_spendCredit_value.
  assert (T : take 8 v' = take 8 v).
  { unfold v'. rewrite take_spendCredit_value.
    change (default [] (Some v)) with v.
    now rewrite copy_exact by (rewrite length_make; exact Hl). }
  assert (A : byteOrder.Uint64 v' = byteOrder.Uint64 v)
    by (apply Uint64_eq_take; exact T).
  assert (B : get_byte v' 8 = byte_or (get_byte v 8) x01).
  { unfold v'. rewrite get_byte_spendCredit_value.
    change (default [] (Some v)) with v.
    now rewrite copy_exact by (rewrite length_make; exact Hl). }
  assert (Lay : v' = (take 8 v ++ [byte_or (get_byte v 8) x01])
                     ++ keyDebit (ii_txHash spender) (ii_index spender)
                          (ii_block spender)
                     ++ drop 81 v).
  { unfold v'. rewrite (spendCredit_value_layout v spender Hl), <- !app_assoc.
    reflexivity. }
  assert (Lp : length (take 8 v ++ [byte_or (get_byte v 8) x01]) = 9).
  { rewrite length_app, length_take. cbn [length]. lia. }
  destruct (byte_or_1_keeps (get_byte v 8)) as (K1 & K5 & Kop).
  exists (mkNamespace true (ns_values ns)
            (<[bucketCredits := <[k := v']> cs]> (ns_buckets ns))), v'.
  split; [|split; [|split; [|split; [|split; [|split; [|split; [|split]]]]]]].
  - rewrite (spendCredit_ok ns cs k spender Hw Hb), Hk. fold v'.
    now rewrite A.
  - unfold existsRawCredit, walletdb.BucketGet. cbn [ns_buckets].
    rewrite lookup_insert_eq. now rewrite lookup_insert_eq.
  - exact Lv'.
  - rewrite Lay. apply slice_app_mid; rewrite ?length_keyDebit; lia.
  - unfold fetchRawCreditAmountSpent. rewrite Lv'. cbn [Nat.ltb Nat.leb].
    rewrite A, B, byte_shl_1_0, byte_and_or_1. reflexivity.
  - unfold fetchRawCreditAmountChange. rewrite Lv', Hl. cbn [Nat.ltb Nat.leb].
    now rewrite A, B, K1.
  - unfold fetchRawCreditTagOpCode. rewrite Lv', Hl. cbn [Nat.ltb Nat.leb].
    now rewrite B, Kop.
  - unfold fetchRawCreditIsCoinbase. rewrite Lv', Hl. cbn [Nat.ltb Nat.leb].
    now rewrite B, K5.
  - rewrite Lay. rewrite (app_assoc _ (keyDebit _ _ _)).
    apply drop_app_length'. rewrite length_app, Lp, length_keyDebit.
    reflexivity.
Qed.

Lemma spendCredit_fields_witness :
  exists ns' v',
    spendCredit sampleTxCredit sampleCreditKey sampleSpender
    = Ok (int64 (byteOrder.Uint64 sampleCreditValue), ns') /\
    existsRawCredit ns' sampleCreditKey = Ok (Some v') /\
    length v' = 94 /\
    slice v' 9 81
      = keyDebit (ii_txHash sampleSpender) (ii_index sampleSpender)
          (ii_block sampleSpender) /\
    fetchRawCreditAmountSpent v'
      = Ok (int64 (byteOrder.Uint64 sampleCreditValue), true) /\
    fetchRawCreditAmountChange v' = fetchRawCreditAmountChange sampleCreditValue /\
    fetchRawCreditTagOpCode v' = fetchRawCreditTagOpCode sampleCreditValue /\
    fetchRawCreditIsCoinbase v' = fetchRawCreditIsCoinbase sampleCreditValue /\
    drop 81 v' = drop 81 sampleCreditValue.
Proof.
  apply (spendCredit_fields sampleTxCredit
           {[ sampleCreditKey := sampleCreditValue ]} sampleCreditKey
           sampleCreditValue sampleSpender).
  - reflexivity.
  - apply lookup_singleton_eq.
  - apply lookup_singleton_eq.
  - reflexivity.
Defined.

Lemma unspendRawCredit_value_set v :
  length v = 94 ->
  unspendRawCredit_value v = set_byte v 8 (byte_andnot (get_byte v 8) x01).
Proof.
  intros Hl. unfold unspendRawCredit_value.
  now rewrite copy_exact by (rewrite length_make; exact Hl).
Qed.

(** X14: [unspendRawCredit] returns 0 and writes nothing when the key has no
    credit; on a credit of 94 bytes it returns the amount and rewrites the
    credit with the Spent bit cleared and every other byte, the key of the
    former spender included, as it was. *)
Theorem unspendRawCredit_effect (ns : Namespace) (cs : gmap bytes bytes) k :
  ns_writable ns = true ->
  ns_buckets ns !! bucketCredits = Some cs ->
  (cs !! k = None -> unspendRawCredit ns k = Ok (0%Z, ns)) /\
  (forall v, cs !! k = Some v -> length v = 94 ->
     unspendRawCredit ns k =
       Ok (int64 (byteOrder.Uint64 v),
           mkNamespace true (ns_values ns)
             (<[bucketCredits :=
                  <[k := set_byte v 8 (byte_andnot (get_byte v 8) x01)]> cs]>
                (ns_buckets ns)))).
Proof.
  intros Hw Hb. split.
  - intros Hk. unfold unspendRawCredit, walletdb.BucketGet. rewrite Hb.
    cbn [mbind result_bind]. now rewrite Hk.
  - intros v Hk Hl.
    rewrite (unspendRawCredit_ok ns cs k v Hw Hb Hk) by lia.
    now rewrite (unspendRawCredit_value_set v Hl).
Qed.

Lemma unspendRawCredit_effect_witness :
  unspendRawCredit sampleTxCredit sampleCreditKey
  = Ok (int64 (byteOrder.Uint64 sampleCreditValue),
        mkNamespace true (ns_values sampleTxCredit)
          (<[bucketCredits :=
               <[sampleCreditKey :=
                   set_byte sampleCreditValue 8
                     (byte_andnot (get_byte sampleCreditValue 8) x01)]>
                 {[ sampleCreditKey := sampleCreditValue ]}]>
             (ns_buckets sampleTxCredit))).
Proof.
  apply (unspendRawCredit_effect sampleTxCredit
           {[ sampleCreditKey := sampleCreditValue ]} sampleCreditKey).
  - reflexivity.
  - apply lookup_singleton_eq.
  - apply lookup_singleton_eq.
  - reflexivity.
Defined.

Lemma existsRawUnspent_compose (h : Hash) index (block : Block) :
  copy_at (copy_at (copy (make 72) (slice (canonicalOutPoint h index) 0 32))
             32 68 (valueUnspent block))
    68 72 (slice (canonicalOutPoint h index) 32 36)
  = keyCredit h index block.
Proof.
  destruct block as [bh height]. explode_hash h. explode_hash bh. reflexivity.
Qed.

Lemma length_valueUnspent block : length (valueUnspent block) = 36.
Proof.
  rewrite valueUnspent_layout, length_app, be_encode_length, hash_length.
  reflexivity.
Qed.

(** X15: the unspent index gives back the credit key: after [putUnspent] of an
    outpoint mined in a block, [existsUnspent] of the outpoint returns the
    key of its credit in that block; without an entry it returns nil. *)
Theorem existsUnspent_putUnspent (ns : Namespace) (us : gmap bytes bytes)
    (h : Hash) index (block : Block) :
  ns_writable ns = true ->
  ns_buckets ns !! bucketUnspent = Some us ->
  (us !! canonicalOutPoint h index = None ->
   existsUnspent ns h index = Ok (canonicalOutPoint h index, None)) /\
  exists ns',
    putUnspent ns h index block = Ok ns' /\
    existsUnspent ns' h index
    = Ok (canonicalOutPoint h index, Some (keyCredit h index block)).
Proof.
  intros Hw Hb. split.
  - intros Hnone. unfold existsUnspent, existsRawUnspent, walletdb.BucketGet.
    rewrite length_canonicalOutPoint. cbn [Nat.ltb Nat.leb].
    rewrite Hb. cbn [mbind result_bind]. rewrite Hnone. reflexivity.
  - unfold putUnspent, walletdb.BucketPut. rewrite Hb, Hw. cbn [orFail].
    eexists. split; [reflexivity|].
    unfold existsUnspent, existsRawUnspent, walletdb.BucketGet.
    rewrite length_canonicalOutPoint. cbn [Nat.ltb Nat.leb ns_buckets].
    rewrite lookup_insert_eq. cbn [mbind result_bind].
    rewrite lookup_insert_eq. change (default [] (Some ?x)) with x.
    rewrite length_valueUnspent. cbn [Nat.ltb Nat.leb].
    now rewrite existsRawUnspent_compose.
Qed.

Lemma existsUnspent_putUnspent_witness :
  ((∅ : gmap bytes bytes) !! canonicalOutPoint (sampleHash x01) 0 = None ->
   existsUnspent (mkNamespace true ∅ {[ bucketUnspent := ∅ ]}) (sampleHash x01) 0
   = Ok (canonicalOutPoint (sampleHash x01) 0, None)) /\
  exists ns',
    putUnspent (mkNamespace true ∅ {[ bucketUnspent := ∅ ]}) (sampleHash x01) 0
      sampleBlock = Ok ns' /\
    existsUnspent ns' (sampleHash x01) 0
    = Ok (canonicalOutPoint (sampleHash x01) 0,
          Some (keyCredit (sampleHash x01) 0 sampleBlock)).
Proof.
  apply (existsUnspent_putUnspent (mkNamespace true ∅ {[ bucketUnspent := ∅ ]})
           ∅ (sampleHash x01) 0 sampleBlock).
  - reflexivity.
  - apply lookup_singleton_eq.
Defined.

Lemma putDebit_value_layout amount credKey :
  length credKey = 72 ->
  copy_at (byteOrder.PutUint64 (make 80) 0 (uint64 amount)) 8 80 credKey
  = be_encode 8 amount ++ credKey.
Proof.
  intros Hl. rewrite <- be_encode_uint64.
  rewrite copy_at_exact by (len; lia).
  rewrite drop_ge, app_nil_r by (len; lia).
  f_equal.
Qed.

(** X16: what [putDebit] writes, [existsDebit] and the debit iterator read
    back: the key of the debit, the key of the credit it spends, the input
    index and the amount.  A debit that was not put gives nils. *)
Theorem existsDebit_putDebit (ns : Namespace) (ds : gmap bytes bytes)
    (h : Hash) index amount (block : Block) credKey :
  ns_writable ns = true ->
  ns_buckets ns !! bucketDebits = Some ds ->
  length credKey = 72 ->
  (ds !! keyDebit h index block = None ->
   existsDebit ns h index block = Ok None) /\
  exists ns' v,
    putDebit ns h index amount block credKey = Ok ns' /\
    existsDebit ns' h index block = Ok (Some (keyDebit h index block, credKey)) /\
    walletdb.BucketGet ns' bucketDebits (keyDebit h index block) = Ok (Some v) /\
    extractRawDebitCreditKey v = Ok credKey /\
    debitIterator_readElem (keyDebit h index block) v
    = Ok (uint32 index, int64 amount).
Proof.
  intros Hw Hb Hl. split.
  - intros Hnone. unfold existsDebit, walletdb.BucketGet. rewrite Hb.
    cbn [mbind result_bind]. now rewrite Hnone.
  - unfold putDebit, walletdb.BucketPut. rewrite Hb, Hw. cbn [orFail].
    rewrite (putDebit_value_layout amount credKey Hl).
    set (v := be_encode 8 amount ++ credKey).
    assert (Lv : length v = 80)
      by (unfold v; rewrite length_app, be_encode_length; lia).
    assert (Es : slice v 8 80 = credKey).
    { unfold v. apply slice_app_last; rewrite ?be_encode_length; lia. }
    exists (mkNamespace true (ns_values ns)
              (<[bucketDebits := <[keyDebit h index block := v]> ds]>
                 (ns_buckets ns))), v.
    split; [reflexivity|].
    assert (G : walletdb.BucketGet
                  (mkNamespace true (ns_values ns)
                     (<[bucketDebits := <[keyDebit h index block := v]> ds]>
                        (ns_buckets ns)))
                  bucketDebits (keyDebit h index block) = Ok (Some v)).
    { unfold walletdb.BucketGet. cbn [ns_buckets].
      rewrite lookup_insert_eq. now rewrite lookup_insert_eq. }
    split; [|split; [exact G|split]].
    + unfold existsDebit. rewrite G. cbn [mbind result_bind].
      rewrite Lv. cbn [Nat.ltb Nat.leb]. now rewrite Es.
    + unfold extractRawDebitCreditKey. rewrite Lv. cbn [Nat.ltb Nat.leb].
      now rewrite Es.
    + unfold debitIterator_readElem. rewrite length_keyDebit, Lv.
      cbn [Nat.ltb Nat.leb]. f_equal. f_equal.
      * rewrite keyDebit_keyCredit, keyCredit_layout.
        rewrite slice_app_last
          by (rewrite ?length_keyTxRecord, ?be_encode_length; lia).
        apply Uint32_be_encode.
      * unfold v. rewrite Uint64_app_8 by apply be_encode_length.
        rewrite be_decode_encode. apply int64_uint64.
Qed.

Lemma existsDebit_putDebit_witness :
  ((∅ : gmap bytes bytes) !! keyDebit (sampleHash x0a) 0 sampleBlock = None ->
   existsDebit (mkNamespace true ∅ {[ bucketDebits := ∅ ]}) (sampleHash x0a) 0
     sampleBlock = Ok None) /\
  exists ns' v,
    putDebit (mkNamespace true ∅ {[ bucketDebits := ∅ ]}) (sampleHash x0a) 0
      500000000 sampleBlock sampleCreditKey = Ok ns' /\
    existsDebit ns' (sampleHash x0a) 0 sampleBlock
    = Ok (Some (keyDebit (sampleHash x0a) 0 sampleBlock, sampleCreditKey)) /\
    walletdb.BucketGet ns' bucketDebits (keyDebit (sampleHash x0a) 0 sampleBlock)
    = Ok (Some v) /\
    extractRawDebitCreditKey v = Ok sampleCreditKey /\
    debitIterator_readElem (keyDebit (sampleHash x0a) 0 sampleBlock) v
    = Ok (uint32 0, int64 500000000).
Proof.
  apply (existsDebit_putDebit (mkNamespace true ∅ {[ bucketDebits := ∅ ]}) ∅
           (sampleHash x0a) 0 500000000 sampleBlock sampleCreditKey).
  - reflexivity.
  - apply lookup_singleton_eq.
  - reflexivity.
Defined.

(** Turn a list of known length into its elements. *)
Ltac explode_list l H :=
  repeat (destruct l as [|? l]; [discriminate H|]);
  destruct l; [clear H|discriminate H].

Lemma valueMultisigOut_layout sh m n spent tree (bh : Hash) height amount
    (spentBy : Hash) sbi (txHash : Hash) :
  length sh = 20 ->
  valueMultisigOut sh m n spent tree bh height amount spentBy sbi txHash
  = sh ++ m :: n :: multisigFlags spent tree
    :: hash_bytes bh ++ be_encode 4 height ++ be_encode 8 amount
    ++ hash_bytes spentBy ++ be_encode 4 sbi ++ hash_bytes txHash.
Proof.
  intros Hsh. rewrite <- be_encode_uint64.
  unfold valueMultisigOut, multisigFlags.
  explode_list sh Hsh. explode_hash bh. explode_hash spentBy.
  explode_hash txHash.
  destruct spent, (tree =? TxTreeStake)%Z; reflexivity.
Qed.

Lemma fetchMultisigOut_layout (h : Hash) index sh m n f bh e1 e2 sb e3 tx :
  length sh = 20 -> length bh = 32 -> length e1 = 4 -> length e2 = 8 ->
  length sb = 32 -> length e3 = 4 -> length tx = 32 ->
  fetchMultisigOut (keyMultisigOut h index)
    (sh ++ m :: n :: f :: bh ++ e1 ++ e2 ++ sb ++ e3 ++ tx)
  = Ok (mkMultisigOut (mkOutPoint (hash_bytes h) (uint32 index)) TxTreeRegular
          sh m n
          (negb (bool_decide (byte_and f (byte_shl x01 0) = x00)))
          (if negb (bool_decide (byte_and f (byte_shl x01 1) = x00))
           then 1%Z else 0%Z)
          bh (byteOrder.Uint32 e1) (int64 (byteOrder.Uint64 e2))
          sb (byteOrder.Uint32 e3) tx).
Proof.
  intros Hsh Hbh He1 He2 Hsb He3 Htx.
  unfold fetchMultisigOut, keyMultisigOut.
  rewrite readCanonicalOutPoint_key, length_canonicalOutPoint.
  explode_list sh Hsh. explode_list bh Hbh. explode_list e1 He1.
  explode_list e2 He2. explode_list sb Hsb. explode_list e3 He3.
  explode_list tx Htx.
  reflexivity.
Qed.

Lemma multisigFlags_read spent tree :
  negb (bool_decide (byte_and (multisigFlags spent tree) (byte_shl x01 0) = x00))
  = spent /\
  negb (bool_decide (byte_and (multisigFlags spent tree) (byte_shl x01 1) = x00))
  = (tree =? TxTreeStake)%Z.
Proof.
  unfold multisigFlags. destruct spent, (tree =? TxTreeStake)%Z;
    split; reflexivity.
Qed.

(** What [valueMultisigOut] writes under the key of an outpoint,
    [fetchMultisigOut] reads back. *)
Lemma fetchMultisigOut_valueMultisigOut (h : Hash) index sh m n spent tree
    (bh : Hash) height amount (spentBy : Hash) sbi (txHash : Hash) :
  length sh = 20 ->
  fetchMultisigOut (keyMultisigOut h index)
    (valueMultisigOut sh m n spent tree bh height amount spentBy sbi txHash)
  = Ok (mkMultisigOut (mkOutPoint (hash_bytes h) (uint32 index)) TxTreeRegular
          sh m n spent (if (tree =? TxTreeStake)%Z then 1%Z else 0%Z)
          (hash_bytes bh) (uint32 height) (int64 amount)
          (hash_bytes spentBy) (uint32 sbi) (hash_bytes txHash)).
Proof.
  intros Hsh. rewrite valueMultisigOut_layout by exact Hsh.
  rewrite fetchMultisigOut_layout
    by (rewrite ?hash_length, ?be_encode_length; auto).
  destruct (multisigFlags_read spent tree) as [-> ->].
  now rewrite !Uint32_be_encode, Uint64_be_encode, int64_uint64.
Qed.

(** X17: [setMultisigOutSpent] marks a multisig value as spent by the given
    input: afterwards [fetchMultisigOutSpentVerbose] returns the spender, and
    the script hash, M, N, block and amount read as before. *)
Theorem setMultisigOutSpent_read v (h : Hash) index :
  length v = 135 ->
  exists v', setMultisigOutSpent v h index = Ok v' /\
    length v' = 135 /\
    fetchMultisigOutSpentVerbose v' = Ok (true, hash_bytes h, uint32 index) /\
    fetchMultisigOutSpent v' = Ok true /\
    fetchMultisigOutScrHash v' = fetchMultisigOutScrHash v /\
    fetchMultisigOutMN v' = fetchMultisigOutMN v /\
    fetchMultisigOutMined v' = fetchMultisigOutMined v /\
    fetchMultisigOutAmount v' = fetchMultisigOutAmount v.
Proof.
  intros Hv. rewrite <- (Uint32_be_encode index).
  unfold setMultisigOutSpent, byteOrder.PutUint32.
  assert (He : length (be_encode 4 index) = 4) by apply be_encode_length.
  destruct (be_encode 4 index) as [|e0 [|e1 [|e2 [|e3 [|]]]]]; try discriminate He.
  clear He. explode_hash h. explode_list v Hv.
  eexists. split; [reflexivity|]. repeat split; reflexivity.
Qed.

Lemma setMultisigOutSpent_read_witness :
  exists v', setMultisigOutSpent sampleMultisigValue (sampleHash x0a) 3 = Ok v' /\
    length v' = 135 /\
    fetchMultisigOutSpentVerbose v'
    = Ok (true, hash_bytes (sampleHash x0a), uint32 3) /\
    fetchMultisigOutSpent v' = Ok true /\
    fetchMultisigOutScrHash v' = fetchMultisigOutScrHash sampleMultisigValue /\
    fetchMultisigOutMN v' = fetchMultisigOutMN sampleMultisigValue /\
    fetchMultisigOutMined v' = fetchMultisigOutMined sampleMultisigValue /\
    fetchMultisigOutAmount v' = fetchMultisigOutAmount sampleMultisigValue.
Proof.
  apply (setMultisigOutSpent_read sampleMultisigValue (sampleHash x0a) 3).
  reflexivity.
Defined.

(** X18: [setMultisigOutUnSpent] clears the spent flag and sets the spender
    index to 0xFFFFFFFF, but it copies 31 zero bytes only: the last byte of
    the spender hash stays as it was.  The other fields read as before. *)
Theorem setMultisigOutUnSpent_read v :
  length v = 135 ->
  exists v', setMultisigOutUnSpent v = Ok v' /\
    length v' = 135 /\
    fetchMultisigOutSpentVerbose v'
    = Ok (false, replicate 31 x00 ++ [get_byte v 98], 4294967295%Z) /\
    fetchMultisigOutSpent v' = Ok false /\
    fetchMultisigOutScrHash v' = fetchMultisigOutScrHash v /\
    fetchMultisigOutMN v' = fetchMultisigOutMN v /\
    fetchMultisigOutMined v' = fetchMultisigOutMined v /\
    fetchMultisigOutAmount v' = fetchMultisigOutAmount v.
Proof.
  intros Hv. unfold setMultisigOutUnSpent, byteOrder.PutUint32.
  explode_list v Hv.
  eexists. split; [reflexivity|]. repeat split; reflexivity.
Qed.

Lemma setMultisigOutUnSpent_read_witness :
  exists v', setMultisigOutUnSpent sampleMultisigSpentValue = Ok v' /\
    length v' = 135 /\
    fetchMultisigOutSpentVerbose v'
    = Ok (false, replicate 31 x00 ++ [get_byte sampleMultisigSpentValue 98],
          4294967295%Z) /\
    fetchMultisigOutSpent v' = Ok false /\
    fetchMultisigOutScrHash v' = fetchMultisigOutScrHash sampleMultisigSpentValue /\
    fetchMultisigOutMN v' = fetchMultisigOutMN sampleMultisigSpentValue /\
    fetchMultisigOutMined v' = fetchMultisigOutMined sampleMultisigSpentValue /\
    fetchMultisigOutAmount v' = fetchMultisigOutAmount sampleMultisigSpentValue.
Proof.
  apply (setMultisigOutUnSpent_read sampleMultisigSpentValue).
  reflexivity.
Defined.

(** X19: [setMultisigOutMined] records the block of a multisig value and
    [setMultisigOutUnmined] resets it to the zero hash and height 0; both
    leave the flags, the spender and the amount as they were. *)
Theorem setMultisigOutMined_read v (bh : Hash) height :
  length v = 135 ->
  exists v1 v0,
    setMultisigOutMined v bh height = Ok v1 /\
    setMultisigOutUnmined v = Ok v0 /\
    length v1 = 135 /\ length v0 = 135 /\
    fetchMultisigOutMined v1 = Ok (hash_bytes bh, uint32 height) /\
    fetchMultisigOutMined v0 = Ok (hash_bytes zeroHash, 0%Z) /\
    (forall v', v' = v1 \/ v' = v0 ->
       fetchMultisigOutSpentVerbose v' = fetchMultisigOutSpentVerbose v /\
       fetchMultisigOutTree v' = fetchMultisigOutTree v /\
       fetchMultisigOutScrHash v' = fetchMultisigOutScrHash v /\
       fetchMultisigOutMN v' = fetchMultisigOutMN v /\
       fetchMultisigOutAmount v' = fetchMultisigOutAmount v).
Proof.
  intros Hv. rewrite <- (Uint32_be_encode height).
  unfold setMultisigOutMined, setMultisigOutUnmined, byteOrder.PutUint32.
  assert (He : length (be_encode 4 height) = 4) by apply be_encode_length.
  destruct (be_encode 4 height) as [|e0 [|e1 [|e2 [|e3 [|]]]]];
    try discriminate He.
  clear He. explode_hash bh. explode_list v Hv.
  eexists. eexists. split; [reflexivity|]. split; [reflexivity|].
  split; [reflexivity|]. split; [reflexivity|]. split; [reflexivity|].
  split; [reflexivity|].
  intros v' [-> | ->]; repeat split; reflexivity.
Qed.

Lemma setMultisigOutMined_read_witness :
  exists v1 v0,
    setMultisigOutMined sampleMultisigValue (sampleHash x0c) 101 = Ok v1 /\
    setMultisigOutUnmined sampleMultisigValue = Ok v0 /\
    length v1 = 135 /\ length v0 = 135 /\
    fetchMultisigOutMined v1 = Ok (hash_bytes (sampleHash x0c), uint32 101) /\
    fetchMultisigOutMined v0 = Ok (hash_bytes zeroHash, 0%Z) /\
    (forall v', v' = v1 \/ v' = v0 ->
       fetchMultisigOutSpentVerbose v'
       = fetchMultisigOutSpentVerbose sampleMultisigValue /\
       fetchMultisigOutTree v' = fetchMultisigOutTree sampleMultisigValue /\
       fetchMultisigOutScrHash v' = fetchMultisigOutScrHash sampleMultisigValue /\
       fetchMultisigOutMN v' = fetchMultisigOutMN sampleMultisigValue /\
       fetchMultisigOutAmount v' = fetchMultisigOutAmount sampleMultisigValue).
Proof.
  apply (setMultisigOutMined_read sampleMultisigValue (sampleHash x0c) 101).
  reflexivity.
Defined.

(** X20: in a writable transaction with a multisig bucket, a multisig output
    stored with [putMultisigOut] is found by [existsMultisigOut] under the
    key of its outpoint, and [fetchMultisigOut] reads its fields back; the
    tree reads as 1 for the stake tree and as 0 otherwise.  No other key of
    the bucket changes. *)
Theorem fetchMultisigOut_putMultisigOut (ns : Namespace)
    (ms : gmap bytes bytes) (h : Hash) index sh m n spent tree (bh : Hash)
    height amount (spentBy : Hash) sbi (txHash : Hash) :
  ns_writable ns = true ->
  ns_buckets ns !! bucketMultisig = Some ms ->
  length sh = 20 ->
  exists ns' v,
    putMultisigOut ns h index sh m n spent tree bh height amount spentBy sbi
      txHash = Ok ns' /\
    existsMultisigOut ns' (keyMultisigOut h index) = Ok (Some v) /\
    fetchMultisigOut (keyMultisigOut h index) v
    = Ok (mkMultisigOut (mkOutPoint (hash_bytes h) (uint32 index))
            TxTreeRegular sh m n spent
            (if (tree =? TxTreeStake)%Z then 1%Z else 0%Z)
            (hash_bytes bh) (uint32 height) (int64 amount)
            (hash_bytes spentBy) (uint32 sbi) (hash_bytes txHash)) /\
    (forall k', k' <> keyMultisigOut h index ->
       existsMultisigOut ns' k' = existsMultisigOut ns k').
Proof.
  intros Hw Hb Hsh.
  unfold putMultisigOut, walletdb.BucketPut. rewrite Hb, Hw.
  eexists. eexists. split; [reflexivity|].
  unfold existsMultisigOut, walletdb.BucketGet.
  cbn [ns_buckets ns_values ns_writable orFail mbind result_bind].
  rewrite lookup_insert_eq. cbn [mbind result_bind].
  rewrite lookup_insert_eq. split; [reflexivity|].
  split.
  - rewrite copy_make_exact.
    + apply fetchMultisigOut_valueMultisigOut. exact Hsh.
    + rewrite valueMultisigOut_layout by exact Hsh.
      rewrite !length_app. cbn [length]. rewrite !length_app.
      rewrite !hash_length, !be_encode_length. lia.
  - intros k' Hk. rewrite Hb. cbn [mbind result_bind].
    rewrite lookup_insert_ne by congruence. reflexivity.
Qed.

Lemma fetchMultisigOut_putMultisigOut_witness :
  exists ns' v,
    putMultisigOut (mkNamespace true ∅ {[ bucketMultisig := ∅ ]})
      (sampleHash x01) 2 (replicate 20 x05) x02 x03 false TxTreeStake
      (sampleHash x0b) 50 1000 zeroHash 0 (sampleHash x01) = Ok ns' /\
    existsMultisigOut ns' (keyMultisigOut (sampleHash x01) 2) = Ok (Some v) /\
    fetchMultisigOut (keyMultisigOut (sampleHash x01) 2) v
    = Ok (mkMultisigOut (mkOutPoint (hash_bytes (sampleHash x01)) (uint32 2))
            TxTreeRegular (replicate 20 x05) x02 x03 false
            (if (TxTreeStake =? TxTreeStake)%Z then 1%Z else 0%Z)
            (hash_bytes (sampleHash x0b)) (uint32 50) (int64 1000)
            (hash_bytes zeroHash) (uint32 0) (hash_bytes (sampleHash x01))) /\
    (forall k', k' <> keyMultisigOut (sampleHash x01) 2 ->
       existsMultisigOut ns' k'
       = existsMultisigOut (mkNamespace true ∅ {[ bucketMultisig := ∅ ]}) k').
Proof.
  apply (fetchMultisigOut_putMultisigOut
           (mkNamespace true ∅ {[ bucketMultisig := ∅ ]}) ∅
           (sampleHash x01) 2 (replicate 20 x05) x02 x03 false TxTreeStake
           (sampleHash x0b) 50 1000 zeroHash 0 (sampleHash x01)).
  - reflexivity.
  - apply lookup_singleton_eq.
  - reflexivity.
Defined.

(** X21: the balance written by [putMinedBalance] is the one
    [fetchMinedBalance] reads, as an [int64]; the write touches no other
    root key and no bucket. *)
Theorem fetchMinedBalance_putMinedBalance (ns : Namespace) amt :
  ns_writable ns = true ->
  exists ns',
    putMinedBalance ns amt = Ok ns' /\
    fetchMinedBalance ns' = Ok (int64 amt) /\
    ns_buckets ns' = ns_buckets ns /\
    (forall k, k <> rootMinedBalance ->
       walletdb.Get ns' k = walletdb.Get ns k).
Proof.
  intros Hw. eexists. split; [apply putMinedBalance_ok, Hw|].
  split; [|split].
  - rewrite (fetchMinedBalance_ok _ (be_encode 8 (uint64 amt))).
    + now rewrite Uint64_be_encode, uint64_idemp, int64_uint64.
    + unfold walletdb.Get. cbn [ns_values]. apply lookup_insert_eq.
    + apply be_encode_length.
  - reflexivity.
  - intros k Hk. unfold walletdb.Get. cbn [ns_values].
    apply lookup_insert_ne. congruence.
Qed.

Lemma fetchMinedBalance_putMinedBalance_witness :
  exists ns',
    putMinedBalance sampleTxEmpty 500000000 = Ok ns' /\
    fetchMinedBalance ns' = Ok (int64 500000000) /\
    ns_buckets ns' = ns_buckets sampleTxEmpty /\
    (forall k, k <> rootMinedBalance ->
       walletdb.Get ns' k = walletdb.Get sampleTxEmpty k).
Proof.
  apply (fetchMinedBalance_putMinedBalance sampleTxEmpty 500000000).
  reflexivity.
Defined.

(** X22: [createStore] refuses a namespace that holds anything, a root key or
    a nested bucket, with [ErrAlreadyExists]. *)
Theorem createStore_exists (ns : Namespace) now :
  ns_values ns <> ∅ \/ ns_buckets ns <> ∅ ->
  createStore ns now = Fail (storeError ErrAlreadyExists).
Proof.
  intros Hne. unfold createStore, scopedUpdate.
  destruct (walletdb.First (walletdb.Begin ns true)) eqn:E; [reflexivity|].
  apply First_None_inv in E as [Hv Hb]. cbn in Hv, Hb.
  destruct Hne; contradiction.
Qed.

Lemma createStore_exists_witness :
  createStore sampleCreated 2000 = Fail (storeError ErrAlreadyExists).
Proof.
  apply (createStore_exists sampleCreated 2000).
  left. intros E. apply (f_equal (fun m => m !! rootVersion)) in E.
  vm_compute in E. discriminate E.
Defined.

(** ** The credit and debit iterators *)

Lemma iterator_loop_S {It Elem : Type} (next : It -> result (It * bool))
    (elem : It -> Elem) fuel it :
  iterator_loop next elem (S fuel) it
  = match next it with
    | Ok (it, true) =>
        match iterator_loop next elem fuel it with
        | Some (Ok (elems, it')) => Some (Ok (elem it :: elems, it'))
        | r => r
        end
    | Ok (it, false) => Some (Ok ([], it))
    | Fail e => Some (Fail e)
    | Panic => Some Panic
    end.
Proof. reflexivity. Qed.

Lemma HasPrefix_nil p : p <> [] -> HasPrefix [] p = false.
Proof. destruct p; [congruence|reflexivity]. Qed.

(** Seeking skips no pair that has the prefix. *)
Lemma filter_seek_from p l :
  filter (hasPrefix p) (walletdb.seek_from p l) = filter (hasPrefix p) l.
Proof.
  induction l as [|e l IH]; [reflexivity|].
  cbn [walletdb.seek_from]. unfold bytes_lt.
  destruct (bytes_le p e.1) eqn:E; cbn [negb]; [reflexivity|].
  rewrite IH, filter_cons_False; [reflexivity|].
  unfold hasPrefix. intros Hp. apply HasPrefix_le in Hp. congruence.
Qed.

Lemma filter_none {A} (P : A -> Prop) `{!forall x, Decision (P x)} (l : list A) :
  (forall x, x ∈ l -> ~ P x) -> filter P l = [].
Proof.
  induction l as [|x l IH]; intros Hno; [reflexivity|].
  rewrite filter_cons_False by (apply Hno; left).
  apply IH. intros y Hy. apply Hno. now right.
Qed.

(** In a sorted run of keys not below the prefix, a key without the prefix
    is followed by none that has it. *)
Lemma filter_after_miss p e l :
  StronglySorted walletdb.entry_le (e :: l) ->
  bytes_le p e.1 = true ->
  HasPrefix e.1 p = false ->
  filter (hasPrefix p) (e :: l) = [].
Proof.
  intros HS Hge Hno. apply StronglySorted_inv in HS as [_ Hall].
  rewrite Forall_forall in Hall.
  apply filter_none. intros x Hx Hp. unfold hasPrefix in Hp.
  apply elem_of_cons in Hx as [->|Hx]; [congruence|].
  apply Hall in Hx. unfold walletdb.entry_le in Hx. apply Is_true_true in Hx.
  rewrite (HasPrefix_between p e.1 x.1) in Hno by assumption. discriminate.
Qed.

(** The loop over the pairs [l] the cursor moves to next: the elements of
    the pairs of [good] are seen, and the loop ends after them, either at the
    end of the pairs that have the prefix or at a pair [readElem] rejects. *)
Lemma prefixIterator_loop_spec {Elem} (readElem : bytes -> bytes -> result Elem) :
  (forall k v, readElem k v <> Panic) ->
  forall (l : list (bytes * bytes)) (it : prefixIterator Elem) pos fuel,
  it_c it = Some pos ->
  it_prefix it <> [] ->
  match it_ck it with
  | None => walletdb.Seek (it_bucket it) (it_prefix it)
  | Some _ => walletdb.Next pos
  end = l ->
  StronglySorted walletdb.entry_le l ->
  (forall e, e ∈ l -> bytes_le (it_prefix it) e.1 = true) ->
  length l < fuel ->
  exists elems it' good bad,
    iterator_loop (prefixIterator_next readElem) it_elem fuel it = Some (Ok (elems, it')) /\
    filter (hasPrefix (it_prefix it)) l = good ++ bad /\
    Forall2 (fun e r => readElem e.1 e.2 = Ok r) good elems /\
    ((bad = [] /\ it_err it' = it_err it /\ it_c it' = None) \/
     (exists e bad' err, bad = e :: bad' /\ readElem e.1 e.2 = Fail err /\
        it_err it' = Some err)).
Proof.
  intros Hnp l. induction l as [|[k v] l IH];
    intros it pos fuel Hc Hp Hl HS Hge Hfuel;
    (destruct fuel as [|fuel]; [cbn [length] in Hfuel; lia|]);
    rewrite iterator_loop_S; unfold prefixIterator_next at 1; rewrite Hc, Hl.
  - cbn [head fmap option_fmap option_map from_option]; unfold id.
    rewrite HasPrefix_nil by exact Hp. cbn [negb].
    eexists _, _, [], []. split; [reflexivity|]. split; [reflexivity|].
    split; [constructor|]. left. auto.
  - cbn [head fmap option_fmap option_map from_option fst snd]; unfold id.
    destruct (HasPrefix k (it_prefix it)) eqn:Ek; cbn [negb].
    2:{ eexists _, _, [], []. split; [reflexivity|].
        split; [now apply filter_after_miss; [|apply Hge; left|]|].
        split; [constructor|]. left. auto. }
    apply StronglySorted_inv in HS as [HS Hall].
    destruct (readElem k v) as [r|err|] eqn:Er; [| |now apply Hnp in Er].
    + set (it1 := mkPrefixIterator _ _ _ _ _ _ _).
      destruct (IH it1 ((k, v) :: l) fuel) as (elems & it' & good & bad & Hrun
        & Hfil & Hall2 & Hend); try reflexivity; try assumption.
      * intros e He. apply Hge. now right.
      * cbn [length] in Hfuel. lia.
      * rewrite Hrun. cbn [it_elem it1].
        eexists (r :: elems), it', ((k, v) :: good), bad.
        split; [reflexivity|]. split.
        { rewrite filter_cons_True by exact Ek.
          cbn [it_prefix it1] in Hfil. rewrite Hfil. reflexivity. }
        split; [constructor; [exact Er|exact Hall2]|exact Hend].
    + eexists [], _, [], (filter (hasPrefix (it_prefix it)) ((k, v) :: l)).
      split; [reflexivity|]. split; [reflexivity|]. split; [constructor|].
      right. rewrite filter_cons_True by exact Ek.
      eexists (k, v), _, err. split; [reflexivity|]. split; [exact Er|reflexivity].
Qed.

Lemma creditIterator_readElem_cases k v :
  (exists r, creditIterator_readElem k v = Ok r) \/
  creditIterator_readElem k v = Fail (storeError ErrData).
Proof.
  unfold creditIterator_readElem, fetchRawCreditTagOpCode,
    fetchRawCreditIsCoinbase.
  destruct (length k <? 72); [now right|].
  destruct (Nat.ltb_spec (length v) 9) as [Hlt|Hge]; [now right|].
  left. destruct (Nat.ltb_spec (length v) 9); [lia|]. eexists. reflexivity.
Qed.

Lemma debitIterator_readElem_cases k v :
  (exists r, debitIterator_readElem k v = Ok r) \/
  debitIterator_readElem k v = Fail (storeError ErrData).
Proof.
  unfold debitIterator_readElem.
  destruct (length k <? 72); [now right|].
  destruct (length v <? 80); [now right|].
  left. eexists. reflexivity.
Qed.

Lemma length_seek_from p l : length (walletdb.seek_from p l) <= length l.
Proof.
  induction l as [|e l IH]; [reflexivity|].
  cbn [walletdb.seek_from]. destruct (bytes_lt e.1 p); cbn [length]; lia.
Qed.

(** The loop of a fresh prefix iterator over a bucket. *)
Lemma prefixIterator_fresh_spec {Elem} (readElem : bytes -> bytes -> result Elem)
    (b : gmap bytes bytes) prefix (elem0 : Elem) fuel :
  (forall k v, (exists r, readElem k v = Ok r) \/
               readElem k v = Fail (storeError ErrData)) ->
  prefix <> [] ->
  length (walletdb.entries b) < fuel ->
  exists elems it' good bad,
    iterator_loop (prefixIterator_next readElem) it_elem fuel
      (mkPrefixIterator b (Some []) prefix None [] elem0 None)
    = Some (Ok (elems, it')) /\
    filter (hasPrefix prefix) (walletdb.entries b) = good ++ bad /\
    Forall2 (fun e r => readElem e.1 e.2 = Ok r) good elems /\
    ((bad = [] /\ it_err it' = None /\ it_c it' = None) \/
     (exists e bad', bad = e :: bad' /\
        readElem e.1 e.2 = Fail (storeError ErrData) /\
        it_err it' = Some (storeError ErrData))).
Proof.
  intros Hcases Hp Hfuel.
  destruct (seek_from_spec prefix (walletdb.entries b) (entries_sorted b))
    as (HS & Hin & _).
  destruct (prefixIterator_loop_spec readElem) with
    (l := walletdb.Seek b prefix)
    (it := mkPrefixIterator b (Some []) prefix None [] elem0 None)
    (pos := @nil (bytes * bytes)) (fuel := fuel)
    as (elems & it' & good & bad & Hrun & Hfil & Hall2 & Hend);
    try reflexivity; try assumption.
  - intros k v E. destruct (Hcases k v) as [[r Hr]|Hr]; congruence.
  - intros e He. now apply Hin.
  - pose proof (length_seek_from prefix (walletdb.entries b)).
    unfold walletdb.Seek. lia.
  - exists elems, it', good, bad. split; [exact Hrun|].
    split; [rewrite <- Hfil; symmetry; apply filter_seek_from|].
    split; [exact Hall2|].
    destruct Hend as [Hend|(e & bad' & err & Hbad & He & Herr)]; [now left|].
    right. exists e, bad'. split; [exact Hbad|].
    destruct (Hcases e.1 e.2) as [[r Hr]|Hr]; [congruence|].
    split; [exact Hr|]. congruence.
Qed.

(** X23: the loop over a credit iterator made for a non-empty prefix ends,
    and it sees the credits whose key has the prefix, in key order, each as
    [readElem] decodes it.  It leaves no error and a nil cursor, unless a
    pair with the prefix has a key shorter than 72 bytes or a value shorter
    than 9: the loop stops at the first such pair with [ErrData]. *)
Theorem creditIterator_visits (ns : Namespace) (b : gmap bytes bytes)
    prefix fuel :
  ns_buckets ns !! bucketCredits = Some b ->
  prefix <> [] ->
  length (walletdb.entries b) < fuel ->
  exists it0 elems it' good bad,
    makeCreditIterator ns prefix = Ok it0 /\
    creditIterator_loop fuel it0 = Some (Ok (elems, it')) /\
    filter (hasPrefix prefix) (walletdb.entries b) = good ++ bad /\
    Forall2 (fun e r => creditIterator_readElem e.1 e.2 = Ok r) good elems /\
    ((bad = [] /\ it_err it' = None /\ it_c it' = None) \/
     (exists e bad', bad = e :: bad' /\
        creditIterator_readElem e.1 e.2 = Fail (storeError ErrData) /\
        it_err it' = Some (storeError ErrData))).
Proof.
  intros Hb Hp Hfuel.
  unfold makeCreditIterator, walletdb.Bucket. rewrite Hb.
  eexists. 
  destruct (prefixIterator_fresh_spec creditIterator_readElem b prefix
              (mkCreditRecord 0 0 false false x00 false) fuel
              creditIterator_readElem_cases Hp Hfuel)
    as (elems & it' & good & bad & Hrun & Hrest).
  exists elems, it', good, bad. split; [reflexivity|]. split; [exact Hrun|].
  exact Hrest.
Qed.

Lemma creditIterator_visits_witness :
  exists it0 elems it' good bad,
    makeCreditIterator sampleTxCredit (keyTxRecord (sampleHash x01) sampleBlock)
    = Ok it0 /\
    creditIterator_loop 2 it0 = Some (Ok (elems, it')) /\
    filter (hasPrefix (keyTxRecord (sampleHash x01) sampleBlock))
      (walletdb.entries {[ sampleCreditKey := sampleCreditValue ]})
    = good ++ bad /\
    Forall2 (fun e r => creditIterator_readElem e.1 e.2 = Ok r) good elems /\
    ((bad = [] /\ it_err it' = None /\ it_c it' = None) \/
     (exists e bad', bad = e :: bad' /\
        creditIterator_readElem e.1 e.2 = Fail (storeError ErrData) /\
        it_err it' = Some (storeError ErrData))).
Proof.
  apply (creditIterator_visits sampleTxCredit
           {[ sampleCreditKey := sampleCreditValue ]}
           (keyTxRecord (sampleHash x01) sampleBlock) 2).
  - apply lookup_singleton_eq.
  - vm_compute. discriminate.
  - vm_compute. lia.
Defined.

(** X24: the loop over a debit iterator made for a non-empty prefix ends, and
    it sees the debits whose key has the prefix, in key order, each as
    [readElem] decodes it.  It leaves no error and a nil cursor, unless a
    pair with the prefix has a key shorter than 72 bytes or a value shorter
    than 80: the loop stops at the first such pair with [ErrData]. *)
Theorem debitIterator_visits (ns : Namespace) (b : gmap bytes bytes)
    prefix fuel :
  ns_buckets ns !! bucketDebits = Some b ->
  prefix <> [] ->
  length (walletdb.entries b) < fuel ->
  exists it0 elems it' good bad,
    makeDebitIterator ns prefix = Ok it0 /\
    debitIterator_loop fuel it0 = Some (Ok (elems, it')) /\
    filter (hasPrefix prefix) (walletdb.entries b) = good ++ bad /\
    Forall2 (fun e r => debitIterator_readElem e.1 e.2 = Ok r) good elems /\
    ((bad = [] /\ it_err it' = None /\ it_c it' = None) \/
     (exists e bad', bad = e :: bad' /\
        debitIterator_readElem e.1 e.2 = Fail (storeError ErrData) /\
        it_err it' = Some (storeError ErrData))).
Proof.
  intros Hb Hp Hfuel.
  unfold makeDebitIterator, walletdb.Bucket. rewrite Hb.
  eexists.
  destruct (prefixIterator_fresh_spec debitIterator_readElem b prefix
              (0%Z, 0%Z) fuel debitIterator_readElem_cases Hp Hfuel)
    as (elems & it' & good & bad & Hrun & Hrest).
  exists elems, it', good, bad. split; [reflexivity|]. split; [exact Hrun|].
  exact Hrest.
Qed.

Lemma debitIterator_visits_witness :
  exists it0 elems it' good bad,
    makeDebitIterator sampleTxDebit (keyTxRecord (sampleHash x0a) sampleBlock)
    = Ok it0 /\
    debitIterator_loop 2 it0 = Some (Ok (elems, it')) /\
    filter (hasPrefix (keyTxRecord (sampleHash x0a) sampleBlock))
      (walletdb.entries sampleDebitBucket)
    = good ++ bad /\
    Forall2 (fun e r => debitIterator_readElem e.1 e.2 = Ok r) good elems /\
    ((bad = [] /\ it_err it' = None /\ it_c it' = None) \/
     (exists e bad', bad = e :: bad' /\
        debitIterator_readElem e.1 e.2 = Fail (storeError ErrData) /\
        it_err it' = Some (storeError ErrData))).
Proof.
  apply (debitIterator_visits sampleTxDebit sampleDebitBucket
           (keyTxRecord (sampleHash x0a) sampleBlock) 2).
  - apply lookup_singleton_eq.
  - vm_compute. discriminate.
  - vm_compute. lia.
Defined.

(** ** The block iterator *)

Lemma readRawBlockRecord_cases k v :
  (exists r, readRawBlockRecord k v = Ok r) \/
  readRawBlockRecord k v = Fail (storeError ErrData).
Proof.
  unfold readRawBlockRecord.
  destruct (length k <? 4); [now right|].
  destruct (length v <? 46); [now right|].
  destruct (length v <? _); [now right|].
  left. eexists. reflexivity.
Qed.

Lemma filter_all {A} (P : A -> Prop) `{!forall x, Decision (P x)} (l : list A) :
  (forall x, x ∈ l -> P x) -> filter P l = l.
Proof.
  induction l as [|x l IH]; intros Hall; [reflexivity|].
  rewrite filter_cons_True by (apply Hall; left).
  f_equal. apply IH. intros y Hy. apply Hall. now right.
Qed.

(** On sorted pairs, seeking leaves the pairs whose key is not below the
    key sought. *)
Lemma seek_from_filter p (l : list (bytes * bytes)) :
  StronglySorted walletdb.entry_le l ->
  walletdb.seek_from p l = filter (notBelow p) l.
Proof.
  induction l as [|e l IH]; intros HS; [reflexivity|].
  apply StronglySorted_inv in HS as [HS Hall].
  cbn [walletdb.seek_from]. unfold bytes_lt.
  destruct (bytes_le p e.1) eqn:E; cbn [negb].
  - symmetry. apply filter_all. intros x Hx. unfold notBelow.
    apply elem_of_cons in Hx as [->|Hx]; [exact E|].
    rewrite Forall_forall in Hall. apply Hall in Hx.
    unfold walletdb.entry_le in Hx. apply Is_true_true in Hx.
    eapply bytes_le_trans; eassumption.
  - rewrite filter_cons_False by (unfold notBelow; congruence). now apply IH.
Qed.

(** The loop over the pairs [l] the cursor moves to next. *)
Lemma blockIterator_loop_spec :
  forall (l : list (bytes * bytes)) (it : blockIterator) pos fuel,
  bit_c it = Some pos ->
  match bit_ck it with
  | None => walletdb.Seek (bit_bucket it) (bit_seek it)
  | Some _ => walletdb.Next pos
  end = l ->
  length l < fuel ->
  exists elems it' good bad,
    blockIterator_loop fuel it = Some (Ok (elems, it')) /\
    l = good ++ bad /\
    Forall2 (fun e r => readRawBlockRecord e.1 e.2 = Ok r) good elems /\
    bit_c it' = None /\
    ((bad = [] /\ bit_err it' = bit_err it) \/
     (exists e bad', bad = e :: bad' /\
        readRawBlockRecord e.1 e.2 = Fail (storeError ErrData) /\
        bit_err it' = Some (storeError ErrData))).
Proof.
  induction l as [|[k v] l IH]; intros it pos fuel Hc Hl Hfuel;
    (destruct fuel as [|fuel]; [cbn [length] in Hfuel; lia|]);
    unfold blockIterator_loop; rewrite iterator_loop_S;
    fold blockIterator_loop; unfold blockIterator_next; rewrite Hc, Hl;
    cbn [head fmap option_fmap option_map from_option fst snd]; unfold id.
  - eexists _, _, [], []. split; [reflexivity|]. split; [reflexivity|].
    split; [constructor|]. split; [reflexivity|]. left. auto.
  - destruct (readRawBlockRecord_cases k v) as [[r Er]|Er]; rewrite Er.
    + set (it1 := mkBlockIterator _ _ _ _ _ _ _).
      destruct (IH it1 ((k, v) :: l) fuel) as (elems & it' & good & bad & Hrun
        & Hfil & Hall2 & Hnil & Hend); try reflexivity.
      * cbn [length] in Hfuel. lia.
      * rewrite Hrun. cbn [bit_elem it1].
        eexists (r :: elems), it', ((k, v) :: good), bad.
        split; [reflexivity|]. split; [rewrite Hfil; reflexivity|].
        split; [constructor; [exact Er|exact Hall2]|].
        split; [exact Hnil|exact Hend].
    + eexists [], _, [], ((k, v) :: l).
      split; [reflexivity|]. split; [reflexivity|]. split; [constructor|].
      split; [reflexivity|].
      right. eexists (k, v), l. split; [reflexivity|].
      split; [exact Er|reflexivity].
Qed.

(** X25: the loop over a block iterator made for a height ends, and it sees
    the block records whose key is not below the key of the height, in key
    order, each as [readRawBlockRecord] reads it.  It leaves a nil cursor,
    and no error unless a record is malformed: the loop stops at the first
    such record with [ErrData]. *)
Theorem blockIterator_visits (ns : Namespace) (b : gmap bytes bytes)
    height fuel :
  ns_buckets ns !! bucketBlocks = Some b ->
  length (walletdb.entries b) < fuel ->
  exists it0 elems it' good bad,
    makeBlockIterator ns height = Ok it0 /\
    blockIterator_loop fuel it0 = Some (Ok (elems, it')) /\
    filter (notBelow (keyBlockRecord height)) (walletdb.entries b)
    = good ++ bad /\
    Forall2 (fun e r => readRawBlockRecord e.1 e.2 = Ok r) good elems /\
    bit_c it' = None /\
    ((bad = [] /\ bit_err it' = None) \/
     (exists e bad', bad = e :: bad' /\
        readRawBlockRecord e.1 e.2 = Fail (storeError ErrData) /\
        bit_err it' = Some (storeError ErrData))).
Proof.
  intros Hb Hfuel.
  unfold makeBlockIterator, walletdb.Bucket. rewrite Hb.
  eexists. 
  destruct (blockIterator_loop_spec
              (walletdb.Seek b (keyBlockRecord height))
              (mkBlockIterator b (Some []) (keyBlockRecord height) None []
                 (mkBlockRecord 0 (make 32) 0 0 []) None)
              [] fuel)
    as (elems & it' & good & bad & Hrun & Hfil & Hrest); try reflexivity.
  - pose proof (length_seek_from (keyBlockRecord height) (walletdb.entries b)).
    unfold walletdb.Seek. lia.
  - exists elems, it', good, bad. split; [reflexivity|].
    split; [exact Hrun|].
    split; [|exact Hrest].
    rewrite <- Hfil. symmetry. apply seek_from_filter, entries_sorted.
Qed.

Lemma blockIterator_visits_witness :
  exists it0 elems it' good bad,
    makeBlockIterator (sampleBlocksAt [100; 101; 103]%Z) 101 = Ok it0 /\
    blockIterator_loop 4 it0 = Some (Ok (elems, it')) /\
    filter (notBelow (keyBlockRecord 101))
      (walletdb.entries
         (list_to_map
            ((fun h => (keyBlockRecord h,
                        valueBlockRecordEmpty
                          (mkBlockMeta (mkBlock (sampleHash x0b) h) 0 0)))
               <$> [100; 101; 103]%Z)))
    = good ++ bad /\
    Forall2 (fun e r => readRawBlockRecord e.1 e.2 = Ok r) good elems /\
    bit_c it' = None /\
    ((bad = [] /\ bit_err it' = None) \/
     (exists e bad', bad = e :: bad' /\
        readRawBlockRecord e.1 e.2 = Fail (storeError ErrData) /\
        bit_err it' = Some (storeError ErrData))).
Proof.
  apply (blockIterator_visits (sampleBlocksAt [100; 101; 103]%Z) _ 101 4).
  - apply lookup_singleton_eq.
  - vm_compute. lia.
Defined.

(** X26: a credit stored with [putUnspentCredit] is found by [existsCredit],
    and the credit iterator reads it as an unspent credit with the output
    index, the amount, the change flag, the stake opcode and the coinbase
    flag it was stored with. *)
Theorem creditIterator_readElem_putUnspentCredit (ns : Namespace)
    (cs : gmap bytes bytes) (h : Hash) index (block : Block) cred scrType
    scrLoc scrLen account :
  ns_writable ns = true ->
  ns_buckets ns !! bucketCredits = Some cs ->
  (185 <= byte_to_Z (cred_opCode cred) <= 192)%Z ->
  exists ns' v,
    putUnspentCredit ns h index block cred scrType scrLoc scrLen account
    = Ok ns' /\
    existsCredit ns' h index block = Ok (keyCredit h index block, Some v) /\
    creditIterator_readElem (keyCredit h index block) v
    = Ok (mkCreditRecord (uint32 index) (int64 (cred_amount cred)) false
            (cred_change cred) (cred_opCode cred) (cred_isCoinbase cred)) /\
    (forall h' index' block',
       keyCredit h' index' block' <> keyCredit h index block ->
       existsCredit ns' h' index' block' = existsCredit ns h' index' block').
Proof.
  intros Hw Hb Hop.
  unfold putUnspentCredit, putRawCredit, walletdb.BucketPut. rewrite Hb, Hw.
  eexists. eexists. split; [reflexivity|].
  unfold existsCredit, walletdb.BucketGet.
  cbn [ns_buckets ns_values ns_writable orFail mbind result_bind].
  rewrite lookup_insert_eq. cbn [mbind result_bind].
  rewrite lookup_insert_eq. split; [reflexivity|]. split.
  - set (v := valueUnspentCredit cred scrType scrLoc scrLen account).
    assert (Lv : length v = 94) by apply length_valueUnspentCredit.
    assert (Ea : byteOrder.Uint64 v = uint64 (cred_amount cred))
      by apply creditAmount_valueUnspentCredit.
    assert (E8 : get_byte v 8
                 = creditFlags (cred_opCode cred) (cred_change cred)
                     (cred_isCoinbase cred)).
    { unfold v. rewrite valueUnspentCredit_layout.
      apply get_byte_app_mid. now rewrite be_encode_length. }
    destruct (creditFlags_read (cred_opCode cred) (cred_change cred)
                (cred_isCoinbase cred) Hop) as [Hopc Hcb].
    destruct (creditFlags_change (cred_opCode cred) (cred_change cred)
                (cred_isCoinbase cred)) as [Hch Hsp].
    unfold creditIterator_readElem, fetchRawCreditTagOpCode,
      fetchRawCreditIsCoinbase.
    rewrite length_keyCredit, Lv. cbn [Nat.ltb Nat.leb mbind result_bind].
    rewrite Ea, E8, Hopc, Hcb, Hch, Hsp, int64_uint64.
    rewrite keyCredit_layout.
    rewrite slice_app_last
      by (rewrite ?length_keyTxRecord, ?be_encode_length; reflexivity).
    now rewrite Uint32_be_encode.
  - intros h' index' block' Hk. rewrite Hb. cbn [mbind result_bind].
    rewrite lookup_insert_ne by congruence. reflexivity.
Qed.

Lemma creditIterator_readElem_putUnspentCredit_witness :
  exists ns' v,
    putUnspentCredit sampleTxEmpty (sampleHash x01) 0 sampleBlock sampleCredit
      scriptTypeP2PKH 0 0 0 = Ok ns' /\
    existsCredit ns' (sampleHash x01) 0 sampleBlock
    = Ok (keyCredit (sampleHash x01) 0 sampleBlock, Some v) /\
    creditIterator_readElem (keyCredit (sampleHash x01) 0 sampleBlock) v
    = Ok (mkCreditRecord (uint32 0) (int64 (cred_amount sampleCredit)) false
            (cred_change sampleCredit) (cred_opCode sampleCredit)
            (cred_isCoinbase sampleCredit)) /\
    (forall h' index' block',
       keyCredit h' index' block' <> keyCredit (sampleHash x01) 0 sampleBlock ->
       existsCredit ns' h' index' block'
       = existsCredit sampleTxEmpty h' index' block').
Proof.
  apply (creditIterator_readElem_putUnspentCredit sampleTxEmpty ∅
           (sampleHash x01) 0 sampleBlock sampleCredit scriptTypeP2PKH 0 0 0).
  - reflexivity.
  - apply lookup_singleton_eq.
  - vm_compute. split; discriminate.
Defined.

